(** * Anti-forensic wipe detection: classifier, aggregator, scorer, scanner

    A shallow embedding of the wipe-detection core of the repository:
    [engine/classifier.py], [engine/aggregator.py], [engine/scorer.py],
    the block reader of [engine/reader.py], and the region fallback and the
    scan pipeline of [scanner.py].

    Modelling conventions.
    - Python floats are modelled as real numbers ([R]); Python's
      [round(x, k)] is round-half-to-even on the exact value.
    - Every Python operation that can raise (list indexing with a computed
      index, division by a runtime quantity, [math.log2], [math.sqrt],
      [list.index]) returns an [option]; [None] is the exception.
    - The classifier is parameterised by [numpy_available], the value of the
      module flag [_NUMPY], since [_stats_from_data] has a numpy path and a
      pure-Python fallback that round differently. *)

From Stdlib Require Import Reals Lra Lia ZArith List Bool Sorting.
From Stdlib Require Strings.Byte.
Import ListNotations.

Open Scope R_scope.

(* ------------------------------------------------------------------ *)
(** ** Python primitives *)

Definition Rleb (x y : R) : bool := if Rle_dec x y then true else false.
Definition Rltb (x y : R) : bool := if Rlt_dec x y then true else false.

(** Option monad for code that may raise. *)
Definition obind {A B} (m : option A) (k : A -> option B) : option B :=
  match m with Some a => k a | None => None end.
Notation "x <- m ;; k" := (obind m (fun x => k))
  (at level 61, m at next level, right associativity).

(** [a / n] where [n] is a Python int: [ZeroDivisionError] at 0. *)
Definition py_div (a : R) (n : Z) : option R :=
  if (n =? 0)%Z then None else Some (a / IZR n).

(** [math.log2]: [ValueError] outside the positive reals. *)
Definition py_log2 (x : R) : option R :=
  if Rltb 0 x then Some (ln x / ln 2) else None.

(** [math.sqrt]: [ValueError] on a negative argument. *)
Definition py_sqrt (x : R) : option R :=
  if Rleb 0 x then Some (sqrt x) else None.

(** [l[i]]: negative indices count from the end; [IndexError] otherwise. *)
Definition py_index {A} (l : list A) (i : Z) : option A :=
  let n := Z.of_nat (length l) in
  if (0 <=? i)%Z && (i <? n)%Z then nth_error l (Z.to_nat i)
  else if (- n <=? i)%Z && (i <? 0)%Z then nth_error l (Z.to_nat (n + i))
  else None.

(** [range(a, b)]. *)
Definition zrange (a b : Z) : list Z :=
  map (fun k => (a + Z.of_nat k)%Z) (seq 0 (Z.to_nat (b - a))).

(** Round half to even of a real, as Python's [round] of a float. *)
Definition round_half_even (y : R) : Z :=
  let f := Int_part y in
  let d := y - IZR f in
  if Rltb d (1/2) then f
  else if Rltb (1/2) d then (f + 1)%Z
  else if Z.even f then f else (f + 1)%Z.

(** [round(x, k)]. *)
Definition py_round (x : R) (k : nat) : R :=
  IZR (round_half_even (x * 10 ^ k)) / 10 ^ k.

Fixpoint Rsum (l : list R) : R :=
  match l with [] => 0 | x :: t => x + Rsum t end.

(* ------------------------------------------------------------------ *)
(** ** Labels and block results ([engine/classifier.py]) *)

(** The closed set of [wipe_type] strings. *)
Inductive WipeType :=
| ZERO_WIPE | FF_WIPE | RANDOM_WIPE | MULTI_PASS
| LIKELY_ZERO_WIPE | LIKELY_FF_WIPE | LOW_ENTROPY_SUSPECT
| UNALLOCATED | NORMAL.

Definition WipeType_eqb (a b : WipeType) : bool :=
  match a, b with
  | ZERO_WIPE, ZERO_WIPE | FF_WIPE, FF_WIPE | RANDOM_WIPE, RANDOM_WIPE
  | MULTI_PASS, MULTI_PASS | LIKELY_ZERO_WIPE, LIKELY_ZERO_WIPE
  | LIKELY_FF_WIPE, LIKELY_FF_WIPE | LOW_ENTROPY_SUSPECT, LOW_ENTROPY_SUSPECT
  | UNALLOCATED, UNALLOCATED | NORMAL, NORMAL => true
  | _, _ => false
  end.

Module BlockResult.
Record t := mk {
    block_id      : Z;
    offset        : Z;
    wipe_type     : WipeType;
    entropy       : R;
    confidence    : R;
    dominant_byte : Z;
    dominant_pct  : R;
    is_suspicious : bool;
    zero_ratio    : R;
    ff_ratio      : R
  }.
End BlockResult.

(** [_result] factory. *)
Definition _result (block_id offset : Z) (wipe_type : WipeType)
  (entropy confidence : R) (dominant_byte : Z) (dominant_pct : R)
  (is_suspicious : bool) (zero_ratio ff_ratio : R) : BlockResult.t :=
  BlockResult.mk block_id offset wipe_type entropy confidence
    dominant_byte dominant_pct is_suspicious zero_ratio ff_ratio.

(** Thresholds. *)
Definition ZERO_FF_STRONG_MIN : R := 0.90.
Definition ZERO_FF_PARTIAL_MIN : R := 0.60.
Definition ENTROPY_FILL_MAX : R := 0.20.
Definition ENTROPY_RANDOM_MIN : R := 7.60.
Definition UNIFORMITY_WIPE_MAX : R := 0.0140.
Definition ENTROPY_LOW_MIN : R := 0.21.
Definition ENTROPY_LOW_MAX : R := 1.50.
Definition SUSPECT_DOMINANT_MAX : R := 0.85.
Definition MULTI_PASS_LO : R := 3.5.
Definition MULTI_PASS_HI : R := 6.5.
Definition MULTI_PASS_UNIF_MAX : R := 0.0080.

Definition COMPRESSED_MAGIC : list Z :=
  [0x50; 0x4B; 0x1F; 0x8B; 0xFF; 0xD8; 0x89; 0x50; 0x4E; 0x47;
   0x25; 0x50; 0x44; 0x46; 0x7F; 0x45; 0x4C; 0x46; 0x4D; 0x5A;
   0x52; 0x61; 0x72; 0x21; 0xFD; 0x37; 0x7A; 0x58; 0x42; 0x5A; 0x68]%Z.

Definition byte_val (b : Byte.byte) : Z := Z.of_nat (Byte.to_nat b).

(** Byte histogram: [raw_counts[b] += 1] over the data, 256 buckets. *)
Fixpoint incr_nth (l : list Z) (i : nat) : list Z :=
  match l, i with
  | [], _ => []
  | c :: t, O => (c + 1)%Z :: t
  | c :: t, S i' => c :: incr_nth t i'
  end.

Definition raw_counts (data : list Byte.byte) : list Z :=
  fold_left (fun acc b => incr_nth acc (Byte.to_nat b)) data (repeat 0%Z 256).

(** First index of a maximal count ([np.argmax], or Python's [max] with a
    key, which keeps the first maximum; [c / n] is increasing in [c]). *)
Fixpoint argmax_aux (l : list Z) (i bi : nat) (bv : Z) : nat :=
  match l with
  | [] => bi
  | c :: t => if (bv <? c)%Z then argmax_aux t (S i) i c
              else argmax_aux t (S i) bi bv
  end.

Definition argmax (l : list Z) : nat :=
  match l with [] => O | c :: t => argmax_aux t 1 0 c end.

(** [Σ p·log2 p] over the non-zero counts, [p = c / n]. *)
Fixpoint plogp_sum (counts : list Z) (n : Z) : option R :=
  match counts with
  | [] => Some 0
  | c :: t =>
      rest <- plogp_sum t n ;;
      if (c =? 0)%Z then Some rest
      else p <- py_div (IZR c) n ;;
           lp <- py_log2 p ;;
           Some (p * lp + rest)
  end.

Fixpoint freq_of (counts : list Z) (n : Z) : option (list R) :=
  match counts with
  | [] => Some []
  | c :: t => f <- py_div (IZR c) n ;; fs <- freq_of t n ;; Some (f :: fs)
  end.

(** [shannon_entropy]: both the numpy and the Counter path compute
    [-Σ p log2 p] over the present byte values and round to 6 places. *)
Definition shannon_entropy (data : list Byte.byte) : option R :=
  match data with
  | [] => Some 0
  | _ => h <- plogp_sum (raw_counts data) (Z.of_nat (length data)) ;;
         Some (py_round (- h) 6)
  end.

(** [distribution_uniformity]: standard deviation about [1/256]. *)
Definition distribution_uniformity (freq : list R) : option R :=
  let mean := 1 / 256 in
  py_sqrt (Rsum (map (fun f => (f - mean) ^ 2) freq) / 256).

(** [_stats_from_data]: (entropy, freq, zero_ratio, ff_ratio, dom_byte,
    dom_pct).  The numpy path leaves entropy and ratios unrounded; the
    pure-Python path rounds entropy to 6 and the ratios to 4 places. *)
Definition _stats_from_data (numpy_available : bool) (data : list Byte.byte)
  : option (R * list R * R * R * Z * R) :=
  let n := Z.of_nat (length data) in
  let counts := raw_counts data in
  freq <- freq_of counts n ;;
  s <- plogp_sum counts n ;;
  zr <- py_div (IZR (nth 0 counts 0%Z)) n ;;
  fr <- py_div (IZR (nth 255 counts 0%Z)) n ;;
  let dom_byte := Z.of_nat (argmax counts) in
  dom_pct <- py_index freq dom_byte ;;
  if numpy_available then Some (- s, freq, zr, fr, dom_byte, dom_pct)
  else Some (py_round (- s) 6, freq, py_round zr 4, py_round fr 4,
             dom_byte, dom_pct).

(** [has_legitimate_structure] (checks 1-3; the fourth check in the
    source sits after an unconditional [return False] and is unreachable). *)
Fixpoint printable_run (data : list Byte.byte) (run : nat) : bool :=
  match data with
  | [] => false
  | b :: t =>
      if (0x20 <=? byte_val b)%Z && (byte_val b <=? 0x7E)%Z then
        if (64 <=? S run)%nat then true else printable_run t (S run)
      else printable_run t 0
  end.

Definition has_legitimate_structure (data : list Byte.byte) (freq : list R)
  : bool :=
  (* 1. magic bytes in the first 16 bytes *)
  if existsb (fun b => existsb (Z.eqb (byte_val b)) COMPRESSED_MAGIC)
       (firstn 16 data) then true
  (* 2. byte-range clustering *)
  else if existsb (fun i =>
            Rltb (32 / 256 * 2.8) (Rsum (firstn 32 (skipn (i * 32) freq))))
          (seq 0 8) then true
  (* 3. printable ASCII run of 64 bytes *)
  else printable_run data 0.

(** Confidence calculators. *)
Definition _fill_conf (dominant_ratio entropy : R) : R :=
  let dom_score := (dominant_ratio - ZERO_FF_STRONG_MIN)
                   / (1.0 - ZERO_FF_STRONG_MIN) in
  let ent_score := 1.0 - Rmin (entropy / 0.5) 1.0 in
  py_round (Rmin (0.55 + dom_score * 0.28 + ent_score * 0.17) 1.0) 3.

Definition _partial_conf (dominant_ratio : R) : R :=
  let scaled := (dominant_ratio - ZERO_FF_PARTIAL_MIN)
                / (ZERO_FF_STRONG_MIN - ZERO_FF_PARTIAL_MIN) in
  py_round (0.40 + scaled * 0.32) 3.

Definition _random_conf (entropy uniformity : R) : R :=
  let ent_score := (entropy - ENTROPY_RANDOM_MIN) / (8.0 - ENTROPY_RANDOM_MIN) in
  let unif_score := 1.0 - Rmin (uniformity / UNIFORMITY_WIPE_MAX) 1.0 in
  py_round (Rmin (0.58 + ent_score * 0.22 + unif_score * 0.12) 0.92) 3.

Definition non_empty {A} (l : list A) : bool :=
  match l with [] => false | _ => true end.

(** [classify_block]: the decision tree, in the source's order. *)
Definition classify_block (numpy_available : bool) (block_id offset : Z)
  (data : list Byte.byte) : option BlockResult.t :=
  match data with
  | [] => Some (_result block_id offset NORMAL 0.0 1.0 0 1.0 false 0.0 0.0)
  | _ =>
  st <- _stats_from_data numpy_available data ;;
  let '(entropy, freq, zero_ratio, ff_ratio, dominant_byte, dominant_pct) := st in
  let res wt conf susp :=
    Some (_result block_id offset wt entropy conf dominant_byte dominant_pct
            susp zero_ratio ff_ratio) in
  (* 1. strong zero wipe *)
  if Rleb ZERO_FF_STRONG_MIN zero_ratio && Rleb entropy ENTROPY_FILL_MAX then
    res ZERO_WIPE (_fill_conf zero_ratio entropy) true
  (* 2. strong FF wipe *)
  else if Rleb ZERO_FF_STRONG_MIN ff_ratio && Rleb entropy ENTROPY_FILL_MAX then
    res FF_WIPE (_fill_conf ff_ratio entropy * 0.96) true
  (* 3. partial zero wipe *)
  else if Rleb ZERO_FF_PARTIAL_MIN zero_ratio
          && Rltb zero_ratio ZERO_FF_STRONG_MIN then
    let non_zero := filter (fun b => negb (byte_val b =? 0)%Z) data in
    h <- shannon_entropy non_zero ;;
    if non_empty non_zero && Rltb 3.5 h then
      res LIKELY_ZERO_WIPE (_partial_conf zero_ratio) true
    else res NORMAL 0.82 false
  (* 4. partial FF wipe *)
  else if Rleb ZERO_FF_PARTIAL_MIN ff_ratio
          && Rltb ff_ratio ZERO_FF_STRONG_MIN then
    let non_ff := filter (fun b => negb (byte_val b =? 0xFF)%Z) data in
    h <- shannon_entropy non_ff ;;
    if non_empty non_ff && Rltb 3.5 h then
      res LIKELY_FF_WIPE (_partial_conf ff_ratio) true
    else res NORMAL 0.82 false
  (* 5. random wipe *)
  else if Rleb ENTROPY_RANDOM_MIN entropy then
    uniformity <- distribution_uniformity freq ;;
    if Rleb uniformity UNIFORMITY_WIPE_MAX then
      if has_legitimate_structure data freq then res NORMAL 0.72 false
      else res RANDOM_WIPE (_random_conf entropy uniformity) true
    else res NORMAL 0.87 false
  (* 6. low entropy suspect *)
  else if Rltb ENTROPY_LOW_MIN entropy && Rleb entropy ENTROPY_LOW_MAX then
    if Rleb dominant_pct SUSPECT_DOMINANT_MAX then
      uniformity <- distribution_uniformity freq ;;
      if Rltb uniformity 0.020 then res LOW_ENTROPY_SUSPECT 0.52 true
      else res NORMAL 0.82 false
    else res NORMAL 0.82 false
  (* 7. multi-pass candidate *)
  else
  mp <- (if Rleb MULTI_PASS_LO entropy && Rleb entropy MULTI_PASS_HI then
           uniformity <- distribution_uniformity freq ;;
           Some (Rltb uniformity MULTI_PASS_UNIF_MAX)
         else Some false) ;;
  if mp then res MULTI_PASS 0.52 true
  (* 8. genuine unallocated *)
  else if (dominant_byte =? 0)%Z && Rleb 0.70 dominant_pct
          && Rltb dominant_pct ZERO_FF_STRONG_MIN then
    res UNALLOCATED 0.48 false
  (* 9. normal *)
  else res NORMAL 0.90 false
  end.

(* ------------------------------------------------------------------ *)
(** ** Aggregator ([engine/aggregator.py]) *)

Definition BLOCK_SIZE : Z := 512.
Definition MIN_REGION_BLOCKS : Z := 16.
Definition MAX_NORMAL_GAP : Z := 8.
Definition MULTI_PASS_MIN_BANDS : nat := 3.
Definition MULTI_PASS_GAP_BLOCKS : Z := 4.
Definition ISOLATION_WINDOW : Z := 50.

Definition in_PARTIAL_WIPE_TYPES (t : WipeType) : bool :=
  match t with
  | LIKELY_ZERO_WIPE | LIKELY_FF_WIPE | LOW_ENTROPY_SUSPECT => true
  | _ => false
  end.

Definition in_STRONG_WIPE_TYPES (t : WipeType) : bool :=
  match t with
  | ZERO_WIPE | FF_WIPE | RANDOM_WIPE | MULTI_PASS => true
  | _ => false
  end.

Module Region.
Record t := mk {
    id           : Z;
    start_offset : Z;
    end_offset   : Z;
    size         : Z;
    wipe_type    : WipeType;
    block_count  : Z;
    avg_entropy  : R;
    confidence   : R;
    blocks       : list Z
  }.
End Region.

Definition with_confidence (r : Region.t) (c : R) : Region.t :=
  Region.mk (Region.id r) (Region.start_offset r) (Region.end_offset r)
    (Region.size r) (Region.wipe_type r) (Region.block_count r)
    (Region.avg_entropy r) c (Region.blocks r).

Definition with_id (r : Region.t) (i : Z) : Region.t :=
  Region.mk i (Region.start_offset r) (Region.end_offset r)
    (Region.size r) (Region.wipe_type r) (Region.block_count r)
    (Region.avg_entropy r) (Region.confidence r) (Region.blocks r).

Definition zlen {A} (l : list A) : Z := Z.of_nat (length l).

(** [[f(all_blocks[bid]) for bid in ids if bid < len(all_blocks)]]. *)
Fixpoint gather {A} (f : BlockResult.t -> A) (all_blocks : list BlockResult.t)
  (ids : list Z) : option (list A) :=
  match ids with
  | [] => Some []
  | bid :: t =>
      if (bid <? zlen all_blocks)%Z then
        b <- py_index all_blocks bid ;;
        xs <- gather f all_blocks t ;;
        Some (f b :: xs)
      else gather f all_blocks t
  end.

(** [sum(xs) / len(xs) if xs else 0.0]. *)
Definition mean_or_zero (xs : list R) : option R :=
  match xs with [] => Some 0.0 | _ => py_div (Rsum xs) (zlen xs) end.

(** Step 1: [_merge_consecutive].  The inner [while j] loop: *)
Fixpoint take_run (wt : WipeType) (l : list BlockResult.t)
  : list BlockResult.t * list BlockResult.t :=
  match l with
  | [] => ([], [])
  | nxt :: t =>
      if BlockResult.is_suspicious nxt
         && WipeType_eqb (BlockResult.wipe_type nxt) wt then
        let '(run, rest) := take_run wt t in (nxt :: run, rest)
      else ([], l)
  end.

Definition run_region (region_id : Z) (wt : WipeType)
  (first : BlockResult.t) (run_blocks : list BlockResult.t) : option Region.t :=
  let start_off := (BlockResult.block_id first * BLOCK_SIZE)%Z in
  let end_off := (BlockResult.block_id (last run_blocks first) * BLOCK_SIZE
                  + BLOCK_SIZE - 1)%Z in
  avg_entropy <- py_div (Rsum (map BlockResult.entropy run_blocks))
                        (zlen run_blocks) ;;
  Some (Region.mk region_id start_off end_off (end_off - start_off + 1)%Z wt
          (zlen run_blocks) avg_entropy 0.0
          (map BlockResult.block_id run_blocks)).

(** The outer [while i] loop, one iteration per unit of fuel; every
    iteration consumes at least one block. *)
Fixpoint merge_loop (fuel : nat) (results : list BlockResult.t)
  (region_id : Z) : option (list Region.t) :=
  match fuel with
  | O => Some []
  | S fuel' =>
    match results with
    | [] => Some []
    | block :: rest =>
        if negb (BlockResult.is_suspicious block) then
          merge_loop fuel' rest region_id
        else
          let wipe_type := BlockResult.wipe_type block in
          let '(run, rest') := take_run wipe_type rest in
          r <- run_region region_id wipe_type block (block :: run) ;;
          rs <- merge_loop fuel' rest' (region_id + 1)%Z ;;
          Some (r :: rs)
    end
  end.

Definition _merge_consecutive (results : list BlockResult.t)
  : option (list Region.t) :=
  merge_loop (length results) results 0%Z.

(** Step 2: [_absorb_noise].  [merged] is kept reversed: its head is
    [merged[-1]]. *)
Definition absorb_step (all_blocks : list BlockResult.t)
  (merged : list Region.t) (curr : Region.t) : option (list Region.t) :=
  match merged with
  | [] => Some [curr]
  | prev :: older =>
    if negb (WipeType_eqb (Region.wipe_type prev) (Region.wipe_type curr)) then
      Some (curr :: merged)
    else
      let prev_last_block :=
        match Region.blocks prev with [] => (-999)%Z
        | b :: bs => last bs b end in
      let curr_first_block :=
        match Region.blocks curr with [] => 9999%Z | b :: _ => b end in
      let gap_blocks := (curr_first_block - prev_last_block - 1)%Z in
      if (gap_blocks <=? MAX_NORMAL_GAP)%Z then
        let gap_block_ids := zrange (prev_last_block + 1) curr_first_block in
        let merged_blocks :=
          Region.blocks prev ++ gap_block_ids ++ Region.blocks curr in
        let all_ids := Region.blocks prev ++ Region.blocks curr in
        entropies <- gather BlockResult.entropy all_blocks all_ids ;;
        avg_entropy <- mean_or_zero entropies ;;
        Some (Region.mk (Region.id prev) (Region.start_offset prev)
                (Region.end_offset curr)
                (Region.end_offset curr - Region.start_offset prev + 1)%Z
                (Region.wipe_type prev) (zlen merged_blocks) avg_entropy 0.0
                merged_blocks :: older)
      else Some (curr :: merged)
  end.

Fixpoint absorb_loop (all_blocks : list BlockResult.t)
  (merged : list Region.t) (regions : list Region.t) : option (list Region.t) :=
  match regions with
  | [] => Some (rev merged)
  | curr :: rest =>
      merged' <- absorb_step all_blocks merged curr ;;
      absorb_loop all_blocks merged' rest
  end.

Definition _absorb_noise (regions : list Region.t)
  (all_blocks : list BlockResult.t) : option (list Region.t) :=
  match regions with
  | [] | [_] => Some regions
  | r0 :: rest => absorb_loop all_blocks [r0] rest
  end.

(** Step 3: [_filter_by_size]. *)
Definition _filter_by_size (regions : list Region.t) : list Region.t :=
  filter (fun r => (MIN_REGION_BLOCKS <=? Region.block_count r)%Z) regions.

(** Step 4: [_detect_multi_pass].  The inner [while j] loop collects the
    band group after [regions[i]]: *)
Fixpoint take_bands (prev : Region.t) (rest : list Region.t)
  : list Region.t * list Region.t :=
  match rest with
  | [] => ([], [])
  | curr :: t =>
      let gap_blocks := ((Region.start_offset curr - Region.end_offset prev - 1)
                         / BLOCK_SIZE)%Z in
      let is_adjacent := (gap_blocks <=? MULTI_PASS_GAP_BLOCKS)%Z in
      let is_alternating :=
        negb (WipeType_eqb (Region.wipe_type curr) (Region.wipe_type prev))
        && in_STRONG_WIPE_TYPES (Region.wipe_type curr)
        && in_STRONG_WIPE_TYPES (Region.wipe_type prev) in
      if is_adjacent && is_alternating then
        let '(g, r) := take_bands curr t in (curr :: g, r)
      else ([], rest)
  end.

Definition band_region (all_blocks : list BlockResult.t)
  (first : Region.t) (band_group : list Region.t) : option Region.t :=
  let all_block_ids := flat_map Region.blocks band_group in
  entropies <- gather BlockResult.entropy all_blocks all_block_ids ;;
  avg_e <- mean_or_zero entropies ;;
  let lst := last band_group first in
  Some (Region.mk 0 (Region.start_offset first) (Region.end_offset lst)
          (Region.end_offset lst - Region.start_offset first + 1)%Z
          MULTI_PASS
          (fold_right Z.add 0%Z (map Region.block_count band_group))
          avg_e 0.0 all_block_ids).

Fixpoint multi_pass_loop (fuel : nat) (all_blocks : list BlockResult.t)
  (regions : list Region.t) : option (list Region.t) :=
  match fuel with
  | O => Some []
  | S fuel' =>
    match regions with
    | [] => Some []
    | ri :: rest =>
        let '(g, rest') := take_bands ri rest in
        let band_group := ri :: g in
        if (MULTI_PASS_MIN_BANDS <=? length band_group)%nat then
          r <- band_region all_blocks ri band_group ;;
          rs <- multi_pass_loop fuel' all_blocks rest' ;;
          Some (r :: rs)
        else
          rs <- multi_pass_loop fuel' all_blocks rest ;;
          Some (ri :: rs)
    end
  end.

Definition _detect_multi_pass (regions : list Region.t)
  (all_blocks : list BlockResult.t) : option (list Region.t) :=
  if (length regions <? MULTI_PASS_MIN_BANDS)%nat then Some regions
  else multi_pass_loop (length regions) all_blocks regions.

(** Step 5: [_suppress_false_positives].  The Python [set] of strong block
    ids is only queried with [any], so a list with repetitions models it. *)
Definition strong_block_ids (regions : list Region.t) : list Z :=
  flat_map (fun r => if in_STRONG_WIPE_TYPES (Region.wipe_type r)
                     then Region.blocks r else []) regions.

Definition corroborated (strong : list Z) (r : Region.t) : bool :=
  let first_block := match Region.blocks r with [] => 0%Z | b :: _ => b end in
  let last_block := match Region.blocks r with [] => 0%Z
                    | b :: bs => last bs b end in
  let window_start := Z.max 0 (first_block - ISOLATION_WINDOW) in
  let window_end := (last_block + ISOLATION_WINDOW)%Z in
  existsb (fun bid => (window_start <=? bid)%Z && (bid <=? window_end)%Z)
    strong.

Definition _suppress_false_positives (regions : list Region.t)
  (all_blocks : list BlockResult.t) : list Region.t :=
  match regions with
  | [] => regions
  | _ =>
    let strong := strong_block_ids regions in
    filter (fun r => negb (in_PARTIAL_WIPE_TYPES (Region.wipe_type r))
                     || corroborated strong r) regions
  end.

(** Step 6: [_compute_confidence].  The source assigns [r.confidence] in
    place; no region object occurs twice in the list, so a map models it. *)
Definition type_adj (t : WipeType) : R :=
  match t with
  | ZERO_WIPE => 0.00
  | FF_WIPE => -0.02
  | RANDOM_WIPE => -0.04
  | MULTI_PASS => -0.08
  | LIKELY_ZERO_WIPE => -0.12
  | LIKELY_FF_WIPE => -0.12
  | LOW_ENTROPY_SUSPECT => -0.15
  | _ => 0.0
  end.

Definition region_confidence (all_blocks : list BlockResult.t) (r : Region.t)
  : option R :=
  let valid_block_ids :=
    filter (fun bid => (bid <? zlen all_blocks)%Z) (Region.blocks r) in
  match valid_block_ids with
  | [] => Some 0.50
  | _ =>
    block_confs <- gather BlockResult.confidence all_blocks valid_block_ids ;;
    avg_conf <- py_div (Rsum block_confs) (zlen block_confs) ;;
    let size_bonus := Rmin (IZR (Region.block_count r) / 512) 1.0 * 0.10 in
    susp <- gather BlockResult.is_suspicious all_blocks valid_block_ids ;;
    let susp_in_region := zlen (filter (fun s => s) susp) in
    density_ratio <- py_div (IZR susp_in_region) (zlen valid_block_ids) ;;
    let density_bonus := (density_ratio - 0.5) * 0.10 in
    Some (py_round (Rmin (Rmax (avg_conf + size_bonus + density_bonus
                                + type_adj (Region.wipe_type r)) 0.0) 1.0) 3)
  end.

Fixpoint _compute_confidence (regions : list Region.t)
  (all_blocks : list BlockResult.t) : option (list Region.t) :=
  match regions with
  | [] => Some []
  | r :: rest =>
      c <- region_confidence all_blocks r ;;
      rs <- _compute_confidence rest all_blocks ;;
      Some (with_confidence r c :: rs)
  end.

(** [for i, r in enumerate(scored, 1): r.id = i]. *)
Fixpoint number_from (i : Z) (rs : list Region.t) : list Region.t :=
  match rs with
  | [] => []
  | r :: t => with_id r i :: number_from (i + 1)%Z t
  end.

Definition aggregate (results : list BlockResult.t) : option (list Region.t) :=
  match results with
  | [] => Some []
  | _ =>
    raw <- _merge_consecutive results ;;
    absorbed <- _absorb_noise raw results ;;
    let sized := _filter_by_size absorbed in
    with_multi <- _detect_multi_pass sized results ;;
    let clean := _suppress_false_positives with_multi results in
    scored <- _compute_confidence clean results ;;
    Some (number_from 1 scored)
  end.

(* ------------------------------------------------------------------ *)
(** ** Scorer ([engine/scorer.py]) *)

Inductive Verdict := NEGLIGIBLE | LOW | MEDIUM | HIGH.

Definition Verdict_eqb (a b : Verdict) : bool :=
  match a, b with
  | NEGLIGIBLE, NEGLIGIBLE | LOW, LOW | MEDIUM, MEDIUM | HIGH, HIGH => true
  | _, _ => false
  end.

Module ScanStats.
Record t := mk {
    total_blocks        : Z;
    suspicious_blocks   : Z;
    suspicious_pct      : R;
    wipe_density        : R;
    regions_count       : Z;
    avg_entropy_flagged : R;
    intent_score        : Z;
    verdict             : Verdict;
    wipe_type_counts    : list (WipeType * Z)
  }.
End ScanStats.

(** The [type_counts] dict, in insertion order. *)
Definition initial_type_counts : list (WipeType * Z) :=
  [(ZERO_WIPE, 0); (FF_WIPE, 0); (RANDOM_WIPE, 0); (MULTI_PASS, 0);
   (LIKELY_ZERO_WIPE, 0); (LIKELY_FF_WIPE, 0); (LOW_ENTROPY_SUSPECT, 0)]%Z.

(** [if k in d: d[k] += 1]. *)
Definition dict_incr (d : list (WipeType * Z)) (k : WipeType)
  : list (WipeType * Z) :=
  map (fun '(k', v) => if WipeType_eqb k k' then (k', v + 1)%Z else (k', v)) d.

(** [d.get(k, default)]. *)
Definition dict_get (d : list (WipeType * Z)) (k : WipeType) (default : Z) : Z :=
  match find (fun '(k', _) => WipeType_eqb k k') d with
  | Some (_, v) => v
  | None => default
  end.

Definition STRONG_WIPE_TYPES : list WipeType :=
  [ZERO_WIPE; FF_WIPE; RANDOM_WIPE; MULTI_PASS].
Definition PARTIAL_WIPE_TYPES : list WipeType :=
  [LIKELY_ZERO_WIPE; LIKELY_FF_WIPE; LOW_ENTROPY_SUSPECT].

(** Stage 1 of [compute_score]: the density fast-path verdict floor. *)
Definition density_verdict_of (wipe_density : R) (n_susp : Z) : Verdict :=
  if Rltb 0.30 wipe_density then HIGH
  else if Rltb 0.10 wipe_density then MEDIUM
  else if Rltb 0.02 wipe_density then LOW
  else if (2 <=? n_susp)%Z then LOW
  else NEGLIGIBLE.

(** Stage 4 of [compute_score]: the verdict of the intent score. *)
Definition score_verdict_of (intent_score : Z) : Verdict :=
  if (70 <=? intent_score)%Z then HIGH
  else if (35 <=? intent_score)%Z then MEDIUM
  else if (10 <=? intent_score)%Z then LOW
  else NEGLIGIBLE.

Definition verdict_order : list Verdict := [NEGLIGIBLE; LOW; MEDIUM; HIGH].

(** [list.index]: [ValueError] when absent. *)
Fixpoint py_list_index (l : list Verdict) (x : Verdict) : option Z :=
  match l with
  | [] => None
  | y :: t => if Verdict_eqb y x then Some 0%Z
              else i <- py_list_index t x ;; Some (i + 1)%Z
  end.

Definition _empty_stats : ScanStats.t :=
  ScanStats.mk 0 0 0.0 0.0 0 0.0 0 NEGLIGIBLE initial_type_counts.

Definition count_regions (t : WipeType) (regions : list Region.t) : Z :=
  zlen (filter (fun r => WipeType_eqb (Region.wipe_type r) t) regions).

Definition compute_score (blocks : list BlockResult.t)
  (regions : list Region.t) : option ScanStats.t :=
  let total := zlen blocks in
  if (total =? 0)%Z then Some _empty_stats else
  let suspicious := filter BlockResult.is_suspicious blocks in
  let n_susp := zlen suspicious in
  susp_frac <- py_div (IZR n_susp) total ;;
  let susp_pct := susp_frac * 100 in
  wipe_density <- py_div (IZR n_susp) total ;;
  avg_entropy_flagged <-
    (if (n_susp >? 0)%Z
     then py_div (Rsum (map BlockResult.entropy suspicious)) n_susp
     else Some 0.0) ;;
  let type_counts :=
    fold_left (fun d b => dict_incr d (BlockResult.wipe_type b))
      suspicious initial_type_counts in
  let density_verdict := density_verdict_of wipe_density n_susp in
  let coverage_score := Rmin (susp_pct / 10.0) 1.0 * 40 in
  let region_score := Rmin (IZR (zlen regions) / 10.0) 1.0 * 20 in
  let rand_score := Rmin (IZR (count_regions RANDOM_WIPE regions) / 3.0) 1.0
                    * 25 in
  let multi_score := Rmin (IZR (count_regions MULTI_PASS regions) / 2.0) 1.0
                     * 15 in
  let raw_score := coverage_score + region_score + rand_score + multi_score in
  let strong_count :=
    fold_right Z.add 0%Z
      (map (fun t => dict_get type_counts t 0) STRONG_WIPE_TYPES) in
  let partial_count :=
    fold_right Z.add 0%Z
      (map (fun t => dict_get type_counts t 0) PARTIAL_WIPE_TYPES) in
  let raw_score :=
    if (n_susp >? 0)%Z && (partial_count >? strong_count)%Z
       && (strong_count <? 10)%Z
    then raw_score - 10 else raw_score in
  raw_score <-
    (match regions with
     | [] => Some raw_score
     | _ => avg_conf <- py_div (Rsum (map Region.confidence regions))
                               (zlen regions) ;;
            Some (if Rltb avg_conf 0.55 then raw_score - 5 else raw_score)
     end) ;;
  let intent_score := Z.min (Z.max (round_half_even raw_score) 0) 100 in
  let score_verdict := score_verdict_of intent_score in
  i_score <- py_list_index verdict_order score_verdict ;;
  i_density <- py_list_index verdict_order density_verdict ;;
  final_verdict <- py_index verdict_order (Z.max i_score i_density) ;;
  Some (ScanStats.mk total n_susp susp_pct wipe_density (zlen regions)
          avg_entropy_flagged intent_score final_verdict type_counts).

(* ------------------------------------------------------------------ *)
(** ** Orchestrator ([scanner.py]) *)

(** [type_counts[k] = type_counts.get(k, 0) + 1], keys in insertion order. *)
Fixpoint dict_add (d : list (WipeType * Z)) (k : WipeType)
  : list (WipeType * Z) :=
  match d with
  | [] => [(k, 1%Z)]
  | (k', v) :: t => if WipeType_eqb k k' then (k', v + 1)%Z :: t
                    else (k', v) :: dict_add t k
  end.

(** [max(d, key=d.__getitem__)]: the first key of maximal count;
    [ValueError] on an empty dict. *)
Definition py_max_key (d : list (WipeType * Z)) : option WipeType :=
  match d with
  | [] => None
  | (k0, v0) :: t =>
      Some (fst (fold_left (fun '(bk, bv) '(k, v) =>
                              if (bv <? v)%Z then (k, v) else (bk, bv))
                           t (k0, v0)))
  end.

(** [FallbackRegion] has the fields of [Region] and [blocks = []]. *)
Definition _flush (block_size : Z) (run : list BlockResult.t) (region_id : Z)
  : option (list Region.t) :=
  match run with
  | [] => Some []
  | first :: _ =>
    let type_counts :=
      fold_left (fun d b => dict_add d (BlockResult.wipe_type b)) run [] in
    dominant_type <- py_max_key type_counts ;;
    avg_entropy <- py_div (Rsum (map BlockResult.entropy run)) (zlen run) ;;
    avg_confidence <- py_div (Rsum (map BlockResult.confidence run)) (zlen run) ;;
    let start_offset := BlockResult.offset first in
    let end_offset := (BlockResult.offset (last run first) + block_size)%Z in
    Some [Region.mk region_id start_offset end_offset
            (end_offset - start_offset)%Z dominant_type (zlen run)
            (py_round avg_entropy 4) (py_round avg_confidence 4) []]
  end.

Fixpoint fallback_loop (block_size : Z) (l : list BlockResult.t)
  (run_blocks : list BlockResult.t) (region_id : Z) : option (list Region.t) :=
  match l with
  | [] => _flush block_size run_blocks region_id
  | blk :: t =>
      if BlockResult.is_suspicious blk then
        fallback_loop block_size t (run_blocks ++ [blk]) region_id
      else
        rs1 <- _flush block_size run_blocks region_id ;;
        rs2 <- fallback_loop block_size t [] (region_id + zlen rs1)%Z ;;
        Some (rs1 ++ rs2)
  end.

Definition _fallback_aggregate (block_results : list BlockResult.t)
  : option (list Region.t) :=
  let block_size :=
    match block_results with
    | b0 :: b1 :: _ =>
        let bs := (BlockResult.offset b1 - BlockResult.offset b0)%Z in
        if (bs <=? 0)%Z then 512%Z else bs
    | _ => 512%Z
    end in
  fallback_loop block_size block_results [] 0.

(** Phases 2 and 3 of [run_scan]: aggregation with its fallback, then
    scoring. *)
Definition run_scan_core (block_results : list BlockResult.t)
  : option (list Region.t * ScanStats.t) :=
  regions <- aggregate block_results ;;
  let n_suspicious := zlen (filter BlockResult.is_suspicious block_results) in
  regions <- (if (zlen regions =? 0)%Z && (n_suspicious >? 0)%Z
              then _fallback_aggregate block_results
              else Some regions) ;;
  stats <- compute_score block_results regions ;;
  Some (regions, stats).

(** Phase 1: classify every block [(id, offset, data)] of the reader. *)
Fixpoint classify_all (numpy_available : bool)
  (blocks : list (Z * Z * list Byte.byte)) : option (list BlockResult.t) :=
  match blocks with
  | [] => Some []
  | (i, off, data) :: t =>
      r <- classify_block numpy_available i off data ;;
      rs <- classify_all numpy_available t ;;
      Some (r :: rs)
  end.

Definition run_scan (numpy_available : bool)
  (blocks : list (Z * Z * list Byte.byte))
  : option (list Region.t * ScanStats.t) :=
  block_results <- classify_all numpy_available blocks ;;
  run_scan_core block_results.

(* ================================================================== *)
(** * Specification-side definitions *)

(** The labels the data model calls suspicious. *)
Definition spec_suspicious_label (t : WipeType) : bool :=
  match t with
  | ZERO_WIPE | FF_WIPE | RANDOM_WIPE | MULTI_PASS
  | LIKELY_ZERO_WIPE | LIKELY_FF_WIPE | LOW_ENTROPY_SUSPECT => true
  | UNALLOCATED | NORMAL => false
  end.

(** A real that is a multiple of [1/1000], i.e. rounded to 3 places. *)
Definition rounded3 (c : R) : Prop := exists z : Z, c = IZR z / 1000.

(** The verdict ordering NEGLIGIBLE < LOW < MEDIUM < HIGH, and the larger
    of two verdicts on it. *)
Definition verdict_rank (v : Verdict) : Z :=
  match v with NEGLIGIBLE => 0 | LOW => 1 | MEDIUM => 2 | HIGH => 3 end%Z.

Definition verdict_max (a b : Verdict) : Verdict :=
  if (verdict_rank a <=? verdict_rank b)%Z then b else a.

(** A region whose member list is non-empty and holds no negative block
    index. *)
Definition region_ids_ok (r : Region.t) : Prop :=
  Region.blocks r <> [] /\ Forall (Z.le 0) (Region.blocks r).

(** The spec's reading of a fused region's [avg_entropy]: the mean
    classifier entropy over the member block indices that are in range of
    the classifier output. *)
Definition default_block : BlockResult.t :=
  _result 0 0 NORMAL 0.0 0.0 0 0.0 false 0.0 0.0.

Definition entropies_at (all_blocks : list BlockResult.t) (ids : list Z)
  : list R :=
  map (fun bid => BlockResult.entropy (nth (Z.to_nat bid) all_blocks default_block))
    (filter (fun bid => (0 <=? bid)%Z && (bid <? zlen all_blocks)%Z) ids).

Definition mean_entropy_over (all_blocks : list BlockResult.t) (ids : list Z) : R :=
  match entropies_at all_blocks ids with
  | [] => 0.0
  | es => Rsum es / INR (length es)
  end.

(** A region of at least [MIN_REGION_BLOCKS] blocks; a non-suspicious
    block; a suspicious block of label [wt]. *)
Definition min_size_ok (r : Region.t) : Prop :=
  (MIN_REGION_BLOCKS <= Region.block_count r)%Z.

Definition not_susp (b : BlockResult.t) : bool := negb (BlockResult.is_suspicious b).

Definition susp_of (wt : WipeType) (b : BlockResult.t) : bool :=
  BlockResult.is_suspicious b && WipeType_eqb (BlockResult.wipe_type b) wt.

(** A region as [_merge_consecutive] lays it out: a non-empty, strictly
    increasing member list whose first and last indices give the offsets. *)
Definition region_shape_ok (r : Region.t) : Prop :=
  Region.blocks r <> [] /\ StronglySorted Z.lt (Region.blocks r) /\
  Region.start_offset r = (hd 0 (Region.blocks r) * BLOCK_SIZE)%Z /\
  Region.end_offset r = (last (Region.blocks r) 0 * BLOCK_SIZE + BLOCK_SIZE - 1)%Z.

(** Every member of [r1] is below every member of [r2]. *)
Definition blocks_before (r1 r2 : Region.t) : Prop :=
  Forall (fun x => Forall (Z.lt x) (Region.blocks r2)) (Region.blocks r1).

(** Well-shaped regions whose member lists follow each other. *)
Definition regions_ordered (rs : list Region.t) : Prop :=
  Forall region_shape_ok rs /\ StronglySorted blocks_before rs.

(** The same, with the member lists of all regions concatenated. *)
Definition blocks_ok (rs : list Region.t) : Prop :=
  Forall region_shape_ok rs /\ StronglySorted Z.lt (flat_map Region.blocks rs).

(** A list of indices, each below the next. *)
Fixpoint lt_chain (l : list Z) : bool :=
  match l with
  | x :: ((y :: _) as t) => (x <? y)%Z && lt_chain t
  | _ => true
  end.

(* ================================================================== *)
(** * Sample inputs *)

(** A classified block of the reader's numbering: offset [id * 512],
    confidence 1, dominant byte 0 at 100%. *)
Definition mkb (block_id : Z) (wt : WipeType) (susp : bool) (e : R)
  : BlockResult.t :=
  _result block_id (block_id * 512) wt e 1.0 0 1.0 susp 0.0 0.0.

(** [n] blocks of one label, numbered from [start]. *)
Definition run_of (start : Z) (n : nat) (wt : WipeType) (susp : bool) (e : R)
  : list BlockResult.t :=
  map (fun k => mkb (start + Z.of_nat k) wt susp e) (seq 0 n).

(** The part of a region the idempotence property compares: offsets,
    label and member block indices. *)
Definition region_sig (r : Region.t) : Z * Z * WipeType * list Z :=
  (Region.start_offset r, Region.end_offset r, Region.wipe_type r, Region.blocks r).

(** Regions re-expressed as a flat stream: every member block index, in
    region order, as a suspicious block of its region's label. *)
Definition synthetic_stream (regions : list Region.t) : list BlockResult.t :=
  flat_map (fun r => map (fun bid => mkb bid (Region.wipe_type r) true 0)
                         (Region.blocks r)) regions.

(** The same, as a dense stream of indices [0 .. n-1]: members carry
    their region's label, the other indices are non-suspicious NORMAL. *)
Definition synthetic_dense (n : nat) (regions : list Region.t) : list BlockResult.t :=
  map (fun k =>
         let bid := Z.of_nat k in
         match find (fun r => existsb (Z.eqb bid) (Region.blocks r)) regions with
         | Some r => mkb bid (Region.wipe_type r) true 0
         | None => mkb bid NORMAL false 0
         end) (seq 0 n).

(** Two ZERO_WIPE blocks of entropy 0 around a NORMAL block of entropy 3. *)
Definition absorb_sample : list BlockResult.t :=
  [mkb 0 ZERO_WIPE true 0; mkb 1 NORMAL false 3; mkb 2 ZERO_WIPE true 0].

(** The two one-block regions [_merge_consecutive] builds from it. *)
Definition absorb_prev : Region.t :=
  Region.mk 0 0 511 512 ZERO_WIPE 1 0 0.0 [0%Z].
Definition absorb_curr : Region.t :=
  Region.mk 1 1024 1535 512 ZERO_WIPE 1 0 0.0 [2%Z].

(** A scan of 40 LIKELY_ZERO_WIPE blocks and nothing else. *)
Definition partial_scan : list BlockResult.t :=
  run_of 0 40 LIKELY_ZERO_WIPE true 4.

(** A 512-byte block of 510 bytes [0xFF] and 2 bytes [0x00]. *)
Definition ff_block : list Byte.byte := repeat Byte.xff 510 ++ repeat Byte.x00 2.

(** A 2009-byte block of 1808 zero bytes and 201 bytes [0x01]. *)
Definition c10_block : list Byte.byte :=
  repeat Byte.x00 1808 ++ repeat Byte.x01 201.

(** Two runs of 16 ZERO_WIPE blocks around one LIKELY_ZERO_WIPE block. *)
Definition split_scan : list BlockResult.t :=
  run_of 0 16 ZERO_WIPE true 0 ++ [mkb 16 LIKELY_ZERO_WIPE true 0]
  ++ run_of 17 16 ZERO_WIPE true 0.

(* ------------------------------------------------------------------ *)
(** ** engine/reader.py: the block reader *)

Definition READ_CHUNK_BLOCKS : Z := 1024.

Module Block.
Record t := mk {
    id     : Z;
    offset : Z;
    data   : list Byte.byte
  }.
End Block.

(** The reader after [__init__]: the image bytes stand for the file. *)
Module BlockReader.
Record t := mk {
    image        : list Byte.byte;
    block_size   : Z;
    start_block  : Z;
    end_block    : option Z;
    image_size   : Z;
    total_blocks : Z
  }.
End BlockReader.

(** [a // b]: [ZeroDivisionError] at 0; [Z.div] floors like Python. *)
Definition py_floordiv (a b : Z) : option Z :=
  if (b =? 0)%Z then None else Some (a / b)%Z.

Definition BlockReader_init (image : list Byte.byte) (block_size start_block : Z)
  (end_block : option Z) : option BlockReader.t :=
  let image_size := zlen image in
  total_blocks <- py_floordiv (image_size + block_size - 1) block_size ;;
  Some (BlockReader.mk image block_size start_block end_block image_size
          total_blocks).

(** [f.read(n)] on a buffered binary file at position [pos]: at most [n]
    bytes for [n >= 0], everything up to EOF for [n = -1], and
    [ValueError] for [n < -1]; the position moves past the bytes read. *)
Definition f_read (image : list Byte.byte) (pos : nat) (n : Z)
  : option (list Byte.byte * nat) :=
  if (n <? -1)%Z then None
  else
    let rest := skipn pos image in
    let chunk := if (n =? -1)%Z then rest else firstn (Z.to_nat n) rest in
    Some (chunk, (pos + length chunk)%nat).

(** [range(a, b, step)]: [ValueError] for a zero step. *)
Definition py_range (a b step : Z) : option (list Z) :=
  if (step =? 0)%Z then None
  else
    let count :=
      (if (0 <? step) then (if (b <=? a) then 0 else (b - a + step - 1) / step)
       else (if (a <=? b) then 0 else (a - b - step - 1) / (- step)))%Z in
    Some (map (fun k => a + Z.of_nat k * step)%Z (seq 0 (Z.to_nat count))).

(** [l[i:j]] for integer bounds. *)
Definition py_slice {A} (l : list A) (i j : Z) : list A :=
  let n := zlen l in
  let norm k := if (k <? 0)%Z then Z.max 0 (k + n) else Z.min k n in
  firstn (Z.to_nat (norm j - norm i)) (skipn (Z.to_nat (norm i)) l).

Definition past_end (end_block : option Z) (block_id : Z) : bool :=
  match end_block with Some e => (e <? block_id)%Z | None => false end.

(** The inner [for i in range(0, len(chunk), block_size)] loop: the blocks
    it yields and the [block_id] it leaves. *)
Fixpoint iter_chunk (block_size : Z) (end_block : option Z)
  (chunk : list Byte.byte) (idxs : list Z) (block_id : Z)
  : Z * list Block.t :=
  match idxs with
  | [] => (block_id, [])
  | i :: t =>
      if past_end end_block block_id then (block_id, [])
      else
        let data := py_slice chunk i (i + block_size) in
        match data with
        | [] => (block_id, [])
        | _ =>
            let '(bid, ys) :=
              iter_chunk block_size end_block chunk t (block_id + 1) in
            (bid, Block.mk block_id (block_id * block_size) data :: ys)
        end
  end.

(** The outer [while True] loop, one chunk per unit of fuel. *)
Fixpoint iter_loop (fuel : nat) (r : BlockReader.t) (pos : nat) (block_id : Z)
  : option (list Block.t) :=
  match fuel with
  | O => None
  | S fuel' =>
      if past_end (BlockReader.end_block r) block_id then Some []
      else
        let chunk_size := (READ_CHUNK_BLOCKS * BlockReader.block_size r)%Z in
        rd <- f_read (BlockReader.image r) pos chunk_size ;;
        let '(chunk, pos') := rd in
        match chunk with
        | [] => Some []
        | _ =>
            idxs <- py_range 0 (zlen chunk) (BlockReader.block_size r) ;;
            let '(bid, ys) :=
              iter_chunk (BlockReader.block_size r) (BlockReader.end_block r)
                chunk idxs block_id in
            rest <- iter_loop fuel' r pos' bid ;;
            Some (ys ++ rest)
      end
  end.

(** [__iter__], run to exhaustion.  Every pass of the outer loop reads at
    least one byte or stops, so [length image + 2] passes suffice. *)
Definition BlockReader_iter (r : BlockReader.t) : option (list Block.t) :=
  let byte_offset := (BlockReader.start_block r * BlockReader.block_size r)%Z in
  let pos := if (0 <? byte_offset)%Z then Z.to_nat byte_offset else 0%nat in
  iter_loop (length (BlockReader.image r) + 2) r pos (BlockReader.start_block r).

(** [read_block]: [IndexError] past the end; [f.seek] raises on a negative
    offset, and [f.read] on a block size below [-1]. *)
Definition BlockReader_read_block (r : BlockReader.t) (block_id : Z)
  : option Block.t :=
  let offset := (block_id * BlockReader.block_size r)%Z in
  if (BlockReader.image_size r <=? offset)%Z then None
  else if (offset <? 0)%Z then None
  else
    rd <- f_read (BlockReader.image r) (Z.to_nat offset) (BlockReader.block_size r) ;;
    let '(data, _) := rd in
    Some (Block.mk block_id offset data).

(* ------------------------------------------------------------------ *)
(** ** The scan of an image: reader, then the three phases *)

(** [run_scan] on an image: [BlockReader(image_path)] with its defaults,
    each streamed block classified. *)
Definition scan_image (numpy_available : bool) (image : list Byte.byte)
  : option (list Region.t * ScanStats.t) :=
  reader <- BlockReader_init image BLOCK_SIZE 0 None ;;
  blocks <- BlockReader_iter reader ;;
  run_scan numpy_available
    (map (fun b => (Block.id b, Block.offset b, Block.data b)) blocks).

(* ------------------------------------------------------------------ *)
(** ** Specification-side definitions of the further properties *)

(** Sum of a list of integers. *)
Definition zsum (l : list Z) : Z := fold_right Z.add 0%Z l.

(** A byte in [0x20 .. 0x7E]. *)
Definition printable_byte (b : Byte.byte) : bool :=
  (0x20 <=? byte_val b)%Z && (byte_val b <=? 0x7E)%Z.

Definition has_printable_run (data : list Byte.byte) : Prop :=
  exists i, (i + 64 <= length data)%nat /\
            Forall (fun b => printable_byte b = true) (firstn 64 (skipn i data)).

(** ** Region bookkeeping: size and block count *)
Definition region_counts_ok (r : Region.t) : Prop :=
  Region.size r = (Region.end_offset r - Region.start_offset r + 1)%Z /\
  Region.block_count r = zlen (Region.blocks r).

(** The blocks of [rest], cut every [bs] bytes and numbered from [start]. *)
Definition expected_blocks (bs start : Z) (rest : list Byte.byte) : list Block.t :=
  let n := Z.to_nat bs in
  map (fun k => Block.mk (start + Z.of_nat k) ((start + Z.of_nat k) * bs)
                  (firstn n (skipn (k * n) rest)))
    (seq 0 ((length rest + n - 1) / n)).

(** The blocks [__iter__] yields before passing [end_block]. *)
Definition keep_block (end_block : option Z) (b : Block.t) : bool :=
  negb (past_end end_block (Block.id b)).

(** A five-byte image. *)
Definition sample_image : list Byte.byte :=
  [Byte.x41; Byte.x42; Byte.x43; Byte.x44; Byte.x45].

(** Two blocks of eight zero bytes. *)
Definition sample_blocks : list (Z * Z * list Byte.byte) :=
  [(0, 0, repeat Byte.x00 8); (1, 8, repeat Byte.x00 8)]%Z.

(* ================================================================== *)
(** * Generic lemmas *)

Lemma Rleb_true (x y : R) : Rleb x y = true <-> x <= y.
Proof. unfold Rleb; destruct (Rle_dec x y); split; intros; auto; discriminate || contradiction. Qed.

Lemma Rleb_false (x y : R) : Rleb x y = false <-> y < x.
Proof.
  unfold Rleb; destruct (Rle_dec x y); split; intros; try discriminate; auto.
  - lra.
  - now apply Rnot_le_lt.
Qed.

Lemma Rltb_true (x y : R) : Rltb x y = true <-> x < y.
Proof. unfold Rltb; destruct (Rlt_dec x y); split; intros; auto; discriminate || contradiction. Qed.

Lemma Rltb_false (x y : R) : Rltb x y = false <-> y <= x.
Proof.
  unfold Rltb; destruct (Rlt_dec x y); split; intros; try discriminate; auto.
  - lra.
  - now apply Rnot_lt_le.
Qed.

Ltac rbool :=
  repeat match goal with
  | H : Rleb _ _ = true |- _ => apply Rleb_true in H
  | H : Rleb _ _ = false |- _ => apply Rleb_false in H
  | H : Rltb _ _ = true |- _ => apply Rltb_true in H
  | H : Rltb _ _ = false |- _ => apply Rltb_false in H
  end.

Lemma round_half_even_close (y : R) :
  IZR (round_half_even y) - 1/2 <= y <= IZR (round_half_even y) + 1/2.
Proof.
  unfold round_half_even.
  destruct (base_Int_part y) as [H1 H2].
  set (f := Int_part y) in *.
  destruct (Rltb (y - IZR f) (1/2)) eqn:E1; rbool.
  - lra.
  - destruct (Rltb (1/2) (y - IZR f)) eqn:E2; rbool.
    + rewrite plus_IZR; lra.
    + destruct (Z.even f); [|rewrite plus_IZR]; lra.
Qed.

Lemma py_round_spec (x : R) (k : nat) :
  exists z : Z, py_round x k = IZR z / 10 ^ k
    /\ IZR z - 1/2 <= x * 10 ^ k <= IZR z + 1/2.
Proof.
  exists (round_half_even (x * 10 ^ k)); split; [reflexivity|].
  apply round_half_even_close.
Qed.

(** An integer within half a unit of [[lo, hi]] lies in it. *)
Lemma IZR_half_le (z l : Z) : IZR l - 1/2 <= IZR z -> (l <= z)%Z.
Proof.
  intros H. destruct (Z_le_gt_dec l z) as [|Hgt]; [assumption|].
  assert (IZR z <= IZR l - 1) by (rewrite <- minus_IZR; apply IZR_le; lia).
  lra.
Qed.

Lemma IZR_le_half (z h : Z) : IZR z <= IZR h + 1/2 -> (z <= h)%Z.
Proof.
  intros H. destruct (Z_le_gt_dec z h) as [|Hgt]; [assumption|].
  assert (IZR h + 1 <= IZR z) by (rewrite <- plus_IZR; apply IZR_le; lia).
  lra.
Qed.

(** Rounding to 3 places keeps a value inside [[lo/1000, hi/1000]]. *)
Lemma py_round3_between (x : R) (lo hi : Z) :
  IZR lo / 1000 <= x <= IZR hi / 1000 ->
  rounded3 (py_round x 3) /\ IZR lo / 1000 <= py_round x 3 <= IZR hi / 1000.
Proof.
  intros [Hlo Hhi].
  destruct (py_round_spec x 3) as [z [Hz Hb]].
  replace (10 ^ 3) with 1000 in * by (simpl; lra).
  split; [exists z; exact Hz|].
  assert (IZR lo <= x * 1000) by (unfold Rdiv in Hlo; nra).
  assert (x * 1000 <= IZR hi) by (unfold Rdiv in Hhi; nra).
  assert (Hl : (lo <= z)%Z) by (apply IZR_half_le; lra).
  assert (Hh : (z <= hi)%Z) by (apply IZR_le_half; lra).
  apply IZR_le in Hl; apply IZR_le in Hh.
  rewrite Hz; split; unfold Rdiv; apply Rmult_le_compat_r; lra.
Qed.

(* ------------------------------------------------------------------ *)
(** ** The classifier never raises *)

Lemma incr_nth_length (l : list Z) (i : nat) : length (incr_nth l i) = length l.
Proof. revert i; induction l; intros [|i]; simpl; auto. Qed.

Lemma incr_nth_nonneg (l : list Z) (i : nat) :
  Forall (Z.le 0) l -> Forall (Z.le 0) (incr_nth l i).
Proof.
  revert i; induction l as [|c t IH]; intros [|i] H; simpl; auto;
    inversion H; subst; constructor; auto; lia.
Qed.

Lemma raw_counts_inv (data : list Byte.byte) :
  length (raw_counts data) = 256%nat /\ Forall (Z.le 0) (raw_counts data).
Proof.
  unfold raw_counts.
  assert (Hgen : forall acc, length acc = 256%nat -> Forall (Z.le 0) acc ->
    length (fold_left (fun acc b => incr_nth acc (Byte.to_nat b)) data acc)
      = 256%nat /\
    Forall (Z.le 0)
      (fold_left (fun acc b => incr_nth acc (Byte.to_nat b)) data acc)).
  { induction data as [|b t IH]; intros acc Hl Hn; simpl; auto.
    apply IH; [rewrite incr_nth_length; auto | apply incr_nth_nonneg; auto]. }
  apply Hgen; [reflexivity|].
  apply Forall_forall; intros x Hx; apply repeat_spec in Hx; lia.
Qed.

Lemma py_div_nz (a : R) (n : Z) : n <> 0%Z -> py_div a n = Some (a / IZR n).
Proof. intros H; unfold py_div; destruct (Z.eqb_spec n 0); congruence. Qed.

Lemma freq_of_eq (counts : list Z) (n : Z) : n <> 0%Z ->
  freq_of counts n = Some (map (fun c => IZR c / IZR n) counts).
Proof.
  intros Hn; induction counts as [|c t IH]; simpl; auto.
  rewrite py_div_nz by auto; simpl; rewrite IH; reflexivity.
Qed.

Lemma plogp_sum_some (counts : list Z) (n : Z) :
  (0 < n)%Z -> Forall (Z.le 0) counts ->
  exists s, plogp_sum counts n = Some s.
Proof.
  intros Hn; induction counts as [|c t IH]; intros Hc; simpl; eauto.
  inversion Hc; subst.
  destruct (IH H2) as [s Hs]; rewrite Hs; simpl.
  destruct (Z.eqb_spec c 0); eauto.
  rewrite py_div_nz by lia; simpl.
  unfold py_log2.
  assert (Hp : 0 < IZR c / IZR n).
  { apply Rdiv_lt_0_compat; apply IZR_lt; lia. }
  destruct (Rltb 0 (IZR c / IZR n)) eqn:E; rbool; [simpl; eauto | lra].
Qed.

Lemma argmax_aux_lt (l : list Z) (i bi : nat) (bv : Z) :
  (bi < i)%nat -> (argmax_aux l i bi bv < i + length l)%nat.
Proof.
  revert i bi bv; induction l as [|c t IH]; intros i bi bv H; simpl; [lia|].
  destruct (bv <? c)%Z.
  - specialize (IH (S i) i c ltac:(lia)); lia.
  - specialize (IH (S i) bi bv ltac:(lia)); lia.
Qed.

Lemma argmax_lt (l : list Z) : l <> [] -> (argmax l < length l)%nat.
Proof.
  destruct l as [|c t]; [congruence|]; intros _; simpl.
  pose proof (argmax_aux_lt t 1 0 c ltac:(lia)); lia.
Qed.

Lemma py_index_nat {A} (l : list A) (k : nat) (d : A) : (k < length l)%nat ->
  py_index l (Z.of_nat k) = Some (nth k l d).
Proof.
  intros H; unfold py_index.
  replace ((0 <=? Z.of_nat k)%Z && (Z.of_nat k <? Z.of_nat (length l))%Z)
    with true by (symmetry; apply andb_true_iff; split; [apply Z.leb_le|apply Z.ltb_lt]; lia).
  rewrite Nat2Z.id. apply nth_error_nth'; auto.
Qed.

Lemma Rsum_sq_nonneg (l : list R) (m : R) :
  0 <= Rsum (map (fun f => (f - m) ^ 2) l).
Proof.
  induction l as [|a t IH]; cbn [map Rsum]; [lra|].
  pose proof (pow2_ge_0 (a - m)); lra.
Qed.

Lemma distribution_uniformity_eq (freq : list R) :
  distribution_uniformity freq
  = Some (sqrt (Rsum (map (fun f => (f - 1/256) ^ 2) freq) / 256)).
Proof.
  unfold distribution_uniformity, py_sqrt.
  destruct (Rleb 0 _) eqn:E; rbool; [reflexivity|].
  pose proof (Rsum_sq_nonneg freq (1/256)); lra.
Qed.

Lemma shannon_entropy_some (data : list Byte.byte) :
  exists h, shannon_entropy data = Some h.
Proof.
  unfold shannon_entropy.
  destruct data as [|b t]; eauto.
  destruct (raw_counts_inv (b :: t)) as [_ Hn].
  destruct (plogp_sum_some (raw_counts (b :: t)) (Z.of_nat (length (b :: t))))
    as [s Hs]; [simpl; lia | auto |].
  rewrite Hs; simpl; eauto.
Qed.

(** The statistics of a non-empty block, written out. *)
Lemma stats_eq (numpy_available : bool) (data : list Byte.byte) :
  data <> [] ->
  let n := Z.of_nat (length data) in
  let counts := raw_counts data in
  exists s,
    plogp_sum counts n = Some s /\
    _stats_from_data numpy_available data =
    Some (if numpy_available then
            (- s, map (fun c => IZR c / IZR n) counts,
             IZR (nth 0 counts 0%Z) / IZR n, IZR (nth 255 counts 0%Z) / IZR n,
             Z.of_nat (argmax counts),
             IZR (nth (argmax counts) counts 0%Z) / IZR n)
          else
            (py_round (- s) 6, map (fun c => IZR c / IZR n) counts,
             py_round (IZR (nth 0 counts 0%Z) / IZR n) 4,
             py_round (IZR (nth 255 counts 0%Z) / IZR n) 4,
             Z.of_nat (argmax counts),
             IZR (nth (argmax counts) counts 0%Z) / IZR n)).
Proof.
  intros Hne n counts.
  assert (Hn : (0 < n)%Z) by (subst n; destruct data; [congruence|simpl; lia]).
  destruct (raw_counts_inv data) as [Hlen Hnn].
  destruct (plogp_sum_some counts n Hn Hnn) as [s Hs].
  exists s; split; [exact Hs|].
  unfold _stats_from_data; fold n counts.
  rewrite freq_of_eq by lia; simpl.
  rewrite Hs; simpl.
  rewrite !py_div_nz by lia; simpl.
  assert (Ha : Nat.lt (argmax counts)
                (length (map (fun c => IZR c / IZR n) counts))).
  { rewrite length_map; apply argmax_lt; intros E; subst counts;
    rewrite E in Hlen; discriminate. }
  rewrite (py_index_nat _ _ (IZR 0 / IZR n) Ha); simpl.
  rewrite (map_nth (fun c => IZR c / IZR n)).
  destruct numpy_available; reflexivity.
Qed.

(** Unfolds one layer of the classifier's decision tree. *)
Ltac classify_step :=
  first
    [ progress cbn [obind]
    | rewrite distribution_uniformity_eq
    | match goal with
      | |- context [shannon_entropy ?d] =>
          let h := fresh "h" in let Hh := fresh "Hh" in
          destruct (shannon_entropy_some d) as [h Hh]; rewrite Hh
      | |- context [if ?b then _ else _] => destruct b
      end ].

Ltac classify_finish :=
  match goal with
  | |- context [Some (_result _ _ ?w _ _ _ _ _ _ _)] =>
      exists w; do 6 eexists; reflexivity
  end.

(** Every non-empty block is classified through [_result] from the
    statistics of [stats_eq]. *)
Lemma classify_block_shape (numpy_available : bool) (block_id offset : Z)
  (data : list Byte.byte) :
  exists wt e conf db dp zr fr,
    classify_block numpy_available block_id offset data
    = Some (_result block_id offset wt e conf db dp
              (spec_suspicious_label wt) zr fr).
Proof.
  destruct data as [|b t].
  - simpl; classify_finish.
  - unfold classify_block.
    destruct (stats_eq numpy_available (b :: t)) as [s [_ Hst]];
      [discriminate|].
    rewrite Hst; clear Hst.
    destruct numpy_available; cbn [obind];
      repeat classify_step; classify_finish.
Qed.

(** C2: for every block id, offset and byte sequence, [classify_block]
    returns a result whose [is_suspicious] flag is true exactly when its
    label is one of ZERO_WIPE, FF_WIPE, RANDOM_WIPE, MULTI_PASS,
    LIKELY_ZERO_WIPE, LIKELY_FF_WIPE, LOW_ENTROPY_SUSPECT, and false for
    NORMAL and UNALLOCATED. *)
Theorem classify_block_suspicious_iff (numpy_available : bool)
  (block_id offset : Z) (data : list Byte.byte) :
  exists r,
    classify_block numpy_available block_id offset data = Some r /\
    BlockResult.is_suspicious r = spec_suspicious_label (BlockResult.wipe_type r) /\
    (BlockResult.wipe_type r = NORMAL \/ BlockResult.wipe_type r = UNALLOCATED ->
     BlockResult.is_suspicious r = false).
Proof.
  destruct (classify_block_shape numpy_available block_id offset data)
    as (wt & e & conf & db & dp & zr & fr & ->).
  eexists; split; [reflexivity|]; simpl; split; [reflexivity|].
  intros [-> | ->]; reflexivity.
Qed.

(* ------------------------------------------------------------------ *)
(** ** Confidences of the classifier *)

Lemma fill_conf_ok (d e : R) :
  ZERO_FF_STRONG_MIN <= d ->
  rounded3 (_fill_conf d e) /\ 0.55 <= _fill_conf d e <= 1.
Proof.
  unfold _fill_conf, ZERO_FF_STRONG_MIN; intros Hd.
  assert (E : (d - 0.90) / (1.0 - 0.90) = (d - 0.90) * 10) by lra.
  rewrite E.
  assert (Hm : Rmin (e / 0.5) 1.0 <= 1.0) by apply Rmin_r.
  destruct (py_round3_between
              (Rmin (0.55 + (d - 0.90) * 10 * 0.28 + (1.0 - Rmin (e / 0.5) 1.0) * 0.17) 1.0)
              550 1000) as [H1 H2].
  - split.
    + apply Rmin_glb; lra.
    + pose proof (Rmin_r (0.55 + (d - 0.90) * 10 * 0.28 + (1.0 - Rmin (e / 0.5) 1.0) * 0.17) 1.0); lra.
  - split; [exact H1|lra].
Qed.

Lemma partial_conf_ok (d : R) :
  ZERO_FF_PARTIAL_MIN <= d < ZERO_FF_STRONG_MIN ->
  rounded3 (_partial_conf d) /\ 0.40 <= _partial_conf d <= 0.72.
Proof.
  unfold _partial_conf, ZERO_FF_PARTIAL_MIN, ZERO_FF_STRONG_MIN; intros Hd.
  assert (E : (d - 0.60) / (0.90 - 0.60) = (d - 0.60) * (10 / 3)) by lra.
  rewrite E.
  destruct (py_round3_between (0.40 + (d - 0.60) * (10 / 3) * 0.32) 400 720)
    as [H1 H2]; [split; lra|].
  split; [exact H1|lra].
Qed.

Lemma random_conf_ok (e u : R) :
  ENTROPY_RANDOM_MIN <= e ->
  rounded3 (_random_conf e u) /\ 0.58 <= _random_conf e u <= 0.92.
Proof.
  unfold _random_conf, ENTROPY_RANDOM_MIN, UNIFORMITY_WIPE_MAX; intros He.
  assert (E : (e - 7.60) / (8.0 - 7.60) = (e - 7.60) * (5 / 2)) by lra.
  rewrite E.
  assert (Hm : Rmin (u / 0.0140) 1.0 <= 1.0) by apply Rmin_r.
  set (raw := 0.58 + (e - 7.60) * (5 / 2) * 0.22 + (1.0 - Rmin (u / 0.0140) 1.0) * 0.12).
  destruct (py_round3_between (Rmin raw 0.92) 580 920) as [H1 H2].
  - split.
    + apply Rmin_glb; unfold raw; lra.
    + pose proof (Rmin_r raw 0.92); lra.
  - split; [exact H1|lra].
Qed.

Lemma rounded3_const (z : Z) (c : R) : c = IZR z / 1000 -> rounded3 c.
Proof. intros ->; exists z; reflexivity. Qed.

Ltac classify_step_eq :=
  first
    [ progress cbn [obind]
    | rewrite distribution_uniformity_eq
    | match goal with
      | |- context [shannon_entropy ?d] =>
          let h := fresh "h" in let Hh := fresh "Hh" in
          destruct (shannon_entropy_some d) as [h Hh]; rewrite Hh
      | |- context [if ?b then _ else _] => let E := fresh "E" in destruct b eqn:E
      end ].

Ltac split_conds :=
  repeat match goal with
  | H : (_ && _) = true |- _ => apply andb_true_iff in H; destruct H
  end; rbool.

Ltac rounded3_lit :=
  match goal with
  | |- rounded3 ?c =>
      first [ apply (rounded3_const 820); lra | apply (rounded3_const 720); lra
            | apply (rounded3_const 870); lra | apply (rounded3_const 520); lra
            | apply (rounded3_const 480); lra | apply (rounded3_const 900); lra
            | apply (rounded3_const 1000); lra ]
  end.

Ltac conf_leaf :=
  eexists; split; [reflexivity|]; unfold _result;
  cbn [BlockResult.confidence BlockResult.wipe_type]; split_conds;
  match goal with
  | |- context [_fill_conf ?d ?e * 0.96] =>
      let Hr := fresh "Hr" in let Hb := fresh "Hb" in
      destruct (fill_conf_ok d e) as [Hr Hb]; [assumption|];
      split; [lra|]; split; [intros C; congruence|];
      intros _; exists (_fill_conf d e); split; [exact Hr|]; split; [exact Hb|reflexivity]
  | |- context [_fill_conf ?d ?e] =>
      let Hr := fresh "Hr" in let Hb := fresh "Hb" in
      destruct (fill_conf_ok d e) as [Hr Hb]; [assumption|];
      split; [lra|]; split; [intros _; exact Hr|intros C; discriminate]
  | |- context [_partial_conf ?d] =>
      let Hr := fresh "Hr" in let Hb := fresh "Hb" in
      destruct (partial_conf_ok d) as [Hr Hb]; [split; assumption|];
      split; [lra|]; split; [intros _; exact Hr|intros C; discriminate]
  | |- context [_random_conf ?e ?u] =>
      let Hr := fresh "Hr" in let Hb := fresh "Hb" in
      destruct (random_conf_ok e u) as [Hr Hb]; [assumption|];
      split; [lra|]; split; [intros _; exact Hr|intros C; discriminate]
  | |- _ => split; [lra|]; split; [intros _; rounded3_lit|intros C; discriminate]
  end.

(** C3: every confidence [classify_block] returns lies in [0, 1]; it is
    rounded to 3 places for every label except FF_WIPE, whose confidence
    is [0.96] times a 3-place value of [_fill_conf] in [0.55, 1] (the
    product itself is not re-rounded). *)
Theorem classify_block_confidence (numpy_available : bool)
  (block_id offset : Z) (data : list Byte.byte) :
  exists r,
    classify_block numpy_available block_id offset data = Some r /\
    0 <= BlockResult.confidence r <= 1 /\
    (BlockResult.wipe_type r <> FF_WIPE -> rounded3 (BlockResult.confidence r)) /\
    (BlockResult.wipe_type r = FF_WIPE ->
     exists c, rounded3 c /\ 0.55 <= c <= 1 /\
               BlockResult.confidence r = c * 0.96).
Proof.
  destruct data as [|b t].
  - simpl; conf_leaf.
  - unfold classify_block.
    destruct (stats_eq numpy_available (b :: t)) as [s [_ Hst]];
      [discriminate|].
    rewrite Hst; clear Hst.
    destruct numpy_available; cbn [obind];
      repeat classify_step_eq; conf_leaf.
Qed.



Lemma ln_le_sub1 (y : R) : 0 < y -> ln y <= y - 1.
Proof. intros Hy; pose proof (exp_ineq1_le (ln y)); rewrite exp_ln in H; lra. Qed.

Lemma ln2_ge_half : 1 / 2 <= ln 2.
Proof.
  pose proof (ln_le_sub1 (/ 2) ltac:(lra)) as H.
  rewrite ln_Rinv in H by lra; lra.
Qed.


Lemma py_log2_pos (x : R) : 0 < x -> py_log2 x = Some (ln x / ln 2).
Proof. intros Hx; unfold py_log2; rewrite (proj2 (Rltb_true _ _) Hx); reflexivity. Qed.

Lemma classify_ff_branch (np : bool) (bid off : Z) (data : list Byte.byte)
  (e zr fr dp : R) (freq : list R) (db : Z) :
  data <> [] ->
  _stats_from_data np data = Some (e, freq, zr, fr, db, dp) ->
  zr < ZERO_FF_STRONG_MIN -> ZERO_FF_STRONG_MIN <= fr -> e <= ENTROPY_FILL_MAX ->
  classify_block np bid off data
  = Some (_result bid off FF_WIPE e (_fill_conf fr e * 0.96) db dp true zr fr).
Proof.
  intros Hne Hst Hz Hf He.
  destruct data as [|b t]; [congruence|].
  unfold classify_block; rewrite Hst; cbn [obind].
  rewrite (proj2 (Rleb_false _ _) Hz), (proj2 (Rleb_true _ _) Hf),
    (proj2 (Rleb_true _ _) He); reflexivity.
Qed.

Lemma not_rounded3_096 (x : R) :
  0.9755 < x < 0.9995 -> ~ rounded3 (py_round x 3 * 0.96).
Proof.
  intros Hx [z Hz].
  destruct (py_round_spec x 3) as (k & Hk & Hb).
  rewrite Hk in Hz; simpl in Hb, Hz.
  assert (Hk1 : (975 < k)%Z) by (apply lt_IZR; lra).
  assert (Hk2 : (k < 1000)%Z) by (apply lt_IZR; lra).
  assert (E : IZR (24 * k) = IZR (25 * z)).
  { rewrite !mult_IZR. lra. }
  apply eq_IZR in E. lia.
Qed.

Lemma fill_conf_ff_not_rounded3 (d e : R) :
  0.9960 <= d <= 0.9962 -> 0 <= e <= 0.03907 ->
  ~ rounded3 (_fill_conf d e * 0.96).
Proof.
  intros Hd He; unfold _fill_conf, ZERO_FF_STRONG_MIN.
  assert (E : (d - 0.90) / (1.0 - 0.90) = (d - 0.90) * 10) by lra.
  rewrite E.
  rewrite (Rmin_left (e / 0.5) 1.0) by lra.
  rewrite Rmin_left by lra.
  apply not_rounded3_096; lra.
Qed.
Lemma ff_block_counts :
  raw_counts ff_block = (2 :: repeat 0 254 ++ [510])%Z.
Proof. vm_compute; reflexivity. Qed.

Lemma ff_block_entropy (s : R) :
  plogp_sum (raw_counts ff_block) 512 = Some s -> 1 / 32 <= - s <= 0.0390625.
Proof.
  rewrite ff_block_counts.
  cbn [plogp_sum repeat app obind Z.eqb Pos.eqb].
  unfold py_div; cbn [Z.eqb Pos.eqb].
  cbn [obind].
  rewrite !py_log2_pos by (apply Rdiv_lt_0_compat; apply IZR_lt; lia).
  cbn [obind].
  intros H; injection H as <-.
  assert (HL := ln2_ge_half).
  assert (L8 : ln (2 / 512) = - (8 * ln 2)).
  { replace (2 / 512) with (/ (2 ^ 8)) by (simpl; lra).
    rewrite ln_Rinv by (apply pow_lt; lra).
    rewrite ln_pow by lra. replace (INR 8) with 8 by (simpl; lra). reflexivity. }
  rewrite L8.
  assert (Hup : ln (510 / 512) <= 0) by (pose proof (ln_le_sub1 (510 / 512)); lra).
  assert (Hlo : - (1 / 255) <= ln (510 / 512)).
  { replace (510 / 512) with (/ (512 / 510)) by lra.
    rewrite ln_Rinv by lra. pose proof (ln_le_sub1 (512 / 510)); lra. }
  assert (E1 : 2 / 512 * (- (8 * ln 2) / ln 2) = - (1 / 32)) by (field; lra).
  rewrite E1.
  set (q := ln (510 / 512) / ln 2).
  assert (Eq : q * ln 2 = ln (510 / 512)) by (unfold q; field; lra).
  clearbody q.
  split; nra.
Qed.

Lemma py_round4_near (x : R) : x - 0.00005 <= py_round x 4 <= x + 0.00005.
Proof. destruct (py_round_spec x 4) as (z & -> & H); simpl in *; lra. Qed.

Lemma py_round6_near (x : R) : x - 0.0000005 <= py_round x 6 <= x + 0.0000005.
Proof. destruct (py_round_spec x 6) as (z & -> & H); simpl in *; lra. Qed.

Lemma ff_block_ne : ff_block <> [].
Proof. discriminate. Qed.

(** The FF block of [ff_block] on both paths: label FF_WIPE, and a
    confidence that is not a multiple of [1/1000]. *)
Lemma ff_block_case (np : bool) :
  exists r, classify_block np 0 0 ff_block = Some r /\
    BlockResult.wipe_type r = FF_WIPE /\
    0 <= BlockResult.confidence r <= 1 /\
    ~ rounded3 (BlockResult.confidence r).
Proof.
  destruct (stats_eq np ff_block ff_block_ne) as [s [Hs Hst]].
  change (Z.of_nat (length ff_block)) with 512%Z in Hs, Hst.
  apply ff_block_entropy in Hs.
  rewrite ff_block_counts in Hst.
  replace (argmax (2 :: repeat 0 254 ++ [510])%Z) with 255%nat in Hst
    by (vm_compute; reflexivity).
  cbn [nth repeat app] in Hst.
  destruct np.
  - eexists; split.
    + eapply classify_ff_branch; [exact ff_block_ne|exact Hst|..];
        unfold ZERO_FF_STRONG_MIN, ENTROPY_FILL_MAX; lra.
    + cbn. split; [reflexivity|].
      assert (Hr := fill_conf_ok (IZR 510 / IZR 512) (- s)).
      split; [destruct Hr as [_ Hb]; [unfold ZERO_FF_STRONG_MIN; lra|lra]|].
      apply fill_conf_ff_not_rounded3; lra.
  - pose proof (py_round4_near (IZR 2 / IZR 512)).
    pose proof (py_round4_near (IZR 510 / IZR 512)).
    pose proof (py_round6_near (- s)).
    eexists; split.
    + eapply classify_ff_branch; [exact ff_block_ne|exact Hst|..];
        unfold ZERO_FF_STRONG_MIN, ENTROPY_FILL_MAX; lra.
    + cbn. split; [reflexivity|].
      assert (Hr := fill_conf_ok (py_round (IZR 510 / IZR 512) 4) (py_round (- s) 6)).
      split; [destruct Hr as [_ Hb]; [unfold ZERO_FF_STRONG_MIN; lra|lra]|].
      apply fill_conf_ff_not_rounded3; lra.
Qed.

(** C3 counterexample: 510 bytes [0xFF] and 2 bytes [0x00] are labelled
    FF_WIPE with or without numpy, and the confidence [_fill_conf * 0.96]
    is not rounded to 3 places: the FF_WIPE branch is the only one that
    returns an unrounded product. *)
Lemma ff_block_confidence_counterexample :
  (exists r, classify_block true 0 0 ff_block = Some r /\
     BlockResult.wipe_type r = FF_WIPE /\
     0 <= BlockResult.confidence r <= 1 /\
     ~ rounded3 (BlockResult.confidence r)) /\
  (exists r, classify_block false 0 0 ff_block = Some r /\
     BlockResult.wipe_type r = FF_WIPE /\
     0 <= BlockResult.confidence r <= 1 /\
     ~ rounded3 (BlockResult.confidence r)).
Proof. split; apply ff_block_case. Qed.

(* ------------------------------------------------------------------ *)
(** ** The UNALLOCATED label *)


(** Rounding to 4 places moves a ratio of [[0.70, 0.90)] out of
    [[0.60, 0.90)] only to 0.90, from [[0.89995, 0.90)]. *)
Lemma py_round4_band_escape (x : R) :
  0.70 <= x < 0.90 -> ~ (0.60 <= py_round x 4 /\ py_round x 4 < 0.90) ->
  py_round x 4 = 0.90 /\ 0.89995 <= x.
Proof.
  intros Hx Hn.
  destruct (py_round_spec x 4) as (z & Hz & Hb); rewrite Hz in *; simpl in Hb, Hn |- *.
  assert (Hge : 0.90 <= IZR z / (10 * (10 * (10 * (10 * 1))))) by (apply Rnot_lt_le; intros C; apply Hn; split; lra).
  assert (Hz1 : (8999 < z)%Z) by (apply lt_IZR; lra).
  assert (Hz2 : (z < 9001)%Z) by (apply lt_IZR; lra).
  assert (z = 9000%Z) by lia; subst z.
  split; lra.
Qed.


Lemma classify_block_fields (np : bool) (bid off : Z) (data : list Byte.byte)
  (e zr fr dp : R) (freq : list R) (db : Z) :
  data <> [] ->
  _stats_from_data np data = Some (e, freq, zr, fr, db, dp) ->
  exists r, classify_block np bid off data = Some r /\
    BlockResult.entropy r = e /\ BlockResult.zero_ratio r = zr /\
    BlockResult.ff_ratio r = fr /\ BlockResult.dominant_byte r = db /\
    BlockResult.dominant_pct r = dp.
Proof.
  intros Hne Hst; destruct data as [|b t]; [congruence|].
  unfold classify_block; rewrite Hst; cbn [obind].
  repeat classify_step;
    (eexists; split; [reflexivity|]; repeat split).
Qed.

Lemma c10_block_counts : raw_counts c10_block = (1808 :: 201 :: repeat 0 254)%Z.
Proof. vm_compute; reflexivity. Qed.

Lemma c10_zero_ratio : py_round (IZR 1808 / IZR 2009) 4 = 0.90.
Proof.
  destruct (py_round_spec (IZR 1808 / IZR 2009) 4) as (z & -> & Hb); simpl in Hb.
  assert (Hz1 : (8999 < z)%Z) by (apply lt_IZR; lra).
  assert (Hz2 : (z < 9001)%Z) by (apply lt_IZR; lra).
  assert (z = 9000%Z) by lia; subst z; simpl; lra.
Qed.

(** C10 counterexample: 1808 zero bytes and 201 bytes [0x01], without
    numpy, satisfy the UNALLOCATED guard (dominant byte 0, dominant_pct
    [1808/2009] in [[0.70, 0.90)]) while [zero_ratio] is rounded to 0.90,
    outside the partial-zero band. *)
Lemma unallocated_guard_counterexample :
  exists r, classify_block false 0 0 c10_block = Some r /\
    BlockResult.dominant_byte r = 0%Z /\
    0.70 <= BlockResult.dominant_pct r < 0.90 /\
    BlockResult.zero_ratio r = 0.90.
Proof.
  assert (Hne : c10_block <> []) by discriminate.
  destruct (stats_eq false c10_block Hne) as [s [_ Hst]].
  change (Z.of_nat (length c10_block)) with 2009%Z in Hst.
  rewrite c10_block_counts in Hst.
  replace (argmax (1808 :: 201 :: repeat 0 254)%Z) with 0%nat in Hst
    by (vm_compute; reflexivity).
  cbn [nth Z.of_nat] in Hst.
  destruct (classify_block_fields false 0 0 c10_block _ _ _ _ _ _ Hne Hst)
    as (r & Hr & _ & Hzr & _ & Hdb & Hdp).
  exists r; split; [exact Hr|].
  rewrite Hzr, Hdb, Hdp, c10_zero_ratio.
  split; [reflexivity|]; split; [split; lra|reflexivity].
Qed.

(* ------------------------------------------------------------------ *)
(** ** The scorer *)

Lemma py_list_index_verdict (v : Verdict) :
  py_list_index verdict_order v = Some (verdict_rank v).
Proof. destruct v; reflexivity. Qed.

Lemma py_index_verdict_max (a b : Verdict) :
  py_index verdict_order (Z.max (verdict_rank a) (verdict_rank b))
  = Some (verdict_max a b).
Proof. destruct a, b; reflexivity. Qed.

Lemma verdict_max_comm (a b : Verdict) : verdict_max a b = verdict_max b a.
Proof. destruct a, b; reflexivity. Qed.

Lemma verdict_max_ge_l (a b : Verdict) :
  (verdict_rank a <= verdict_rank (verdict_max a b))%Z.
Proof. destruct a, b; simpl; lia. Qed.

Lemma verdict_max_ge_r (a b : Verdict) :
  (verdict_rank b <= verdict_rank (verdict_max a b))%Z.
Proof. destruct a, b; simpl; lia. Qed.

Lemma zlen_pos {A} (l : list A) : l <> [] -> (0 < zlen l)%Z.
Proof. destruct l; [congruence|]; intros _; unfold zlen; simpl; lia. Qed.

Lemma zlen_nonneg {A} (l : list A) : (0 <= zlen l)%Z.
Proof. unfold zlen; lia. Qed.

(** [compute_score] on a non-empty block list: it returns, and its
    counters and verdict are the ones of the source's stages. *)
Lemma compute_score_spec (blocks : list BlockResult.t) (regions : list Region.t) :
  blocks <> [] ->
  exists st,
    compute_score blocks regions = Some st /\
    ScanStats.total_blocks st = zlen blocks /\
    ScanStats.suspicious_blocks st = zlen (filter BlockResult.is_suspicious blocks) /\
    ScanStats.wipe_density st
      = IZR (zlen (filter BlockResult.is_suspicious blocks)) / IZR (zlen blocks) /\
    ScanStats.regions_count st = zlen regions /\
    ScanStats.verdict st
      = verdict_max (score_verdict_of (ScanStats.intent_score st))
          (density_verdict_of (ScanStats.wipe_density st)
             (ScanStats.suspicious_blocks st)).
Proof.
  intros Hne.
  pose proof (zlen_pos blocks Hne) as Hpos.
  unfold compute_score.
  destruct (Z.eqb_spec (zlen blocks) 0) as [E|_]; [lia|].
  rewrite !py_div_nz by lia; cbn [obind].
  set (n_susp := zlen (filter BlockResult.is_suspicious blocks)).
  destruct (Z.gtb_spec n_susp 0) as [Hs|Hs].
  - rewrite py_div_nz by lia; cbn [obind].
    destruct regions as [|r rs].
    + cbn [obind]; rewrite !py_list_index_verdict; cbn [obind].
      rewrite py_index_verdict_max; cbn [obind].
      eexists; repeat split; reflexivity.
    + rewrite py_div_nz
        by (assert (0 < zlen (r :: rs))%Z by (apply zlen_pos; discriminate); lia).
      cbn [obind]; rewrite !py_list_index_verdict; cbn [obind].
      rewrite py_index_verdict_max; cbn [obind].
      eexists; repeat split; reflexivity.
  - cbn [obind].
    destruct regions as [|r rs].
    + cbn [obind]; rewrite !py_list_index_verdict; cbn [obind].
      rewrite py_index_verdict_max; cbn [obind].
      eexists; repeat split; reflexivity.
    + rewrite py_div_nz
        by (assert (0 < zlen (r :: rs))%Z by (apply zlen_pos; discriminate); lia).
      cbn [obind]; rewrite !py_list_index_verdict; cbn [obind].
      rewrite py_index_verdict_max; cbn [obind].
      eexists; repeat split; reflexivity.
Qed.

Lemma density_verdict_high (wd : R) (n : Z) :
  0.30 < wd -> density_verdict_of wd n = HIGH.
Proof. intros H; unfold density_verdict_of; rewrite (proj2 (Rltb_true _ _) H); reflexivity. Qed.

Lemma verdict_max_high (a : Verdict) : verdict_max a HIGH = HIGH.
Proof. destruct a; reflexivity. Qed.

(** C8: on a non-empty block list, [compute_score]'s verdict is the larger,
    on NEGLIGIBLE < LOW < MEDIUM < HIGH, of the density fast-path verdict
    and the verdict of the intent score (HIGH from 70, MEDIUM from 35, LOW
    from 10); it is never below either of them, and a wipe density above
    0.30 makes it HIGH. *)
Theorem compute_score_verdict (blocks : list BlockResult.t)
  (regions : list Region.t) :
  blocks <> [] ->
  exists st,
    compute_score blocks regions = Some st /\
    ScanStats.verdict st
      = verdict_max
          (density_verdict_of (ScanStats.wipe_density st)
             (ScanStats.suspicious_blocks st))
          (score_verdict_of (ScanStats.intent_score st)) /\
    (verdict_rank (score_verdict_of (ScanStats.intent_score st))
       <= verdict_rank (ScanStats.verdict st))%Z /\
    (verdict_rank (density_verdict_of (ScanStats.wipe_density st)
                     (ScanStats.suspicious_blocks st))
       <= verdict_rank (ScanStats.verdict st))%Z /\
    (0.30 < ScanStats.wipe_density st -> ScanStats.verdict st = HIGH).
Proof.
  intros Hne.
  destruct (compute_score_spec blocks regions Hne)
    as (st & Hst & _ & _ & _ & _ & Hv).
  exists st; split; [exact Hst|].
  rewrite Hv, verdict_max_comm; split; [reflexivity|].
  split; [apply verdict_max_ge_r|].
  split; [apply verdict_max_ge_l|].
  intros Hd; rewrite (density_verdict_high _ _ Hd).
  rewrite verdict_max_comm; apply verdict_max_high.
Qed.

(* ------------------------------------------------------------------ *)
(** ** The aggregator never raises on non-negative block ids *)

Lemma py_index_some {A} (l : list A) (i : Z) :
  (0 <= i < zlen l)%Z -> exists x, py_index l i = Some x.
Proof.
  intros H; unfold py_index, zlen in *.
  replace ((0 <=? i)%Z && (i <? Z.of_nat (length l))%Z) with true
    by (symmetry; apply andb_true_iff; split; [apply Z.leb_le|apply Z.ltb_lt]; lia).
  destruct (nth_error l (Z.to_nat i)) eqn:E; eauto.
  apply nth_error_None in E; lia.
Qed.

Lemma gather_some {A} (f : BlockResult.t -> A) (all_blocks : list BlockResult.t)
  (ids : list Z) :
  Forall (Z.le 0) ids ->
  exists xs, gather f all_blocks ids = Some xs /\
    length xs = length (filter (fun bid => (bid <? zlen all_blocks)%Z) ids).
Proof.
  induction ids as [|bid t IH]; intros H; cbn [gather filter]; [eauto|].
  inversion H; subst.
  destruct (IH H3) as [xs [Hxs Hl]].
  destruct (Z.ltb_spec bid (zlen all_blocks)).
  - destruct (py_index_some all_blocks bid) as [b Hb]; [lia|].
    rewrite Hb; cbn [obind]; rewrite Hxs; cbn [obind].
    eexists; split; [reflexivity|]; simpl; congruence.
  - eauto.
Qed.

Lemma mean_or_zero_some (xs : list R) : exists m, mean_or_zero xs = Some m.
Proof.
  destruct xs as [|x t]; simpl; eauto.
  rewrite py_div_nz; eauto. unfold zlen; simpl; lia.
Qed.

Lemma take_run_app (wt : WipeType) (l : list BlockResult.t) :
  l = fst (take_run wt l) ++ snd (take_run wt l).
Proof.
  induction l as [|b t IH]; simpl; auto.
  destruct (_ && _); simpl; auto.
  destruct (take_run wt t) as [run rest]; simpl in *; f_equal; auto.
Qed.

Lemma run_region_ok (rid : Z) (wt : WipeType) (first : BlockResult.t)
  (run : list BlockResult.t) :
  Forall (fun b => 0 <= BlockResult.block_id b)%Z (first :: run) ->
  exists r, run_region rid wt first (first :: run) = Some r /\ region_ids_ok r.
Proof.
  intros H; unfold run_region.
  rewrite py_div_nz by (unfold zlen; simpl; lia); cbn [obind].
  eexists; split; [reflexivity|]; split; cbn [Region.blocks]; [discriminate|].
  apply Forall_map; exact H.
Qed.

Lemma merge_loop_ok (fuel : nat) (results : list BlockResult.t) (rid : Z) :
  Forall (fun b => 0 <= BlockResult.block_id b)%Z results ->
  exists rs, merge_loop fuel results rid = Some rs /\ Forall region_ids_ok rs.
Proof.
  revert results rid; induction fuel as [|fuel IH]; intros results rid H;
    cbn [merge_loop]; [eauto|].
  destruct results as [|b t]; [eauto|].
  inversion H; subst.
  destruct (negb (BlockResult.is_suspicious b)); [apply IH; auto|].
  pose proof (take_run_app (BlockResult.wipe_type b) t) as Happ.
  destruct (take_run (BlockResult.wipe_type b) t) as [run rest]; simpl in Happ.
  rewrite Happ in H3; apply Forall_app in H3 as [Hrun Hrest].
  destruct (run_region_ok rid (BlockResult.wipe_type b) b run) as [r [Hr Hok]];
    [constructor; auto|].
  rewrite Hr; cbn [obind].
  destruct (IH rest (rid + 1)%Z Hrest) as [rs [Hrs Hoks]].
  rewrite Hrs; cbn [obind]; eauto.
Qed.

Lemma Forall_last {A} (P : A -> Prop) (b : A) (bs : list A) :
  Forall P (b :: bs) -> P (last bs b).
Proof.
  intros H; inversion H as [|? ? Hb Hbs]; subst; clear H.
  revert b Hb; induction bs as [|c t IH]; intros b Hb; simpl; auto.
  inversion Hbs; subst.
  destruct t; auto; apply IH; auto.
Qed.

Lemma zrange_ge (a b : Z) : Forall (Z.le a) (zrange a b).
Proof. unfold zrange; apply Forall_map, Forall_forall; intros; lia. Qed.

Lemma absorb_step_ok (all_blocks : list BlockResult.t)
  (merged : list Region.t) (curr : Region.t) :
  Forall region_ids_ok merged -> region_ids_ok curr ->
  exists m, absorb_step all_blocks merged curr = Some m /\ Forall region_ids_ok m.
Proof.
  intros Hm Hc; unfold absorb_step.
  destruct merged as [|prev older]; [eauto|].
  inversion Hm as [|? ? Hp Ho]; subst.
  destruct (negb _); [eauto|].
  pose proof Hc as Hc'; pose proof Hp as Hp'.
  destruct Hp as [Hpne Hpnn]; destruct Hc as [Hcne Hcnn].
  destruct (Region.blocks prev) as [|pb pbs] eqn:Ep; [congruence|].
  destruct (Region.blocks curr) as [|cb cbs] eqn:Ec; [congruence|].
  destruct (_ <=? _)%Z; [|eexists; split; [reflexivity|]; constructor; [exact Hc'|constructor; auto]].
  destruct (gather_some BlockResult.entropy all_blocks ((pb :: pbs) ++ cb :: cbs))
    as [es [Hes _]]; [apply Forall_app; auto|].
  rewrite Hes; cbn [obind].
  destruct (mean_or_zero_some es) as [m Hm']; rewrite Hm'; cbn [obind].
  eexists; split; [reflexivity|]; constructor; auto.
  split; cbn [Region.blocks]; [discriminate|].
  pose proof (Forall_last _ _ _ Hpnn) as Hl.
  apply Forall_app; split; auto.
  apply Forall_app; split; auto.
  eapply Forall_impl; [|apply zrange_ge]; simpl; intros; lia.
Qed.

Lemma absorb_loop_ok (all_blocks : list BlockResult.t)
  (merged regions : list Region.t) :
  Forall region_ids_ok merged -> Forall region_ids_ok regions ->
  exists rs, absorb_loop all_blocks merged regions = Some rs /\
    Forall region_ids_ok rs.
Proof.
  revert merged; induction regions as [|c t IH]; intros merged Hm Hr; simpl.
  - eexists; split; [reflexivity|]. apply Forall_rev; auto.
  - inversion Hr; subst.
    destruct (absorb_step_ok all_blocks merged c Hm H1) as [m [Hs Hok]].
    rewrite Hs; cbn [obind]; auto.
Qed.

Lemma absorb_noise_ok (regions : list Region.t) (all_blocks : list BlockResult.t) :
  Forall region_ids_ok regions ->
  exists rs, _absorb_noise regions all_blocks = Some rs /\ Forall region_ids_ok rs.
Proof.
  intros H; unfold _absorb_noise.
  destruct regions as [|r0 [|r1 t]]; eauto.
  inversion H; subst; apply absorb_loop_ok; auto.
Qed.

Lemma take_bands_app (prev : Region.t) (rest : list Region.t) :
  rest = fst (take_bands prev rest) ++ snd (take_bands prev rest).
Proof.
  revert prev; induction rest as [|c t IH]; intros prev; simpl; auto.
  destruct (_ && _); simpl; auto.
  specialize (IH c); destruct (take_bands c t) as [g r]; simpl in *; f_equal; auto.
Qed.

Lemma flat_map_blocks_nonneg (rs : list Region.t) :
  Forall region_ids_ok rs -> Forall (Z.le 0) (flat_map Region.blocks rs).
Proof.
  induction rs as [|r t IH]; intros H; simpl; auto.
  inversion H as [|? ? [_ Hr] Ht]; subst; apply Forall_app; auto.
Qed.

Lemma band_region_ok (all_blocks : list BlockResult.t) (first : Region.t)
  (g : list Region.t) :
  Forall region_ids_ok (first :: g) ->
  exists r, band_region all_blocks first (first :: g) = Some r /\ region_ids_ok r.
Proof.
  intros H; unfold band_region.
  destruct (gather_some BlockResult.entropy all_blocks
              (flat_map Region.blocks (first :: g))) as [es [Hes _]];
    [apply flat_map_blocks_nonneg; auto|].
  rewrite Hes; cbn [obind].
  destruct (mean_or_zero_some es) as [m Hm]; rewrite Hm; cbn [obind].
  eexists; split; [reflexivity|]; split; cbn [Region.blocks].
  - inversion H as [|? ? [Hne _] _]; subst; simpl.
    destruct (Region.blocks first); [congruence|discriminate].
  - apply flat_map_blocks_nonneg; auto.
Qed.

Lemma multi_pass_loop_ok (fuel : nat) (all_blocks : list BlockResult.t)
  (regions : list Region.t) :
  Forall region_ids_ok regions ->
  exists rs, multi_pass_loop fuel all_blocks regions = Some rs /\
    Forall region_ids_ok rs.
Proof.
  revert regions; induction fuel as [|fuel IH]; intros regions H;
    cbn [multi_pass_loop]; [eauto|].
  destruct regions as [|ri rest]; [eauto|].
  inversion H; subst.
  pose proof (take_bands_app ri rest) as Happ.
  destruct (take_bands ri rest) as [g rest']; simpl in Happ.
  pose proof H3 as H3'; rewrite Happ in H3'; apply Forall_app in H3' as [Hg Hr].
  destruct (_ <=? _)%nat.
  - destruct (band_region_ok all_blocks ri g) as [r [Hb Hok]]; [constructor; auto|].
    rewrite Hb; cbn [obind].
    destruct (IH rest' Hr) as [rs [Hrs Hoks]]; rewrite Hrs; cbn [obind]; eauto.
  - destruct (IH rest H3) as [rs [Hrs Hoks]]; rewrite Hrs; cbn [obind]; eauto.
Qed.

Lemma detect_multi_pass_ok (regions : list Region.t) (all_blocks : list BlockResult.t) :
  Forall region_ids_ok regions ->
  exists rs, _detect_multi_pass regions all_blocks = Some rs /\
    Forall region_ids_ok rs.
Proof.
  intros H; unfold _detect_multi_pass.
  destruct (_ <? _)%nat; [eauto|apply multi_pass_loop_ok; auto].
Qed.

Lemma Forall_filter_sub {A} (P : A -> Prop) (f : A -> bool) (l : list A) :
  Forall P l -> Forall P (filter f l).
Proof.
  intros H; apply Forall_forall; intros x Hx.
  apply filter_In in Hx as [Hx _]; eapply Forall_forall in H; eauto.
Qed.

Lemma filter_all {A} (f : A -> bool) (l : list A) :
  (forall x, In x l -> f x = true) -> filter f l = l.
Proof.
  induction l as [|a t IH]; intros H; simpl; auto.
  rewrite (H a (or_introl eq_refl)); f_equal; apply IH; intros; apply H; right; auto.
Qed.

Lemma suppress_ok (regions : list Region.t) (all_blocks : list BlockResult.t) :
  Forall region_ids_ok regions ->
  Forall region_ids_ok (_suppress_false_positives regions all_blocks).
Proof.
  intros H; unfold _suppress_false_positives.
  destruct regions; [auto|apply Forall_filter_sub; auto].
Qed.

Lemma region_confidence_some (all_blocks : list BlockResult.t) (r : Region.t) :
  region_ids_ok r -> exists c, region_confidence all_blocks r = Some c.
Proof.
  intros [_ Hnn]; unfold region_confidence.
  set (valid := filter (fun bid => (bid <? zlen all_blocks)%Z) (Region.blocks r)).
  assert (Hv : Forall (Z.le 0) valid) by (apply Forall_filter_sub; auto).
  assert (Hf : filter (fun bid => (bid <? zlen all_blocks)%Z) valid = valid).
  { apply filter_all; intros x Hx; subst valid; apply filter_In in Hx; tauto. }
  destruct valid as [|v vs] eqn:Ev; [eauto|].
  destruct (gather_some BlockResult.confidence all_blocks (v :: vs) Hv)
    as [cs [Hcs Hlc]].
  rewrite Hf in Hlc; rewrite Hcs; cbn [obind].
  rewrite py_div_nz by (unfold zlen; rewrite Hlc; simpl; lia); cbn [obind].
  destruct (gather_some BlockResult.is_suspicious all_blocks (v :: vs) Hv)
    as [ss [Hss _]].
  rewrite Hss; cbn [obind].
  rewrite py_div_nz by (unfold zlen; simpl; lia); cbn [obind]; eauto.
Qed.

Lemma compute_confidence_some (regions : list Region.t)
  (all_blocks : list BlockResult.t) :
  Forall region_ids_ok regions ->
  exists rs, _compute_confidence regions all_blocks = Some rs.
Proof.
  induction regions as [|r t IH]; intros H; simpl; [eauto|].
  inversion H; subst.
  destruct (region_confidence_some all_blocks r H2) as [c Hc]; rewrite Hc.
  destruct (IH H3) as [rs Hrs]; rewrite Hrs; simpl; eauto.
Qed.

(** [aggregate] returns on every block list whose block ids are
    non-negative, as the reader numbers them. *)
Lemma aggregate_some (results : list BlockResult.t) :
  Forall (fun b => 0 <= BlockResult.block_id b)%Z results ->
  exists rs, aggregate results = Some rs.
Proof.
  intros H; unfold aggregate.
  destruct results as [|b t] eqn:Er; [eauto|]; rewrite <- Er in *.
  destruct (merge_loop_ok (length results) results 0 H) as [raw [Hraw Hok1]].
  unfold _merge_consecutive; rewrite Hraw; cbn [obind].
  destruct (absorb_noise_ok raw results Hok1) as [ab [Hab Hok2]].
  rewrite Hab; cbn [obind].
  destruct (detect_multi_pass_ok (_filter_by_size ab) results) as [wm [Hwm Hok3]];
    [apply Forall_filter_sub; auto|].
  rewrite Hwm; cbn [obind].
  destruct (compute_confidence_some (_suppress_false_positives wm results) results)
    as [sc Hsc]; [apply suppress_ok; auto|].
  rewrite Hsc; cbn [obind]; eauto.
Qed.

Lemma compute_score_some (blocks : list BlockResult.t) (regions : list Region.t) :
  exists st, compute_score blocks regions = Some st.
Proof.
  destruct blocks as [|b t].
  - exists _empty_stats; reflexivity.
  - destruct (compute_score_spec (b :: t) regions) as [st [Hst _]];
      [discriminate|eauto].
Qed.

(** Two same-label blocks at ids [-1000] and [-999] around a NORMAL one:
    the noise absorption indexes [all_blocks[-1000]] in a list of three and
    raises, so the non-negativity of block ids is needed for totality. *)
Lemma aggregate_negative_ids_raise :
  aggregate [mkb (-1000) ZERO_WIPE true 0; mkb 1 NORMAL false 3;
             mkb (-999) ZERO_WIPE true 0] = None.
Proof. vm_compute. reflexivity. Qed.

(** C9: [classify_block] returns a result on every byte sequence, the empty
    one included; [aggregate] returns on every block list whose block ids
    are non-negative (as the reader numbers them), the empty list included;
    [compute_score] returns on every block and region list.  No division,
    logarithm, square root or index of these functions raises. *)
Theorem pipeline_total (numpy_available : bool) (block_id offset : Z)
  (data : list Byte.byte) (results : list BlockResult.t)
  (regions : list Region.t) :
  forallb (fun b => 0 <=? BlockResult.block_id b)%Z results = true ->
  (exists r, classify_block numpy_available block_id offset data = Some r) /\
  (exists rs, aggregate results = Some rs) /\
  (exists st, compute_score results regions = Some st).
Proof.
  intros Hids; split; [|split].
  - destruct (classify_block_shape numpy_available block_id offset data)
      as (wt & e & conf & db & dp & zr & fr & ->); eauto.
  - apply aggregate_some.
    apply Forall_forall; intros b Hb.
    eapply forallb_forall in Hids; [|exact Hb]; apply Z.leb_le in Hids; exact Hids.
  - apply compute_score_some.
Qed.

(* ------------------------------------------------------------------ *)
(** ** Instances of the claims' theorems *)

Lemma compute_score_verdict_witness :
  [mkb 0 ZERO_WIPE true 0] <> [] /\
  exists st,
    compute_score [mkb 0 ZERO_WIPE true 0] [] = Some st /\
    ScanStats.verdict st
      = verdict_max
          (density_verdict_of (ScanStats.wipe_density st)
             (ScanStats.suspicious_blocks st))
          (score_verdict_of (ScanStats.intent_score st)).
Proof.
  split; [discriminate|].
  destruct (compute_score_verdict [mkb 0 ZERO_WIPE true 0] [])
    as (st & H1 & H2 & _); [discriminate|].
  exists st; split; assumption.
Defined.

Lemma pipeline_total_witness :
  forallb (fun b => 0 <=? BlockResult.block_id b)%Z
    (run_of 0 3 ZERO_WIPE true 0) = true /\
  (exists rs, aggregate (run_of 0 3 ZERO_WIPE true 0) = Some rs).
Proof.
  split; [reflexivity|].
  apply (pipeline_total true 0 0 [] (run_of 0 3 ZERO_WIPE true 0) []).
  reflexivity.
Defined.

(* ------------------------------------------------------------------ *)
(** ** Noise absorption *)

Lemma py_index_in {A} (l : list A) (i : Z) (d : A) :
  (0 <= i < zlen l)%Z -> py_index l i = Some (nth (Z.to_nat i) l d).
Proof.
  intros H; unfold zlen in H.
  replace i with (Z.of_nat (Z.to_nat i)) at 1 by lia.
  apply py_index_nat; lia.
Qed.

Lemma gather_eq {A} (f : BlockResult.t -> A) (all_blocks : list BlockResult.t)
  (ids : list Z) :
  Forall (Z.le 0) ids ->
  gather f all_blocks ids
  = Some (map (fun bid => f (nth (Z.to_nat bid) all_blocks default_block))
            (filter (fun bid => (0 <=? bid)%Z && (bid <? zlen all_blocks)%Z) ids)).
Proof.
  induction ids as [|bid t IH]; intros H; cbn [gather filter]; [reflexivity|].
  inversion H; subst.
  replace (0 <=? bid)%Z with true by (symmetry; apply Z.leb_le; lia); simpl andb.
  destruct (Z.ltb_spec bid (zlen all_blocks)).
  - rewrite (py_index_in all_blocks bid default_block) by lia; cbn [obind].
    rewrite IH by auto; reflexivity.
  - apply IH; auto.
Qed.

Lemma mean_or_zero_eq (es : list R) :
  mean_or_zero es
  = Some (match es with [] => 0.0 | _ => Rsum es / INR (length es) end).
Proof.
  destruct es as [|e t]; [reflexivity|].
  unfold mean_or_zero; rewrite py_div_nz by (unfold zlen; simpl; lia).
  unfold zlen; rewrite <- INR_IZR_INZ; reflexivity.
Qed.

(** Fusing [prev] and [curr] in [absorb_step]: the result, written out. *)
Lemma absorb_step_fuse (all_blocks : list BlockResult.t) (prev : Region.t)
  (older : list Region.t) (curr : Region.t) (pb cb : Z) (pbs cbs : list Z) :
  Region.blocks prev = pb :: pbs -> Region.blocks curr = cb :: cbs ->
  Region.wipe_type prev = Region.wipe_type curr ->
  (cb - last pbs pb - 1 <= MAX_NORMAL_GAP)%Z ->
  Forall (Z.le 0) (Region.blocks prev ++ Region.blocks curr) ->
  absorb_step all_blocks (prev :: older) curr
  = Some (Region.mk (Region.id prev) (Region.start_offset prev)
            (Region.end_offset curr)
            (Region.end_offset curr - Region.start_offset prev + 1)%Z
            (Region.wipe_type prev)
            (zlen (Region.blocks prev ++ zrange (last pbs pb + 1) cb
                   ++ Region.blocks curr))
            (mean_entropy_over all_blocks
               (Region.blocks prev ++ Region.blocks curr))
            0.0
            (Region.blocks prev ++ zrange (last pbs pb + 1) cb
             ++ Region.blocks curr) :: older).
Proof.
  intros Ep Ec Ewt Hgap Hnn.
  unfold absorb_step.
  rewrite Ewt.
  assert (E : WipeType_eqb (Region.wipe_type curr) (Region.wipe_type curr) = true)
    by (destruct (Region.wipe_type curr); reflexivity).
  rewrite E; cbn [negb].
  rewrite Ep, Ec.
  apply Z.leb_le in Hgap; rewrite Hgap.
  rewrite <- Ep, <- Ec.
  rewrite (gather_eq _ _ _ Hnn); cbn [obind].
  rewrite mean_or_zero_eq; cbn [obind].
  unfold mean_entropy_over, entropies_at; destruct (map _ _); reflexivity.
Qed.

(** C6 (as stated, refuted): in [absorb_sample] the regions [{0}] and
    [{2}] are fused across the NORMAL block 1; the fused region's blocks are
    [0; 1; 2], but its [avg_entropy] is 0, the mean over blocks 0 and 2
    only, while the mean classifier entropy over its members 0, 1, 2 is 1. *)
Lemma absorb_noise_gap_entropy_counterexample :
  exists r,
    (raw <- _merge_consecutive absorb_sample ;; _absorb_noise raw absorb_sample)
      = Some [r] /\
    Region.blocks r = [0; 1; 2]%Z /\
    Region.avg_entropy r = 0 /\
    mean_entropy_over absorb_sample (Region.blocks r) = 1.
Proof.
  eexists; split; [vm_compute; reflexivity|].
  split; [reflexivity|].
  split; [vm_compute; field | vm_compute; field].
Qed.

(** C6 (amended): when [_absorb_noise] fuses a region [prev] with the next
    region [curr] of the same label whose first block lies at most 8 blocks
    after [prev]'s last, the fused region's blocks are [prev]'s, the
    intervening indices and [curr]'s; its [avg_entropy] is the mean
    classifier entropy over the in-range member indices of [prev] and
    [curr] only: the intervening indices do not enter it. *)
Theorem absorb_noise_fuse (all_blocks : list BlockResult.t) (prev : Region.t)
  (older : list Region.t) (curr : Region.t) (pb cb : Z) (pbs cbs : list Z) :
  Region.blocks prev = pb :: pbs -> Region.blocks curr = cb :: cbs ->
  Region.wipe_type prev = Region.wipe_type curr ->
  (cb - last pbs pb - 1 <= MAX_NORMAL_GAP)%Z ->
  forallb (Z.leb 0) (Region.blocks prev ++ Region.blocks curr) = true ->
  exists r,
    absorb_step all_blocks (prev :: older) curr = Some (r :: older) /\
    Region.blocks r
      = Region.blocks prev ++ zrange (last pbs pb + 1) cb ++ Region.blocks curr /\
    Region.avg_entropy r
      = mean_entropy_over all_blocks (Region.blocks prev ++ Region.blocks curr) /\
    Region.wipe_type r = Region.wipe_type prev /\
    Region.start_offset r = Region.start_offset prev /\
    Region.end_offset r = Region.end_offset curr.
Proof.
  intros Ep Ec Ewt Hgap Hnn.
  rewrite (absorb_step_fuse all_blocks prev older curr pb cb pbs cbs Ep Ec Ewt Hgap).
  - eexists; split; [reflexivity|]; repeat split.
  - apply Forall_forall; intros x Hx.
    eapply forallb_forall in Hnn; [|exact Hx]; apply Z.leb_le; exact Hnn.
Qed.

Lemma absorb_noise_fuse_witness :
  exists r,
    absorb_step absorb_sample [absorb_prev] absorb_curr = Some [r] /\
    Region.blocks r = [0; 1; 2]%Z.
Proof.
  destruct (absorb_noise_fuse absorb_sample absorb_prev [] absorb_curr 0 2 [] []
              eq_refl eq_refl eq_refl
              ltac:(unfold MAX_NORMAL_GAP; simpl; lia) eq_refl)
    as (r & H1 & H2 & _).
  exists r; split; [exact H1 | exact H2].
Defined.

(* ------------------------------------------------------------------ *)
(** ** Minimum region size *)


Lemma filter_by_size_min (regions : list Region.t) :
  Forall min_size_ok (_filter_by_size regions).
Proof.
  apply Forall_forall; intros r Hr; unfold _filter_by_size in Hr.
  apply filter_In in Hr as [_ Hr]; apply Z.leb_le in Hr; exact Hr.
Qed.

Lemma sum_block_counts_ge (r : Region.t) (g : list Region.t) :
  Forall min_size_ok (r :: g) ->
  (Region.block_count r <= fold_right Z.add 0 (map Region.block_count (r :: g)))%Z.
Proof.
  intros H; simpl.
  assert (0 <= fold_right Z.add 0 (map Region.block_count g))%Z; [|lia].
  inversion H as [|? ? _ Hg]; subst; clear H.
  induction g as [|r' g IH]; simpl; [lia|].
  inversion Hg as [|? ? Hr' Hg']; subst; unfold min_size_ok, MIN_REGION_BLOCKS in Hr'.
  specialize (IH Hg'); lia.
Qed.

Lemma multi_pass_loop_min (fuel : nat) (all_blocks : list BlockResult.t)
  (regions rs : list Region.t) :
  Forall min_size_ok regions ->
  multi_pass_loop fuel all_blocks regions = Some rs -> Forall min_size_ok rs.
Proof.
  revert regions rs; induction fuel as [|fuel IH]; intros regions rs H E;
    cbn [multi_pass_loop] in E; [injection E as <-; auto|].
  destruct regions as [|ri rest]; [injection E as <-; auto|].
  pose proof (take_bands_app ri rest) as Happ.
  destruct (take_bands ri rest) as [g rest']; simpl in Happ.
  pose proof H as H'; apply Forall_cons_iff in H' as [Hri Hrest].
  pose proof Hrest as Hrest'; rewrite Happ in Hrest'.
  apply Forall_app in Hrest' as [Hg Hr].
  destruct (_ <=? _)%nat.
  - unfold band_region in E.
    destruct (gather _ _ _) as [es|]; cbn [obind] in E; [|discriminate].
    destruct (mean_or_zero es) as [m|]; cbn [obind] in E; [|discriminate].
    destruct (multi_pass_loop fuel all_blocks rest') as [rs'|] eqn:Er;
      cbn [obind] in E; [|discriminate].
    injection E as <-; constructor; [|eapply IH; [exact Hr|exact Er]].
    unfold min_size_ok; cbn [Region.block_count].
    pose proof (sum_block_counts_ge ri g ltac:(constructor; auto)) as Hs.
    simpl in Hs; unfold min_size_ok in Hri; lia.
  - destruct (multi_pass_loop fuel all_blocks rest) as [rs'|] eqn:Er;
      cbn [obind] in E; [|discriminate].
    injection E as <-; constructor; [auto|eapply IH; [exact Hrest|exact Er]].
Qed.

Lemma detect_multi_pass_min (regions rs : list Region.t)
  (all_blocks : list BlockResult.t) :
  Forall min_size_ok regions ->
  _detect_multi_pass regions all_blocks = Some rs -> Forall min_size_ok rs.
Proof.
  intros H E; unfold _detect_multi_pass in E.
  destruct (_ <? _)%nat; [injection E as <-; auto|eapply multi_pass_loop_min; eauto].
Qed.

Lemma suppress_sub (P : Region.t -> Prop) (regions : list Region.t)
  (all_blocks : list BlockResult.t) :
  Forall P regions -> Forall P (_suppress_false_positives regions all_blocks).
Proof.
  intros H; unfold _suppress_false_positives.
  destruct regions; [auto|apply Forall_filter_sub; auto].
Qed.

Lemma compute_confidence_map (regions rs : list Region.t)
  (all_blocks : list BlockResult.t) :
  _compute_confidence regions all_blocks = Some rs ->
  exists cs, rs = map (fun '(r, c) => with_confidence r c) (combine regions cs)
             /\ length cs = length regions.
Proof.
  revert rs; induction regions as [|r t IH]; intros rs E; simpl in E.
  - injection E as <-; exists []; auto.
  - destruct (region_confidence all_blocks r) as [c|]; cbn [obind] in E; [|discriminate].
    destruct (_compute_confidence t all_blocks) as [rs'|] eqn:Et;
      cbn [obind] in E; [|discriminate].
    injection E as <-.
    destruct (IH rs' eq_refl) as [cs [-> Hl]].
    exists (c :: cs); simpl; auto.
Qed.

Lemma compute_confidence_keep (P : Region.t -> Prop) (regions rs : list Region.t)
  (all_blocks : list BlockResult.t) :
  (forall r c, P r -> P (with_confidence r c)) ->
  Forall P regions -> _compute_confidence regions all_blocks = Some rs ->
  Forall P rs.
Proof.
  intros HP; revert rs; induction regions as [|r t IH]; intros rs H E; simpl in E.
  - injection E as <-; auto.
  - inversion H; subst.
    destruct (region_confidence all_blocks r) as [c|]; cbn [obind] in E; [|discriminate].
    destruct (_compute_confidence t all_blocks) as [rs'|] eqn:Et;
      cbn [obind] in E; [|discriminate].
    injection E as <-; constructor; auto.
Qed.

Lemma number_from_keep (P : Region.t -> Prop) (i : Z) (rs : list Region.t) :
  (forall r j, P r -> P (with_id r j)) -> Forall P rs -> Forall P (number_from i rs).
Proof.
  intros HP H; revert i; induction H; intros i; simpl; constructor; auto.
Qed.

Lemma aggregate_min_size (results : list BlockResult.t) (rs : list Region.t) :
  aggregate results = Some rs -> Forall min_size_ok rs.
Proof.
  unfold aggregate; intros E.
  destruct results as [|b t]; [injection E as <-; auto|].
  destruct (_merge_consecutive _) as [raw|]; cbn [obind] in E; [|discriminate].
  destruct (_absorb_noise raw _) as [ab|]; cbn [obind] in E; [|discriminate].
  destruct (_detect_multi_pass (_filter_by_size ab) _) as [wm|] eqn:Ewm;
    cbn [obind] in E; [|discriminate].
  destruct (_compute_confidence _ _) as [sc|] eqn:Esc; cbn [obind] in E;
    [|discriminate].
  injection E as <-.
  apply number_from_keep; [intros r j H; exact H|].
  eapply compute_confidence_keep; [intros r c H; exact H| |exact Esc].
  apply suppress_sub.
  eapply detect_multi_pass_min; [apply filter_by_size_min|exact Ewm].
Qed.


Lemma merge_loop_nonsusp (fuel : nat) (l : list BlockResult.t) (rid : Z) :
  forallb not_susp l = true -> merge_loop fuel l rid = Some [].
Proof.
  revert l; induction fuel as [|fuel IH]; intros l H; cbn [merge_loop]; auto.
  destruct l as [|b t]; auto.
  simpl in H; apply andb_true_iff in H as [Hb Ht]; unfold not_susp in Hb.
  rewrite Hb; apply IH; auto.
Qed.

Lemma merge_loop_skip (fuel : nat) (pre l : list BlockResult.t) (rid : Z) :
  forallb not_susp pre = true ->
  merge_loop (length pre + fuel) (pre ++ l) rid = merge_loop fuel l rid.
Proof.
  induction pre as [|b t IH]; intros H; simpl; auto.
  simpl in H; apply andb_true_iff in H as [Hb Ht]; unfold not_susp in Hb.
  rewrite Hb; apply IH; auto.
Qed.


Lemma take_run_stop (wt : WipeType) (run post : list BlockResult.t) :
  forallb (susp_of wt) run = true -> forallb not_susp post = true ->
  take_run wt (run ++ post) = (run, post).
Proof.
  intros Hr Hp; induction run as [|b t IH]; simpl.
  - destruct post as [|b t]; auto.
    simpl in Hp; apply andb_true_iff in Hp as [Hb _]; unfold not_susp in Hb.
    apply negb_true_iff in Hb; cbn [take_run]; rewrite Hb; reflexivity.
  - simpl in Hr; apply andb_true_iff in Hr as [Hb Ht]; unfold susp_of in Hb.
    rewrite Hb, IH; auto.
Qed.

(** One run of same-label suspicious blocks amid non-suspicious ones gives
    one region. *)
Lemma merge_single_run (pre run post : list BlockResult.t) (b : BlockResult.t)
  (tail : list BlockResult.t) (wt : WipeType) :
  run = b :: tail ->
  forallb not_susp pre = true -> forallb not_susp post = true ->
  forallb (susp_of wt) run = true ->
  _merge_consecutive (pre ++ run ++ post)
  = Some [Region.mk 0 (BlockResult.block_id b * BLOCK_SIZE)
            (BlockResult.block_id (last run b) * BLOCK_SIZE + BLOCK_SIZE - 1)
            (BlockResult.block_id (last run b) * BLOCK_SIZE + BLOCK_SIZE - 1
             - BlockResult.block_id b * BLOCK_SIZE + 1)%Z
            (BlockResult.wipe_type b) (zlen run)
            (Rsum (map BlockResult.entropy run) / IZR (zlen run)) 0.0
            (map BlockResult.block_id run)].
Proof.
  intros -> Hpre Hpost Hrun.
  unfold _merge_consecutive.
  rewrite length_app, merge_loop_skip by auto.
  simpl length; cbn [merge_loop app].
  pose proof Hrun as Hrun'.
  simpl in Hrun'; apply andb_true_iff in Hrun' as [Hb Ht].
  unfold susp_of in Hb; apply andb_true_iff in Hb as [Hbs Hbw].
  rewrite Hbs; cbn [negb].
  assert (Ewt : BlockResult.wipe_type b = wt)
    by (destruct (BlockResult.wipe_type b), wt; try discriminate; reflexivity).
  rewrite Ewt, (take_run_stop wt tail post Ht Hpost).
  unfold run_region.
  rewrite py_div_nz by (unfold zlen; simpl; lia); cbn [obind].
  rewrite merge_loop_nonsusp by auto; cbn [obind].
  subst wt; reflexivity.
Qed.

Lemma aggregate_nonempty (results : list BlockResult.t) :
  results <> [] ->
  aggregate results =
    (raw <- _merge_consecutive results ;;
     absorbed <- _absorb_noise raw results ;;
     let sized := _filter_by_size absorbed in
     with_multi <- _detect_multi_pass sized results ;;
     let clean := _suppress_false_positives with_multi results in
     scored <- _compute_confidence clean results ;;
     Some (number_from 1 scored)).
Proof. destruct results; [congruence|reflexivity]. Qed.

Lemma app_run_nonempty (pre run post : list BlockResult.t) :
  run <> [] -> pre ++ run ++ post <> [].
Proof. destruct pre, run; simpl; congruence. Qed.

Lemma susp_of_head (wt : WipeType) (b : BlockResult.t) (tail : list BlockResult.t) :
  forallb (susp_of wt) (b :: tail) = true -> BlockResult.wipe_type b = wt.
Proof.
  simpl; intros H; apply andb_true_iff in H as [H _]; unfold susp_of in H.
  apply andb_true_iff in H as [_ H].
  destruct (BlockResult.wipe_type b), wt; try discriminate; reflexivity.
Qed.

Lemma aggregate_run15 (pre run post : list BlockResult.t) :
      forallb not_susp pre = true -> forallb not_susp post = true ->
      forallb (susp_of ZERO_WIPE) run = true -> length run = 15%nat ->
      aggregate (pre ++ run ++ post) = Some [].
Proof.
  intros Hpre Hpost Hrun Hlen.
  assert (Hz : zlen run = 15%Z) by (unfold zlen; rewrite Hlen; reflexivity).
  destruct run as [|b tail] eqn:Er; [discriminate|]; rewrite <- Er in *.
  rewrite aggregate_nonempty by (apply app_run_nonempty; congruence).
  rewrite (merge_single_run pre run post b tail ZERO_WIPE Er Hpre Hpost Hrun); cbn [obind].
  unfold _absorb_noise; cbn [obind].
  unfold _filter_by_size; cbn [filter Region.block_count]; rewrite Hz.
  reflexivity.
Qed.
Lemma aggregate_run16 (pre run post : list BlockResult.t) :
      forallb not_susp pre = true -> forallb not_susp post = true ->
      forallb (susp_of ZERO_WIPE) run = true -> length run = 16%nat ->
      forallb (fun b => 0 <=? BlockResult.block_id b)%Z run = true ->
      exists r, aggregate (pre ++ run ++ post) = Some [r] /\
        Region.block_count r = 16%Z /\ Region.wipe_type r = ZERO_WIPE /\
        Region.blocks r = map BlockResult.block_id run.
Proof.
  intros Hpre Hpost Hrun Hlen Hnn.
  assert (Hz : zlen run = 16%Z) by (unfold zlen; rewrite Hlen; reflexivity).
  destruct run as [|b tail] eqn:Er; [discriminate|]; rewrite <- Er in *.
  assert (Ewt : BlockResult.wipe_type b = ZERO_WIPE)
    by (apply (susp_of_head _ b tail); rewrite <- Er; exact Hrun).
  rewrite aggregate_nonempty by (apply app_run_nonempty; congruence).
  rewrite (merge_single_run pre run post b tail ZERO_WIPE Er Hpre Hpost Hrun); cbn [obind].
  unfold _absorb_noise; cbn [obind].
  unfold _filter_by_size; cbn [filter Region.block_count]; rewrite Hz.
  replace (MIN_REGION_BLOCKS <=? 16)%Z with true by reflexivity.
  match goal with |- context [[?R]] =>
    match R with Region.mk _ _ _ _ _ _ _ _ _ => set (Rg := R) end end.
  unfold _detect_multi_pass; cbn [length Nat.ltb Nat.leb MULTI_PASS_MIN_BANDS obind].
  unfold _suppress_false_positives.
  cbn [filter].
  replace (negb (in_PARTIAL_WIPE_TYPES (Region.wipe_type Rg)) || _) with true
    by (subst Rg; cbn [Region.wipe_type]; rewrite Ewt; reflexivity).
  assert (Hok : region_ids_ok Rg).
  { split; subst Rg; cbn [Region.blocks]; [rewrite Er; discriminate|].
    apply Forall_map, Forall_forall; intros x Hx.
    eapply forallb_forall in Hnn; [|exact Hx]; apply Z.leb_le; exact Hnn. }
  destruct (region_confidence_some (pre ++ run ++ post) Rg Hok) as [c Hc].
  cbn [_compute_confidence]; rewrite Hc; cbn [obind number_from].
  eexists; split; [reflexivity|].
  subst Rg; cbn; auto.
Qed.

(** C4: every region [aggregate] returns has at least 16 blocks; hence a
    single run of exactly 15 consecutive suspicious ZERO_WIPE blocks among
    non-suspicious blocks gives no region, and a run of 16 (with the
    reader's non-negative ids) gives exactly one, of those 16 blocks. *)
Theorem aggregate_min_region_blocks :
  (forall results rs,
     aggregate results = Some rs ->
     Forall (fun r => 16 <= Region.block_count r)%Z rs) /\
  (forall pre run post,
     forallb not_susp pre = true -> forallb not_susp post = true ->
     forallb (susp_of ZERO_WIPE) run = true -> length run = 15%nat ->
     aggregate (pre ++ run ++ post) = Some []) /\
  (forall pre run post,
     forallb not_susp pre = true -> forallb not_susp post = true ->
     forallb (susp_of ZERO_WIPE) run = true -> length run = 16%nat ->
     forallb (fun b => 0 <=? BlockResult.block_id b)%Z run = true ->
     exists r, aggregate (pre ++ run ++ post) = Some [r] /\
       Region.block_count r = 16%Z /\ Region.wipe_type r = ZERO_WIPE /\
       Region.blocks r = map BlockResult.block_id run).
Proof.
  split; [|split].
  - intros results rs E; exact (aggregate_min_size results rs E).
  - exact aggregate_run15.
  - exact aggregate_run16.
Qed.

Lemma aggregate_min_region_blocks_witness :
  aggregate ([mkb 0 NORMAL false 3] ++ run_of 1 15 ZERO_WIPE true 0
             ++ [mkb 16 NORMAL false 3]) = Some [] /\
  exists r,
    aggregate ([mkb 0 NORMAL false 3] ++ run_of 1 16 ZERO_WIPE true 0
               ++ [mkb 17 NORMAL false 3]) = Some [r] /\
    Region.block_count r = 16%Z.
Proof.
  destruct aggregate_min_region_blocks as (_ & H15 & H16).
  split.
  - apply H15; reflexivity.
  - destruct (H16 [mkb 0 NORMAL false 3] (run_of 1 16 ZERO_WIPE true 0)
                [mkb 17 NORMAL false 3] eq_refl eq_refl eq_refl eq_refl eq_refl)
      as (r & H1 & H2 & _).
    exists r; split; assumption.
Defined.

(* ------------------------------------------------------------------ *)
(** ** An isolated partial-wipe run: suppression and the fallback *)

(** [aggregate] drops a single run of partial-wipe blocks amid
    non-suspicious blocks: nothing corroborates it. *)
Lemma aggregate_isolated_partial (pre run post : list BlockResult.t)
  (wt : WipeType) :
  in_PARTIAL_WIPE_TYPES wt = true ->
  forallb not_susp pre = true -> forallb not_susp post = true ->
  forallb (susp_of wt) run = true -> run <> [] ->
  aggregate (pre ++ run ++ post) = Some [].
Proof.
  intros Hwt Hpre Hpost Hrun Hne.
  destruct run as [|b tail] eqn:Er; [congruence|]; rewrite <- Er in *.
  assert (Ewt : BlockResult.wipe_type b = wt)
    by (apply (susp_of_head _ b tail); rewrite <- Er; exact Hrun).
  rewrite aggregate_nonempty by (apply app_run_nonempty; congruence).
  rewrite (merge_single_run pre run post b tail wt Er Hpre Hpost Hrun); cbn [obind].
  unfold _absorb_noise; cbn [obind].
  unfold _filter_by_size; cbn [filter Region.block_count].
  destruct (MIN_REGION_BLOCKS <=? zlen run)%Z; [|reflexivity].
  match goal with |- context [[?R]] =>
    match R with Region.mk _ _ _ _ _ _ _ _ _ => set (Rg := R) end end.
  unfold _detect_multi_pass; cbn [length Nat.ltb Nat.leb MULTI_PASS_MIN_BANDS obind].
  unfold _suppress_false_positives, strong_block_ids.
  cbn [flat_map filter].
  replace (in_STRONG_WIPE_TYPES (Region.wipe_type Rg)) with false
    by (subst Rg; cbn [Region.wipe_type]; rewrite Ewt;
        destruct wt; try discriminate; reflexivity).
  replace (negb (in_PARTIAL_WIPE_TYPES (Region.wipe_type Rg)) || _) with false
    by (subst Rg; cbn [Region.wipe_type]; rewrite Ewt, Hwt; reflexivity).
  reflexivity.
Qed.

Lemma fallback_skip (bs : Z) (l : list BlockResult.t) (rid : Z) :
  forallb not_susp l = true -> fallback_loop bs l [] rid = Some [].
Proof.
  revert rid; induction l as [|b t IH]; intros rid H; [reflexivity|].
  simpl in H; apply andb_true_iff in H as [Hb Ht]; unfold not_susp in Hb.
  apply negb_true_iff in Hb.
  cbn [fallback_loop]; rewrite Hb; cbn [_flush obind].
  rewrite IH by auto; reflexivity.
Qed.

Lemma fallback_pre (bs : Z) (pre l : list BlockResult.t) (rid : Z) :
  forallb not_susp pre = true ->
  fallback_loop bs (pre ++ l) [] rid = fallback_loop bs l [] rid.
Proof.
  induction pre as [|b t IH]; intros H; [reflexivity|].
  simpl in H; apply andb_true_iff in H as [Hb Ht]; unfold not_susp in Hb.
  apply negb_true_iff in Hb.
  cbn [app fallback_loop]; rewrite Hb; cbn [_flush obind].
  replace (rid + zlen (@nil Region.t))%Z with rid by (unfold zlen; simpl; lia).
  rewrite IH by auto.
  destruct (fallback_loop bs l [] rid); reflexivity.
Qed.

Lemma fallback_run (bs : Z) (run l acc : list BlockResult.t) (rid : Z) :
  forallb BlockResult.is_suspicious run = true ->
  fallback_loop bs (run ++ l) acc rid = fallback_loop bs l (acc ++ run) rid.
Proof.
  revert acc; induction run as [|b t IH]; intros acc H.
  - rewrite app_nil_r; reflexivity.
  - simpl in H; apply andb_true_iff in H as [Hb Ht].
    cbn [app fallback_loop]; rewrite Hb, IH by auto.
    rewrite <- app_assoc; reflexivity.
Qed.

Lemma dict_add_nonempty (d : list (WipeType * Z)) (k : WipeType) :
  dict_add d k <> [].
Proof. destruct d as [|[k' v] t]; simpl; [discriminate|]. destruct (WipeType_eqb k k'); discriminate. Qed.

Lemma fold_dict_add_nonempty (l : list BlockResult.t) (d : list (WipeType * Z)) :
  d <> [] -> fold_left (fun d b => dict_add d (BlockResult.wipe_type b)) l d <> [].
Proof.
  revert d; induction l as [|b t IH]; intros d H; simpl; auto.
  apply IH, dict_add_nonempty.
Qed.

Lemma flush_one (bs : Z) (run : list BlockResult.t) (rid : Z) :
  run <> [] -> exists r, _flush bs run rid = Some [r].
Proof.
  intros Hne; destruct run as [|b t]; [congruence|].
  unfold _flush.
  destruct (fold_left (fun d b0 => dict_add d (BlockResult.wipe_type b0)) (b :: t) [])
    as [|[k v] d'] eqn:Ed.
  - exfalso; revert Ed; cbn [fold_left].
    apply fold_dict_add_nonempty, dict_add_nonempty.
  - cbn [py_max_key obind].
    rewrite !py_div_nz by (unfold zlen; simpl; lia); cbn [obind]; eauto.
Qed.

Lemma susp_of_susp (wt : WipeType) (run : list BlockResult.t) :
  forallb (susp_of wt) run = true -> forallb BlockResult.is_suspicious run = true.
Proof.
  induction run as [|b t IH]; simpl; auto.
  intros H; apply andb_true_iff in H as [Hb Ht]; unfold susp_of in Hb.
  apply andb_true_iff in Hb as [Hb _]; rewrite Hb, IH; auto.
Qed.

(** The fallback rebuilds exactly one region from a single suspicious run. *)
Lemma fallback_single_run (bs : Z) (pre run post : list BlockResult.t) :
  forallb not_susp pre = true -> forallb not_susp post = true ->
  forallb BlockResult.is_suspicious run = true -> run <> [] ->
  exists r, fallback_loop bs (pre ++ run ++ post) [] 0 = Some [r].
Proof.
  intros Hpre Hpost Hrun Hne.
  rewrite fallback_pre, fallback_run by auto; cbn [app].
  destruct (flush_one bs run 0 Hne) as [r Hr].
  exists r.
  destruct post as [|p ps].
  - cbn [fallback_loop]; exact Hr.
  - simpl in Hpost; apply andb_true_iff in Hpost as [Hp Hps]; unfold not_susp in Hp.
    apply negb_true_iff in Hp.
    cbn [fallback_loop]; rewrite Hp, Hr; cbn [obind].
    rewrite fallback_skip by auto; reflexivity.
Qed.

Lemma filter_susp_single_run (pre run post : list BlockResult.t) :
  forallb not_susp pre = true -> forallb not_susp post = true ->
  forallb BlockResult.is_suspicious run = true ->
  filter BlockResult.is_suspicious (pre ++ run ++ post) = run.
Proof.
  intros Hpre Hpost Hrun.
  rewrite !filter_app.
  assert (E1 : forall l, forallb not_susp l = true ->
                 filter BlockResult.is_suspicious l = []).
  { induction l as [|b t IH]; simpl; auto; intros H.
    apply andb_true_iff in H as [Hb Ht]; unfold not_susp in Hb.
    apply negb_true_iff in Hb; rewrite Hb; auto. }
  rewrite (E1 pre Hpre), (E1 post Hpost).
  rewrite (filter_all _ run)
    by (intros x Hx; eapply forallb_forall in Hrun; eauto).
  rewrite app_nil_r; reflexivity.
Qed.

Lemma density_verdict_not_negligible (wd : R) (n : Z) :
  (2 <= n)%Z -> density_verdict_of wd n <> NEGLIGIBLE.
Proof.
  intros Hn; unfold density_verdict_of.
  destruct (Rltb 0.30 wd); [discriminate|].
  destruct (Rltb 0.10 wd); [discriminate|].
  destruct (Rltb 0.02 wd); [discriminate|].
  replace (2 <=? n)%Z with true by (symmetry; apply Z.leb_le; lia); discriminate.
Qed.

Lemma verdict_max_not_negligible (a b : Verdict) :
  b <> NEGLIGIBLE -> verdict_max a b <> NEGLIGIBLE.
Proof.
  intros H; destruct a, b; try (exfalso; apply H; reflexivity);
    vm_compute; discriminate.
Qed.

(** The scanner on a single isolated partial-wipe run of at least two
    blocks: [aggregate] suppresses the region, the fallback rebuilds it, and
    the density floor lifts the verdict above NEGLIGIBLE. *)
Lemma run_scan_isolated_partial (pre run post : list BlockResult.t)
  (wt : WipeType) :
  in_PARTIAL_WIPE_TYPES wt = true ->
  forallb not_susp pre = true -> forallb not_susp post = true ->
  forallb (susp_of wt) run = true -> (2 <= length run)%nat ->
  aggregate (pre ++ run ++ post) = Some [] /\
  exists rs st,
    run_scan_core (pre ++ run ++ post) = Some (rs, st) /\
    length rs = 1%nat /\
    ScanStats.regions_count st = 1%Z /\
    ScanStats.suspicious_blocks st = zlen run /\
    ScanStats.wipe_density st = IZR (zlen run) / IZR (zlen (pre ++ run ++ post)) /\
    ScanStats.verdict st
      = verdict_max (score_verdict_of (ScanStats.intent_score st))
          (density_verdict_of (ScanStats.wipe_density st)
             (ScanStats.suspicious_blocks st)) /\
    ScanStats.verdict st <> NEGLIGIBLE.
Proof.
  intros Hwt Hpre Hpost Hrun Hlen.
  assert (Hne : run <> []) by (destruct run; simpl in Hlen; [lia|discriminate]).
  pose proof (susp_of_susp wt run Hrun) as Hs.
  pose proof (aggregate_isolated_partial pre run post wt Hwt Hpre Hpost Hrun Hne) as Hagg.
  split; [exact Hagg|].
  destruct (fallback_single_run
              (match pre ++ run ++ post with
               | b0 :: b1 :: _ =>
                   let bs := (BlockResult.offset b1 - BlockResult.offset b0)%Z in
                   if (bs <=? 0)%Z then 512%Z else bs
               | _ => 512%Z
               end) pre run post Hpre Hpost Hs Hne) as [r Hr].
  assert (Hfb : _fallback_aggregate (pre ++ run ++ post) = Some [r]) by exact Hr.
  assert (Hall : pre ++ run ++ post <> []) by (apply app_run_nonempty; auto).
  destruct (compute_score_spec (pre ++ run ++ post) [r] Hall)
    as (st & Hst & _ & Hsb & Hwd & Hrc & Hv).
  rewrite filter_susp_single_run in Hsb, Hwd by auto.
  exists [r], st.
  unfold run_scan_core; rewrite Hagg; cbn [obind].
  rewrite filter_susp_single_run by auto.
  replace ((zlen (@nil Region.t) =? 0)%Z && (zlen run >? 0)%Z) with true
    by (symmetry; apply andb_true_iff; split; [reflexivity|];
        apply Z.gtb_lt; unfold zlen; lia).
  rewrite Hfb; cbn [obind]; rewrite Hst; cbn [obind].
  split; [reflexivity|]. split; [reflexivity|].
  split; [rewrite Hrc; reflexivity|].
  split; [exact Hsb|]. split; [exact Hwd|]. split; [exact Hv|].
  rewrite Hv; apply verdict_max_not_negligible, density_verdict_not_negligible.
  rewrite Hsb; unfold zlen; lia.
Qed.

(** C1 (as stated, refuted): a scan of one isolated LIKELY_ZERO_WIPE run of
    40 blocks, with no strong-wipe block at all.  [aggregate] suppresses the
    region, but the scanner's fallback rebuilds it: the result has
    [regions_count = 1] and verdict HIGH, not 0 and NEGLIGIBLE. *)
Lemma isolated_partial_region_counterexample :
  forallb (fun b => negb (in_STRONG_WIPE_TYPES (BlockResult.wipe_type b)))
    partial_scan = true /\
  aggregate partial_scan = Some [] /\
  exists rs st,
    run_scan_core partial_scan = Some (rs, st) /\
    ScanStats.regions_count st = 1%Z /\
    ScanStats.verdict st = HIGH.
Proof.
  destruct (run_scan_isolated_partial [] partial_scan [] LIKELY_ZERO_WIPE
              eq_refl eq_refl eq_refl eq_refl ltac:(vm_compute; lia))
    as (Hagg & rs & st & Hrun & _ & Hrc & _ & Hwd & Hv & _).
  split; [reflexivity|]. split; [exact Hagg|].
  exists rs, st; split; [exact Hrun|]. split; [exact Hrc|].
  rewrite Hv, (density_verdict_high _ _); [apply verdict_max_high|].
  rewrite Hwd; vm_compute; lra.
Qed.

(** C1 (amended): a scan whose only suspicious blocks form one run of at
    least two LIKELY_ZERO_WIPE blocks (say 40), all other blocks
    non-suspicious: [aggregate] suppresses the uncorroborated region and
    returns no region, but the scanner then runs its fallback, which
    rebuilds the run as one region; the result has [regions_count = 1] and
    a verdict above NEGLIGIBLE (the density floor gives at least LOW), and
    the verdict is HIGH when the run is more than 30% of all blocks. *)
Theorem isolated_partial_region_fallback (pre run post : list BlockResult.t) :
  forallb not_susp pre = true -> forallb not_susp post = true ->
  forallb (susp_of LIKELY_ZERO_WIPE) run = true -> (2 <= length run)%nat ->
  aggregate (pre ++ run ++ post) = Some [] /\
  exists rs st,
    run_scan_core (pre ++ run ++ post) = Some (rs, st) /\
    length rs = 1%nat /\
    ScanStats.regions_count st = 1%Z /\
    ScanStats.verdict st <> NEGLIGIBLE /\
    (0.30 * IZR (zlen (pre ++ run ++ post)) < IZR (zlen run) ->
     ScanStats.verdict st = HIGH).
Proof.
  intros Hpre Hpost Hrun Hlen.
  destruct (run_scan_isolated_partial pre run post LIKELY_ZERO_WIPE
              eq_refl Hpre Hpost Hrun Hlen)
    as (Hagg & rs & st & Hscan & Hrs & Hrc & _ & Hwd & Hv & Hnn).
  split; [exact Hagg|].
  exists rs, st; split; [exact Hscan|]. split; [exact Hrs|].
  split; [exact Hrc|]. split; [exact Hnn|].
  intros H30; rewrite Hv, density_verdict_high; [apply verdict_max_high|].
  rewrite Hwd.
  assert (HN : 0 < IZR (zlen (pre ++ run ++ post))).
  { apply IZR_lt; unfold zlen; rewrite !length_app; lia. }
  apply (Rmult_lt_reg_r (IZR (zlen (pre ++ run ++ post)))); [exact HN|].
  unfold Rdiv; rewrite Rmult_assoc, Rinv_l by lra; lra.
Qed.

Lemma isolated_partial_region_fallback_witness :
  exists rs st,
    run_scan_core ([mkb 0 NORMAL false 3] ++ run_of 1 40 LIKELY_ZERO_WIPE true 4
                   ++ [mkb 41 NORMAL false 3]) = Some (rs, st) /\
    length rs = 1%nat /\ ScanStats.verdict st = HIGH.
Proof.
  destruct (isolated_partial_region_fallback [mkb 0 NORMAL false 3]
              (run_of 1 40 LIKELY_ZERO_WIPE true 4) [mkb 41 NORMAL false 3]
              eq_refl eq_refl eq_refl ltac:(vm_compute; lia))
    as (_ & rs & st & H1 & H2 & _ & _ & H3).
  exists rs, st; split; [exact H1|]; split; [exact H2|].
  apply H3; vm_compute; lra.
Defined.

(* ------------------------------------------------------------------ *)
(** ** Re-aggregating the output *)

Lemma last_map_gen {A B} (f : A -> B) (l : list A) (d : A) :
  last (map f l) (f d) = f (last l d).
Proof.
  induction l as [|a t IH]; [reflexivity|].
  destruct t as [|a' t']; [reflexivity|].
  change (last (map f (a' :: t')) (f d) = f (last (a' :: t') d)); exact IH.
Qed.

Lemma aggregate_empty_stage (results : list BlockResult.t) :
  (absorbed <- _absorb_noise [] results ;;
   let sized := _filter_by_size absorbed in
   with_multi <- _detect_multi_pass sized results ;;
   let clean := _suppress_false_positives with_multi results in
   scored <- _compute_confidence clean results ;;
   Some (number_from 1 scored)) = Some [].
Proof. reflexivity. Qed.

(** A single run of suspicious blocks of one label among non-suspicious
    blocks gives one region of exactly those blocks when it has at least
    [MIN_REGION_BLOCKS] blocks and a label outside the partial ones, and
    no region otherwise. *)
Lemma aggregate_single_run (pre run post : list BlockResult.t)
  (b : BlockResult.t) (tail : list BlockResult.t) (wt : WipeType) :
  run = b :: tail ->
  forallb not_susp pre = true -> forallb not_susp post = true ->
  forallb (susp_of wt) run = true ->
  forallb (fun b => 0 <=? BlockResult.block_id b)%Z run = true ->
  exists rs, aggregate (pre ++ run ++ post) = Some rs /\
    map region_sig rs =
    (if (MIN_REGION_BLOCKS <=? zlen run)%Z && negb (in_PARTIAL_WIPE_TYPES wt)
     then [(BlockResult.block_id b * BLOCK_SIZE,
            BlockResult.block_id (last run b) * BLOCK_SIZE + BLOCK_SIZE - 1,
            wt, map BlockResult.block_id run)%Z]
     else []).
Proof.
  intros Er Hpre Hpost Hrun Hnn.
  assert (Ewt : BlockResult.wipe_type b = wt)
    by (apply (susp_of_head _ b tail); rewrite <- Er; exact Hrun).
  destruct (in_PARTIAL_WIPE_TYPES wt) eqn:Hp.
  - exists []; split; [|rewrite andb_false_r; reflexivity].
    apply (aggregate_isolated_partial pre run post wt); auto; congruence.
  - rewrite andb_true_r.
    rewrite aggregate_nonempty by (apply app_run_nonempty; congruence).
    rewrite (merge_single_run pre run post b tail wt Er Hpre Hpost Hrun); cbn [obind].
    unfold _absorb_noise; cbn [obind].
    unfold _filter_by_size; cbn [filter Region.block_count].
    destruct (MIN_REGION_BLOCKS <=? zlen run)%Z eqn:Hsz.
    + match goal with |- context [[?R]] =>
        match R with Region.mk _ _ _ _ _ _ _ _ _ => set (Rg := R) end end.
      unfold _detect_multi_pass; cbn [length Nat.ltb Nat.leb MULTI_PASS_MIN_BANDS obind].
      unfold _suppress_false_positives.
      cbn [filter].
      replace (negb (in_PARTIAL_WIPE_TYPES (Region.wipe_type Rg)) || _) with true
        by (subst Rg; cbn [Region.wipe_type]; rewrite Ewt, Hp; reflexivity).
      assert (Hok : region_ids_ok Rg).
      { split; subst Rg; cbn [Region.blocks]; [rewrite Er; discriminate|].
        apply Forall_map, Forall_forall; intros x Hx.
        eapply forallb_forall in Hnn; [|exact Hx]; apply Z.leb_le; exact Hnn. }
      destruct (region_confidence_some (pre ++ run ++ post) Rg Hok) as [c Hc].
      cbn [_compute_confidence]; rewrite Hc; cbn [obind number_from].
      eexists; split; [reflexivity|].
      subst Rg; cbn; rewrite Ewt; reflexivity.
    + exists []; split; [|reflexivity].
      exact (aggregate_empty_stage (pre ++ run ++ post)).
Qed.

Lemma aggregate_nonsusp (l : list BlockResult.t) :
  forallb not_susp l = true -> aggregate l = Some [].
Proof.
  intros H; destruct l as [|b t]; [reflexivity|].
  rewrite aggregate_nonempty by discriminate.
  unfold _merge_consecutive; rewrite merge_loop_nonsusp by exact H; cbn [obind].
  apply aggregate_empty_stage.
Qed.

Lemma WipeType_eqb_refl (t : WipeType) : WipeType_eqb t t = true.
Proof. destruct t; reflexivity. Qed.

Lemma synthetic_stream_one (r : Region.t) :
  synthetic_stream [r]
  = [] ++ map (fun bid => mkb bid (Region.wipe_type r) true 0) (Region.blocks r) ++ [].
Proof. unfold synthetic_stream; cbn [flat_map app]; rewrite !app_nil_r; reflexivity. Qed.

(** C7 (amended): for an input made of one run of suspicious blocks of a
    single label with non-negative ids, between non-suspicious blocks,
    re-aggregating the flat stream of the output reproduces the same
    regions: same start and end offsets, label and member blocks, in
    order. *)
Theorem aggregate_single_run_idempotent (pre run post : list BlockResult.t)
  (wt : WipeType) :
  forallb not_susp pre = true -> forallb not_susp post = true ->
  forallb (susp_of wt) run = true ->
  forallb (fun b => 0 <=? BlockResult.block_id b)%Z run = true ->
  exists rs rs',
    aggregate (pre ++ run ++ post) = Some rs /\
    aggregate (synthetic_stream rs) = Some rs' /\
    map region_sig rs' = map region_sig rs.
Proof.
  intros Hpre Hpost Hrun Hnn.
  destruct run as [|b tail] eqn:Er.
  - exists [], []; split; [|split; reflexivity].
    apply aggregate_nonsusp; cbn [app]; rewrite forallb_app, Hpre, Hpost; reflexivity.
  - rewrite <- Er in *.
    destruct (aggregate_single_run pre run post b tail wt Er Hpre Hpost Hrun Hnn)
      as (rs & Hrs & Hsig).
    exists rs.
    destruct ((MIN_REGION_BLOCKS <=? zlen run)%Z && negb (in_PARTIAL_WIPE_TYPES wt))
      eqn:Hc.
    + destruct rs as [|r [|r' rs'']]; try discriminate.
      cbn [map region_sig] in Hsig; injection Hsig as Hs He Hw Hb.
      set (f := fun x : BlockResult.t => mkb (BlockResult.block_id x) wt true 0).
      assert (Hsyn : synthetic_stream [r] = [] ++ map f run ++ []).
      { rewrite synthetic_stream_one, Hb, Hw, map_map; reflexivity. }
      destruct (aggregate_single_run [] (map f run) [] (f b) (map f tail) wt)
        as (rs' & Hrs' & Hsig').
      * rewrite Er; reflexivity.
      * reflexivity.
      * reflexivity.
      * apply forallb_forall; intros x Hx; apply in_map_iff in Hx as (y & <- & _).
        unfold susp_of, f, mkb, _result; cbn; apply WipeType_eqb_refl.
      * apply forallb_forall; intros x Hx; apply in_map_iff in Hx as (y & <- & Hy).
        unfold f, mkb, _result; cbn; eapply forallb_forall in Hnn; [exact Hnn|exact Hy].
      * exists rs'; split; [exact Hrs|]; split; [rewrite Hsyn; exact Hrs'|].
        rewrite Hsig'.
        replace (zlen (map f run)) with (zlen run) by (unfold zlen; rewrite length_map; reflexivity).
        rewrite Hc, last_map_gen, map_map.
        cbn [map region_sig]; unfold f, mkb, _result; cbn [BlockResult.block_id].
        unfold region_sig; rewrite Hs, He, Hw, Hb; reflexivity.
    + destruct rs; [|discriminate].
      exists []; split; [exact Hrs|split; reflexivity].
Qed.

Lemma aggregate_single_run_idempotent_witness :
  forallb not_susp [] = true /\ forallb not_susp [] = true /\
  forallb (susp_of ZERO_WIPE) (run_of 0 16 ZERO_WIPE true 0) = true /\
  forallb (fun b => 0 <=? BlockResult.block_id b)%Z (run_of 0 16 ZERO_WIPE true 0) = true /\
  exists rs rs',
    aggregate ([] ++ run_of 0 16 ZERO_WIPE true 0 ++ []) = Some rs /\
    aggregate (synthetic_stream rs) = Some rs' /\
    map region_sig rs' = map region_sig rs.
Proof.
  refine (conj eq_refl (conj eq_refl (conj eq_refl (conj eq_refl _)))).
  apply (aggregate_single_run_idempotent [] (run_of 0 16 ZERO_WIPE true 0) []
           ZERO_WIPE); vm_compute; reflexivity.
Defined.

(** C7 counterexample: 16 ZERO_WIPE blocks, one LIKELY_ZERO_WIPE block and
    16 more ZERO_WIPE blocks give two ZERO_WIPE regions (the single
    LIKELY_ZERO_WIPE block is dropped by the size filter); fed back as a
    stream of their members, or as a dense stream, they give one region. *)
Lemma aggregate_resynthesis_counterexample :
  option_map (map region_sig) (aggregate split_scan)
  = Some [(0, 8191, ZERO_WIPE, zrange 0 16); (8704, 16895, ZERO_WIPE, zrange 17 33)]%Z /\
  option_map (map region_sig)
    (rs <- aggregate split_scan ;; aggregate (synthetic_stream rs))
  = Some [(0, 16895, ZERO_WIPE, zrange 0 16 ++ zrange 17 33)]%Z /\
  option_map (map region_sig)
    (rs <- aggregate split_scan ;; aggregate (synthetic_dense (length split_scan) rs))
  = Some [(0, 16895, ZERO_WIPE, zrange 0 33)]%Z.
Proof. split; [|split]; vm_compute; reflexivity. Qed.

(* ------------------------------------------------------------------ *)
(** ** Region layout: sorted, disjoint, offsets from the member lists *)

Lemma SS_app_iff {A} (R : A -> A -> Prop) (l1 l2 : list A) :
  StronglySorted R (l1 ++ l2) <->
  StronglySorted R l1 /\ StronglySorted R l2 /\
  Forall (fun x => Forall (R x) l2) l1.
Proof.
  induction l1 as [|a t IH]; simpl.
  - split; [intros H; repeat split; auto; constructor | intros (_ & H & _); exact H].
  - split.
    + intros H; apply StronglySorted_inv in H as [H1 H2].
      apply IH in H1 as (Ht & Hl2 & Hx).
      apply Forall_app in H2 as [Ha1 Ha2].
      repeat split; auto; constructor; auto.
    + intros (H1 & Hl2 & Hx).
      apply StronglySorted_inv in H1 as [Ht Ha].
      inversion Hx as [|? ? Hax Htx]; subst.
      constructor; [apply IH; auto|].
      apply Forall_app; auto.
Qed.

Lemma SS_filter {A} (R : A -> A -> Prop) (f : A -> bool) (l : list A) :
  StronglySorted R l -> StronglySorted R (filter f l).
Proof.
  induction l as [|a t IH]; simpl; intros H; [constructor|].
  apply StronglySorted_inv in H as [Ht Ha].
  destruct (f a); auto.
  constructor; auto.
  apply Forall_forall; intros x Hx; apply filter_In in Hx as [Hx _].
  eapply Forall_forall in Ha; eauto.
Qed.

Lemma SS_weaken {A} (P : A -> Prop) (R R' : A -> A -> Prop) (l : list A) :
  (forall x y, P x -> P y -> R x y -> R' x y) ->
  Forall P l -> StronglySorted R l -> StronglySorted R' l.
Proof.
  intros HR; induction l as [|a t IH]; intros HP H; [constructor|].
  inversion HP as [|? ? Pa Pt]; subst.
  apply StronglySorted_inv in H as [Ht Ha].
  constructor; auto.
  apply Forall_forall; intros x Hx.
  apply HR; auto.
  - eapply Forall_forall in Pt; eauto.
  - eapply Forall_forall in Ha; eauto.
Qed.

Lemma last_default {A} (l : list A) (d1 d2 : A) :
  l <> [] -> last l d1 = last l d2.
Proof.
  induction l as [|a t IH]; intros H; [congruence|].
  destruct t as [|b t']; [reflexivity|].
  change (last (b :: t') d1 = last (b :: t') d2); apply IH; discriminate.
Qed.

Lemma last_in {A} (l : list A) (d : A) : l <> [] -> In (last l d) l.
Proof.
  induction l as [|a t IH]; intros H; [congruence|].
  destruct t as [|b t']; [left; reflexivity|].
  right; apply IH; discriminate.
Qed.

Lemma last_app_ne {A} (l1 l2 : list A) (d : A) :
  l2 <> [] -> last (l1 ++ l2) d = last l2 d.
Proof.
  induction l1 as [|a t IH]; intros H; [reflexivity|].
  cbn [app]; rewrite <- IH by exact H.
  destruct (t ++ l2) eqn:E; [apply app_eq_nil in E as [_ E]; congruence|reflexivity].
Qed.

Lemma hd_in {A} (l : list A) (d : A) : l <> [] -> In (hd d l) l.
Proof. destruct l; [congruence|left; reflexivity]. Qed.

(** In a strictly sorted list, the head is the least and the last
    element the greatest. *)
Lemma SS_hd_le (l : list Z) (x : Z) :
  StronglySorted Z.lt l -> In x l -> (hd 0 l <= x)%Z.
Proof.
  destruct l as [|a t]; [intros _ []|]; intros H Hx.
  apply StronglySorted_inv in H as [_ Ha]; destruct Hx as [<-|Hx]; [cbn; lia|].
  eapply Forall_forall in Ha; [|exact Hx]; cbn; lia.
Qed.

Lemma SS_le_last (l : list Z) (x : Z) :
  StronglySorted Z.lt l -> In x l -> (x <= last l 0)%Z.
Proof.
  induction l as [|a t IH]; intros H Hx; [destruct Hx|].
  apply StronglySorted_inv in H as [Ht Ha].
  destruct t as [|b t'].
  - destruct Hx as [<-|[]]; cbn; lia.
  - change (last (a :: b :: t') 0%Z) with (last (b :: t') 0%Z).
    destruct Hx as [<-|Hx].
    + pose proof (last_in (b :: t') 0%Z ltac:(discriminate)) as Hl.
      eapply Forall_forall in Ha; [|exact Hl]; lia.
    + apply IH; auto.
Qed.

Lemma Forall_flat_map_iff {A B} (P : B -> Prop) (f : A -> list B) (l : list A) :
  Forall P (flat_map f l) <-> Forall (fun a => Forall P (f a)) l.
Proof.
  rewrite !Forall_forall; split.
  - intros H a Ha; apply Forall_forall; intros x Hx; apply H, in_flat_map; eauto.
  - intros H x Hx; apply in_flat_map in Hx as (a & Ha & Hx).
    specialize (H a Ha); rewrite Forall_forall in H; auto.
Qed.

Lemma before_all (r : Region.t) (t : list Region.t) :
  Forall (blocks_before r) t <->
  Forall (fun x => Forall (Z.lt x) (flat_map Region.blocks t)) (Region.blocks r).
Proof.
  unfold blocks_before; rewrite !Forall_forall; split.
  - intros H x Hx; apply Forall_flat_map_iff, Forall_forall; intros r' Hr'.
    specialize (H r' Hr'); rewrite Forall_forall in H; auto.
  - intros H r' Hr'; apply Forall_forall; intros x Hx.
    specialize (H x Hx); rewrite Forall_flat_map_iff, Forall_forall in H; auto.
Qed.

Lemma ordered_iff (rs : list Region.t) :
  regions_ordered rs <->
  Forall region_shape_ok rs /\ StronglySorted Z.lt (flat_map Region.blocks rs).
Proof.
  unfold regions_ordered; induction rs as [|r t IH].
  - cbn; split; intros [H1 H2]; split; auto; constructor.
  - cbn [flat_map]; rewrite SS_app_iff, <- before_all; split.
    + intros [Hf Hs]; inversion Hf as [|? ? Hr Ht]; subst.
      apply StronglySorted_inv in Hs as [Hst Hb].
      destruct (proj1 IH (conj Ht Hst)) as [_ Hflat].
      split; [exact Hf|]; repeat split; auto.
      apply Hr.
    + intros [Hf (Hr & Hflat & Hb)]; inversion Hf as [|? ? Hsr Ht]; subst.
      destruct (proj2 IH (conj Ht Hflat)) as [_ Hst].
      split; [exact Hf|]; constructor; auto.
Qed.

Lemma shape_sig (r r' : Region.t) :
  region_sig r = region_sig r' -> region_shape_ok r -> region_shape_ok r'.
Proof.
  unfold region_sig, region_shape_ok; intros E.
  assert (Es : Region.start_offset r = Region.start_offset r') by congruence.
  assert (Ee : Region.end_offset r = Region.end_offset r') by congruence.
  assert (Eb : Region.blocks r = Region.blocks r') by congruence.
  rewrite <- Es, <- Ee, <- Eb; auto.
Qed.

Lemma flat_blocks_sig (rs rs' : list Region.t) :
  map region_sig rs = map region_sig rs' ->
  flat_map Region.blocks rs = flat_map Region.blocks rs'.
Proof.
  revert rs'; induction rs as [|r t IH]; intros [|r' t'] E; try discriminate; auto.
  cbn [map] in E.
  assert (E1 : region_sig r = region_sig r') by congruence.
  assert (E2 : map region_sig t = map region_sig t') by congruence.
  cbn [flat_map]; f_equal; [|apply IH; auto].
  unfold region_sig in E1; congruence.
Qed.

Lemma ordered_sig (rs rs' : list Region.t) :
  map region_sig rs = map region_sig rs' -> regions_ordered rs -> regions_ordered rs'.
Proof.
  intros E H; apply ordered_iff in H as [Hf Hs]; apply ordered_iff.
  pose proof (flat_blocks_sig rs rs' E) as Eb.
  rewrite <- Eb; split; auto.
  clear Hs Eb; revert rs' E; induction Hf as [|r t Hr Ht IH]; intros [|r' t'] E;
    try discriminate; constructor.
  - cbn [map] in E; eapply shape_sig; [|exact Hr]; congruence.
  - cbn [map] in E; apply IH; congruence.
Qed.

Lemma ordered_offsets (rs : list Region.t) :
  regions_ordered rs ->
  StronglySorted (fun r1 r2 =>
    Region.start_offset r1 < Region.start_offset r2 /\
    Region.end_offset r1 < Region.start_offset r2)%Z rs.
Proof.
  intros [Hf Hs]; revert Hs; apply (SS_weaken region_shape_ok); [|exact Hf].
  intros r1 r2 (Hn1 & Hs1 & Hst1 & He1) (Hn2 & Hs2 & Hst2 & He2) Hb.
  unfold blocks_before in Hb.
  pose proof (last_in (Region.blocks r1) 0%Z Hn1) as Hl1.
  pose proof (hd_in (Region.blocks r2) 0%Z Hn2) as Hh2.
  eapply Forall_forall in Hb; [|exact Hl1].
  eapply Forall_forall in Hb; [|exact Hh2].
  pose proof (SS_hd_le _ _ Hs1 Hl1).
  rewrite Hst1, He1, Hst2; unfold BLOCK_SIZE; lia.
Qed.

Lemma ordered_filter (f : Region.t -> bool) (rs : list Region.t) :
  regions_ordered rs -> regions_ordered (filter f rs).
Proof.
  intros [Hf Hs]; split; [apply Forall_filter_sub; auto|apply SS_filter; auto].
Qed.

Lemma map_app_cons {A B} (f : A -> B) (a : A) (l1 l2 : list A) :
  map f (a :: l1 ++ l2) = map f (a :: l1) ++ map f l2.
Proof. cbn [map app]; rewrite map_app; reflexivity. Qed.

Lemma merge_loop_ordered (fuel : nat) (results : list BlockResult.t) (rid : Z)
  (rs : list Region.t) :
  StronglySorted Z.lt (map BlockResult.block_id results) ->
  merge_loop fuel results rid = Some rs ->
  regions_ordered rs /\
  (forall x, In x (flat_map Region.blocks rs) -> In x (map BlockResult.block_id results)).
Proof.
  revert results rid rs; induction fuel as [|fuel IH]; intros results rid rs Hs E;
    cbn [merge_loop] in E.
  - injection E as <-; split; [apply ordered_iff; split; constructor|intros x []].
  - destruct results as [|block rest].
    + injection E as <-; split; [apply ordered_iff; split; constructor|intros x []].
    + cbn [map] in Hs; apply StronglySorted_inv in Hs as [Hsr Hb].
      destruct (negb (BlockResult.is_suspicious block)).
      * destruct (IH rest rid rs Hsr E) as [Ho Hin]; split; auto.
        intros x Hx; right; auto.
      * pose proof (take_run_app (BlockResult.wipe_type block) rest) as Hrest.
        destruct (take_run (BlockResult.wipe_type block) rest) as [run rest'].
        cbn [fst snd] in Hrest.
        unfold run_region in E.
        rewrite py_div_nz in E by (unfold zlen; cbn [length]; lia); cbn [obind] in E.
        destruct (merge_loop fuel rest' (rid + 1)%Z) as [l|] eqn:Em;
          cbn [obind] in E; [|discriminate].
        injection E as <-.
        assert (Hall : StronglySorted Z.lt
                  (map BlockResult.block_id (block :: run) ++ map BlockResult.block_id rest')).
        { rewrite <- map_app_cons, <- Hrest; cbn [map]; constructor; auto. }
        apply SS_app_iff in Hall as (Hs1 & Hs2 & Hx).
        destruct (IH rest' (rid + 1)%Z l Hs2 Em) as [Ho Hin].
        apply ordered_iff in Ho as [Hf Hfl].
        split.
        -- apply ordered_iff; split.
           ++ constructor; [|exact Hf].
              unfold region_shape_ok; cbn [Region.blocks Region.start_offset Region.end_offset].
              split; [discriminate|]; split; [exact Hs1|]; split; [reflexivity|].
              rewrite (last_default _ 0%Z (BlockResult.block_id block)) by discriminate.
              change (BlockResult.block_id block :: map BlockResult.block_id run)
                with (map BlockResult.block_id (block :: run)).
              rewrite last_map_gen; reflexivity.
           ++ cbn [flat_map Region.blocks]; apply SS_app_iff; split; [exact Hs1|]; split; [exact Hfl|].
              apply Forall_forall; intros x Hx1; apply Forall_forall; intros y Hy.
              eapply Forall_forall in Hx; [|exact Hx1].
              eapply Forall_forall in Hx; [|apply Hin; exact Hy]; exact Hx.
        -- intros x Hx1; cbn [flat_map Region.blocks] in Hx1.
           rewrite Hrest, map_app_cons.
           apply in_app_or in Hx1 as [Hx1|Hx1]; apply in_or_app; [left; exact Hx1|right; auto].
Qed.

Lemma SS_map {A B} (R : A -> A -> Prop) (R' : B -> B -> Prop) (f : A -> B)
  (l : list A) :
  (forall x y, R x y -> R' (f x) (f y)) ->
  StronglySorted R l -> StronglySorted R' (map f l).
Proof.
  intros Hf; induction l as [|a t IH]; intros H; cbn [map]; [constructor|].
  apply StronglySorted_inv in H as [Ht Ha]; constructor; auto.
  apply Forall_map; eapply Forall_impl; [|exact Ha]; auto.
Qed.

Lemma SS_seq (s n : nat) : StronglySorted Nat.lt (seq s n).
Proof.
  revert s; induction n as [|n IH]; intros s; cbn [seq]; constructor; auto.
  apply Forall_forall; intros x Hx; apply in_seq in Hx; lia.
Qed.

Lemma zrange_sorted (a b : Z) : StronglySorted Z.lt (zrange a b).
Proof. unfold zrange; apply (SS_map Nat.lt); [intros; lia|apply SS_seq]. Qed.

Lemma in_zrange (a b y : Z) : In y (zrange a b) -> (a <= y < b)%Z.
Proof.
  unfold zrange; intros H; apply in_map_iff in H as (k & <- & Hk).
  apply in_seq in Hk; lia.
Qed.

Lemma ordered_mid (A B : list Region.t) (p c : Region.t) :
  regions_ordered (A ++ p :: c :: B) ->
  region_shape_ok p /\ region_shape_ok c /\ blocks_before p c.
Proof.
  intros [Hf Hs].
  apply Forall_app in Hf as [_ Hf]; inversion Hf as [|? ? Hp Hf']; subst.
  inversion Hf' as [|? ? Hc _]; subst.
  apply SS_app_iff in Hs as (_ & Hs & _).
  apply StronglySorted_inv in Hs as [_ Hb]; inversion Hb; subst; auto.
Qed.

Lemma absorb_fuse_ordered (A B : list Region.t) (p c F : Region.t) :
  regions_ordered (A ++ p :: c :: B) -> region_shape_ok F ->
  (forall y, In y (Region.blocks F) ->
     hd 0 (Region.blocks p) <= y <= last (Region.blocks c) 0)%Z ->
  regions_ordered (A ++ F :: B).
Proof.
  intros H HF Hy.
  destruct (ordered_mid A B p c H) as ((Hpn & Hps & _) & (Hcn & Hcs & _) & _).
  destruct H as [Hf Hs]; split.
  - apply Forall_app in Hf as [HA Hf]; apply Forall_app; split; auto.
    inversion Hf as [|? ? _ Hf']; inversion Hf' as [|? ? _ HB]; constructor; auto.
  - apply SS_app_iff in Hs as (HsA & Hs & Hx); apply SS_app_iff.
    apply StronglySorted_inv in Hs as [Hs Hp].
    apply StronglySorted_inv in Hs as [HsB Hc].
    split; [exact HsA|]; split.
    + constructor; [exact HsB|].
      apply Forall_forall; intros b Hb; unfold blocks_before.
      apply Forall_forall; intros y Hyb.
      eapply Forall_forall in Hc; [|exact Hb]; unfold blocks_before in Hc.
      eapply Forall_forall in Hc; [|apply (last_in _ 0%Z); exact Hcn].
      eapply Forall_impl; [|exact Hc]; intros z Hz; simpl in Hz.
      specialize (Hy y Hyb); lia.
    + eapply Forall_impl; [|exact Hx]; intros a Ha; simpl in Ha.
      inversion Ha as [|? ? Hap Ha']; subst.
      inversion Ha' as [|? ? _ HaB]; subst.
      constructor; [|exact HaB].
      unfold blocks_before in *; apply Forall_forall; intros x Hxa.
      eapply Forall_forall in Hap; [|exact Hxa].
      eapply Forall_forall in Hap; [|apply (hd_in _ 0%Z); exact Hpn].
      apply Forall_forall; intros y Hyb; specialize (Hy y Hyb); simpl in Hap; lia.
Qed.

Lemma last_cons_default (b : Z) (bs : list Z) (d : Z) :
  last (b :: bs) d = last bs b.
Proof.
  destruct bs as [|x t]; [reflexivity|].
  change (last (b :: x :: t) d) with (last (x :: t) d).
  apply last_default; discriminate.
Qed.

Lemma rev_cons_app (x : Region.t) (older rest : list Region.t) :
  rev (x :: older) ++ rest = rev older ++ x :: rest.
Proof. cbn [rev]; rewrite <- app_assoc; reflexivity. Qed.

Lemma absorb_step_ordered (all_blocks : list BlockResult.t)
  (merged : list Region.t) (curr : Region.t) (rest m : list Region.t) :
  regions_ordered (rev merged ++ curr :: rest) ->
  absorb_step all_blocks merged curr = Some m ->
  regions_ordered (rev m ++ rest).
Proof.
  intros H E; unfold absorb_step in E.
  destruct merged as [|prev older].
  - injection E as <-; exact H.
  - assert (Hkeep : Some (curr :: prev :: older) = Some m ->
                    regions_ordered (rev m ++ rest)).
    { intros E'; injection E' as <-.
      rewrite rev_cons_app; exact H. }
    destruct (negb _); [exact (Hkeep E)|].
    rewrite rev_cons_app in H.
    destruct (ordered_mid _ _ _ _ H)
      as ((Hpn & Hps & Hpst & _) & (Hcn & Hcs & _ & Hcend) & Hpc).
    destruct (Region.blocks prev) as [|b bs] eqn:Ep; [congruence|].
    destruct (Region.blocks curr) as [|c0 cs] eqn:Ec; [congruence|].
    unfold blocks_before in Hpc; rewrite Ep, Ec in Hpc.
    destruct (_ <=? _)%Z; [|exact (Hkeep E)].
    destruct (gather _ _ _); cbn [obind] in E; [|discriminate].
    destruct (mean_or_zero _); cbn [obind] in E; [|discriminate].
    injection E as <-.
    rewrite rev_cons_app.
    unfold blocks_before in Hpc.
    assert (Hlt : (last bs b < c0)%Z).
    { rewrite <- (last_cons_default b bs 0%Z).
      eapply Forall_forall in Hpc; [|apply (last_in _ 0%Z); discriminate].
      inversion Hpc; assumption. }
    assert (Hrange : forall y, In y (b :: bs ++ zrange (last bs b + 1) c0 ++ c0 :: cs) ->
              (b <= y <= last cs c0)%Z).
    { intros y Hy.
      pose proof (SS_hd_le _ _ Hps (or_introl eq_refl)).
      pose proof (SS_le_last _ _ Hps (or_introl eq_refl)).
      pose proof (SS_le_last _ _ Hcs (or_introl eq_refl)).
      change (b :: bs ++ ?l) with ((b :: bs) ++ l) in Hy.
      apply in_app_or in Hy as [Hy|Hy]; [|apply in_app_or in Hy as [Hy|Hy]].
      - pose proof (SS_hd_le _ _ Hps Hy); pose proof (SS_le_last _ _ Hps Hy).
        rewrite !last_cons_default in *; cbn [hd] in *; lia.
      - apply in_zrange in Hy.
        rewrite !last_cons_default in *; cbn [hd] in *; lia.
      - pose proof (SS_hd_le _ _ Hcs Hy); pose proof (SS_le_last _ _ Hcs Hy).
        rewrite !last_cons_default in *; cbn [hd] in *; lia. }
    eapply absorb_fuse_ordered; [exact H| |].
    + unfold region_shape_ok; cbn [Region.blocks Region.start_offset Region.end_offset].
      split; [discriminate|]; split; [|split].
      * change (b :: bs ++ ?l) with ((b :: bs) ++ l).
        apply SS_app_iff; split; [exact Hps|]; split.
        -- apply SS_app_iff; split; [apply zrange_sorted|]; split; [exact Hcs|].
           apply Forall_forall; intros x Hx; apply in_zrange in Hx.
           apply Forall_forall; intros y Hy.
           pose proof (SS_hd_le _ _ Hcs Hy); cbn in *; lia.
        -- apply Forall_forall; intros x Hx.
           pose proof (SS_le_last _ _ Hps Hx); rewrite last_cons_default in *.
           apply Forall_forall; intros y Hy; apply in_app_or in Hy as [Hy|Hy].
           ++ apply in_zrange in Hy; lia.
           ++ pose proof (SS_hd_le _ _ Hcs Hy); cbn in *; lia.
      * exact Hpst.
      * rewrite Hcend.
        change (b :: bs ++ ?l) with ((b :: bs) ++ l).
        rewrite !last_app_ne, last_cons_default; [reflexivity|discriminate|].
        intros C; apply app_eq_nil in C as [_ C]; discriminate.
    + cbn [Region.blocks]; rewrite Ep, Ec; intros y Hy.
      specialize (Hrange y Hy); rewrite last_cons_default; cbn [hd]; exact Hrange.
Qed.

Lemma absorb_loop_ordered (all_blocks : list BlockResult.t) (regions : list Region.t) :
  forall merged rs,
  regions_ordered (rev merged ++ regions) ->
  absorb_loop all_blocks merged regions = Some rs -> regions_ordered rs.
Proof.
  induction regions as [|curr rest IH]; intros merged rs H E; cbn [absorb_loop] in E.
  - injection E as <-; rewrite app_nil_r in H; exact H.
  - destruct (absorb_step all_blocks merged curr) as [m|] eqn:Es;
      cbn [obind] in E; [|discriminate].
    eapply IH; [|exact E]; eapply absorb_step_ordered; eauto.
Qed.

Lemma absorb_noise_ordered (regions : list Region.t) (all_blocks : list BlockResult.t)
  (rs : list Region.t) :
  regions_ordered regions -> _absorb_noise regions all_blocks = Some rs ->
  regions_ordered rs.
Proof.
  intros H E; unfold _absorb_noise in E.
  destruct regions as [|r0 [|r1 t]]; try (injection E as <-; exact H).
  eapply absorb_loop_ordered; [|exact E]; exact H.
Qed.

Lemma last_flat_blocks (l : list Region.t) (d : Region.t) :
  l <> [] -> Forall region_shape_ok l ->
  last (flat_map Region.blocks l) 0%Z = last (Region.blocks (last l d)) 0%Z.
Proof.
  induction l as [|r t IH]; intros Hn H; [congruence|].
  inversion H as [|? ? [Hrn _] Ht]; subst.
  destruct t as [|r' t'].
  - cbn [flat_map last]; rewrite app_nil_r; reflexivity.
  - inversion Ht as [|? ? [Hrn' _] _]; subst.
    change (last (r :: r' :: t') d) with (last (r' :: t') d).
    cbn [flat_map]; rewrite last_app_ne.
    + exact (IH ltac:(discriminate) Ht).
    + intros C; apply app_eq_nil in C as [C _]; contradiction.
Qed.

Lemma flat_blocks_nonempty (r : Region.t) (t : list Region.t) :
  region_shape_ok r -> flat_map Region.blocks (r :: t) <> [].
Proof.
  intros [Hn _] C; cbn [flat_map] in C; apply app_eq_nil in C as [C _]; contradiction.
Qed.

Lemma band_region_shape (all_blocks : list BlockResult.t) (ri : Region.t)
  (g : list Region.t) (F : Region.t) :
  Forall region_shape_ok (ri :: g) ->
  StronglySorted Z.lt (flat_map Region.blocks (ri :: g)) ->
  band_region all_blocks ri (ri :: g) = Some F ->
  region_shape_ok F /\ Region.blocks F = flat_map Region.blocks (ri :: g).
Proof.
  intros Hf Hs E; unfold band_region in E.
  destruct (gather _ _ _); cbn [obind] in E; [|discriminate].
  destruct (mean_or_zero _); cbn [obind] in E; [|discriminate].
  injection E as <-; cbn [Region.blocks]; split; [|reflexivity].
  inversion Hf as [|? ? Hri _]; subst.
  pose proof Hri as (Hn & _ & Hst & _).
  unfold region_shape_ok; cbn [Region.blocks Region.start_offset Region.end_offset].
  split; [apply flat_blocks_nonempty; exact Hri|]; split; [exact Hs|]; split.
  - rewrite Hst; cbn [flat_map].
    destruct (Region.blocks ri); [congruence|reflexivity].
  - assert (Hl : region_shape_ok (last (ri :: g) ri)).
    { eapply Forall_forall; [exact Hf|apply (last_in _ ri); discriminate]. }
    destruct Hl as (_ & _ & _ & He).
    rewrite <- (last_flat_blocks (ri :: g) ri) in He by (auto; discriminate).
    exact He.
Qed.

Lemma multi_pass_loop_blocks (fuel : nat) (all_blocks : list BlockResult.t) :
  forall regions out,
  blocks_ok regions -> multi_pass_loop fuel all_blocks regions = Some out ->
  blocks_ok out /\
  (forall x, In x (flat_map Region.blocks out) ->
             In x (flat_map Region.blocks regions)).
Proof.
  induction fuel as [|fuel IH]; intros regions out [Hf Hs] E; cbn [multi_pass_loop] in E.
  - injection E as <-; split; [split; constructor|intros x []].
  - destruct regions as [|ri rest].
    + injection E as <-; split; [split; constructor|intros x []].
    + pose proof (take_bands_app ri rest) as Erest.
      destruct (take_bands ri rest) as [g rest'] eqn:Et; cbn [fst snd] in Erest.
      pose proof (Forall_inv Hf) as Hri; pose proof (Forall_inv_tail Hf) as Hfr.
      destruct (_ <=? _)%nat.
      * destruct (band_region _ _ _) as [F|] eqn:EF; cbn [obind] in E; [|discriminate].
        destruct (multi_pass_loop fuel all_blocks rest') as [rs|] eqn:Er;
          cbn [obind] in E; [|discriminate].
        injection E as <-.
        rewrite Erest in Hf, Hs.
        assert (Hsplit : flat_map Region.blocks (ri :: g ++ rest') =
                         flat_map Region.blocks (ri :: g) ++ flat_map Region.blocks rest').
        { change (ri :: g ++ rest') with ((ri :: g) ++ rest'); apply flat_map_app. }
        rewrite Hsplit in Hs.
        apply SS_app_iff in Hs as (Hs1 & Hs2 & Hx).
        change (ri :: g ++ rest') with ((ri :: g) ++ rest') in Hf.
        apply Forall_app in Hf as [Hf1 Hf2].
        destruct (band_region_shape _ _ _ _ Hf1 Hs1 EF) as [HF HFb].
        destruct (IH rest' rs (conj Hf2 Hs2) Er) as [[Hrf Hrs] Hsub].
        split; [split|].
        -- constructor; auto.
        -- cbn [flat_map]; rewrite HFb; apply SS_app_iff; split; [exact Hs1|].
           split; [exact Hrs|].
           eapply Forall_impl; [|exact Hx]; intros a Ha.
           apply Forall_forall; intros y Hy.
           eapply Forall_forall; [exact Ha|apply Hsub, Hy].
        -- intros x Hx'; rewrite Erest, Hsplit.
           cbn [flat_map] in Hx'; rewrite HFb in Hx'.
           apply in_app_or in Hx' as [Hx'|Hx']; apply in_or_app; auto.
      * destruct (multi_pass_loop fuel all_blocks rest) as [rs|] eqn:Er;
          cbn [obind] in E; [|discriminate].
        injection E as <-.
        cbn [flat_map] in Hs; apply SS_app_iff in Hs as (Hs1 & Hs2 & Hx).
        destruct (IH _ rs (conj Hfr Hs2) Er) as [[Hrf Hrs] Hsub].
        split; [split|].
        -- constructor; auto.
        -- cbn [flat_map]; apply SS_app_iff; split; [exact Hs1|].
           split; [exact Hrs|].
           eapply Forall_impl; [|exact Hx]; intros a Ha.
           apply Forall_forall; intros y Hy.
           eapply Forall_forall; [exact Ha|apply Hsub, Hy].
        -- intros x Hx'; cbn [flat_map] in Hx' |- *.
           apply in_app_or in Hx' as [Hx'|Hx']; apply in_or_app; auto.
Qed.

Lemma detect_multi_pass_ordered (regions out : list Region.t)
  (all_blocks : list BlockResult.t) :
  regions_ordered regions -> _detect_multi_pass regions all_blocks = Some out ->
  regions_ordered out.
Proof.
  intros H E; unfold _detect_multi_pass in E.
  destruct (_ <? _)%nat; [injection E as <-; exact H|].
  apply ordered_iff in H; apply ordered_iff.
  exact (proj1 (multi_pass_loop_blocks _ _ _ _ H E)).
Qed.

Lemma suppress_ordered (regions : list Region.t) (all_blocks : list BlockResult.t) :
  regions_ordered regions ->
  regions_ordered (_suppress_false_positives regions all_blocks).
Proof.
  intros H; unfold _suppress_false_positives.
  destruct regions; [exact H|apply ordered_filter, H].
Qed.

Lemma compute_confidence_sig (regions rs : list Region.t)
  (all_blocks : list BlockResult.t) :
  _compute_confidence regions all_blocks = Some rs ->
  map region_sig regions = map region_sig rs.
Proof.
  revert rs; induction regions as [|r t IH]; intros rs E; cbn [_compute_confidence] in E.
  - injection E as <-; reflexivity.
  - destruct (region_confidence all_blocks r); cbn [obind] in E; [|discriminate].
    destruct (_compute_confidence t all_blocks) as [rs'|]; cbn [obind] in E; [|discriminate].
    injection E as <-; cbn [map]; f_equal; auto.
Qed.

Lemma number_from_sig (i : Z) (rs : list Region.t) :
  map region_sig rs = map region_sig (number_from i rs).
Proof.
  revert i; induction rs as [|r t IH]; intros i; cbn [number_from map]; f_equal; auto.
Qed.

(** C5: for every classified block list in strictly ascending [block_id]
    order on which [aggregate] returns, each returned region has a
    non-empty, strictly increasing [blocks] list with
    [start_offset = blocks[0] * BLOCK_SIZE] and
    [end_offset = blocks[last] * BLOCK_SIZE + BLOCK_SIZE - 1], and for any
    two regions in list order the first starts and ends before the second
    starts: the regions are sorted by [start_offset] and pairwise
    disjoint. *)
Theorem aggregate_regions_sorted (results : list BlockResult.t) (rs : list Region.t) :
  StronglySorted Z.lt (map BlockResult.block_id results) ->
  aggregate results = Some rs ->
  Forall region_shape_ok rs /\
  StronglySorted (fun r1 r2 =>
    Region.start_offset r1 < Region.start_offset r2 /\
    Region.end_offset r1 < Region.start_offset r2)%Z rs.
Proof.
  intros Hs E.
  enough (H : regions_ordered rs) by (split; [apply H|apply ordered_offsets, H]).
  unfold aggregate in E; destruct results as [|b t] eqn:Er.
  - injection E as <-; split; constructor.
  - rewrite <- Er in *.
    destruct (_merge_consecutive results) as [raw|] eqn:E1; cbn [obind] in E; [|discriminate].
    destruct (_absorb_noise raw results) as [ab|] eqn:E2; cbn [obind] in E; [|discriminate].
    destruct (_detect_multi_pass _ results) as [wm|] eqn:E3; cbn [obind] in E; [|discriminate].
    destruct (_compute_confidence _ results) as [sc|] eqn:E4; cbn [obind] in E; [|discriminate].
    injection E as <-.
    eapply ordered_sig; [apply number_from_sig|].
    eapply ordered_sig; [apply (compute_confidence_sig _ _ _ E4)|].
    apply suppress_ordered.
    eapply detect_multi_pass_ordered; [|exact E3].
    apply ordered_filter.
    eapply absorb_noise_ordered; [|exact E2].
    exact (proj1 (merge_loop_ordered _ _ _ _ Hs E1)).
Qed.

Lemma lt_chain_sorted (l : list Z) : lt_chain l = true -> StronglySorted Z.lt l.
Proof.
  intros H; apply Sorted_StronglySorted; [exact Z.lt_trans|].
  induction l as [|x t IH]; [constructor|].
  destruct t as [|y t']; [repeat constructor|].
  cbn [lt_chain] in H; apply andb_true_iff in H as [Hxy Ht].
  constructor; [exact (IH Ht)|constructor; apply Z.ltb_lt, Hxy].
Qed.

(** [aggregate_regions_sorted] on [split_scan]. *)
Lemma aggregate_regions_sorted_witness :
  StronglySorted Z.lt (map BlockResult.block_id split_scan) /\
  exists rs, aggregate split_scan = Some rs /\
    Forall region_shape_ok rs /\
    StronglySorted (fun r1 r2 =>
      Region.start_offset r1 < Region.start_offset r2 /\
      Region.end_offset r1 < Region.start_offset r2)%Z rs.
Proof.
  assert (Hs : StronglySorted Z.lt (map BlockResult.block_id split_scan))
    by (apply lt_chain_sorted; vm_compute; reflexivity).
  split; [exact Hs|].
  destruct (aggregate split_scan) as [rs|] eqn:E.
  - exists rs; split; [reflexivity|exact (aggregate_regions_sorted _ _ Hs E)].
  - vm_compute in E; discriminate.
Defined.


(* ================================================================== *)
(** * Entropy and classifier field ranges *)

Lemma py_round_int_between (x : R) (l h : Z) (k : nat) :
  IZR l <= x <= IZR h -> IZR l <= py_round x k <= IZR h.
Proof.
  intros [Hl Hh].
  destruct (py_round_spec x k) as (z & Hz & Hb).
  rewrite Hz.
  rewrite pow_IZR in *.
  set (p := (10 ^ Z.of_nat k)%Z) in *.
  assert (Hp : (0 < p)%Z) by (subst p; apply Z.pow_pos_nonneg; lia).
  assert (HpR : 0 < IZR p) by (apply IZR_lt; lia).
  assert (H1 : IZR (l * p) <= x * IZR p) by (rewrite mult_IZR; nra).
  assert (H2 : x * IZR p <= IZR (h * p)) by (rewrite mult_IZR; nra).
  assert (Hzl : (l * p <= z)%Z) by (apply IZR_half_le; lra).
  assert (Hzh : (z <= h * p)%Z) by (apply IZR_le_half; lra).
  apply IZR_le in Hzl; apply IZR_le in Hzh; rewrite mult_IZR in *.
  split.
  - apply (Rmult_le_reg_r (IZR p)); [exact HpR|].
    unfold Rdiv; rewrite Rmult_assoc, Rinv_l by lra; lra.
  - apply (Rmult_le_reg_r (IZR p)); [exact HpR|].
    unfold Rdiv; rewrite Rmult_assoc, Rinv_l by lra; lra.
Qed.


Lemma incr_nth_sum (l : list Z) (i : nat) :
  (i < length l)%nat -> zsum (incr_nth l i) = (zsum l + 1)%Z.
Proof.
  revert i; induction l as [|c t IH]; intros [|i] H; cbn [incr_nth zsum fold_right] in *;
    cbn [length] in H; try lia.
  fold (zsum t) (zsum (incr_nth t i)); rewrite IH by lia; lia.
Qed.

Lemma byte_to_nat_lt (b : Byte.byte) : (Byte.to_nat b < 256)%nat.
Proof. destruct b; cbv; lia. Qed.

Lemma raw_counts_sum (data : list Byte.byte) :
  zsum (raw_counts data) = Z.of_nat (length data).
Proof.
  unfold raw_counts.
  assert (Hgen : forall acc, length acc = 256%nat ->
    zsum (fold_left (fun acc b => incr_nth acc (Byte.to_nat b)) data acc)
    = (zsum acc + Z.of_nat (length data))%Z).
  { induction data as [|b t IH]; intros acc Hl; cbn [fold_left length]; [lia|].
    rewrite IH by (rewrite incr_nth_length; exact Hl).
    rewrite incr_nth_sum by (rewrite Hl; apply byte_to_nat_lt); lia. }
  rewrite Hgen by reflexivity; reflexivity.
Qed.

Lemma ln_pos_gt (x : R) : 0 < x <= 1 -> ln x <= 0.
Proof.
  intros [H0 H1]; destruct (Req_dec x 1) as [->|Hne]; [rewrite ln_1; lra|].
  left; rewrite <- ln_1; apply ln_increasing; lra.
Qed.

Lemma ln2_pos : 0 < ln 2.
Proof. pose proof ln2_ge_half; lra. Qed.

Lemma plogp_term (p : R) :
  0 < p <= 1 ->
  p * (ln p / ln 2) <= 0 /\
  - (p * (ln p / ln 2)) * ln 2 <= 1 / 256 + p * (ln 256 - 1).
Proof.
  intros Hp; pose proof ln2_pos as H2.
  assert (E : p * (ln p / ln 2) * ln 2 = p * ln p) by (field; lra).
  split.
  - pose proof (ln_pos_gt p Hp).
    assert (p * ln p <= 0) by nra.
    assert (p * (ln p / ln 2) = p * ln p / ln 2) by (field; lra).
    rewrite H1; unfold Rdiv.
    assert (0 < / ln 2) by (apply Rinv_0_lt_compat; lra); nra.
  - rewrite Ropp_mult_distr_l_reverse, E.
    assert (Hq : 0 < / (256 * p)) by (apply Rinv_0_lt_compat; lra).
    pose proof (ln_le_sub1 _ Hq) as Hl.
    rewrite ln_Rinv, ln_mult in Hl by lra.
    assert (Hm : p * / (256 * p) = / 256) by (field; lra).
    nra.
Qed.

Lemma plogp_bound (counts : list Z) (n : Z) (s : R) :
  (0 < n)%Z -> Forall (fun c => 0 <= c <= n)%Z counts ->
  plogp_sum counts n = Some s ->
  s <= 0 /\
  - s * ln 2 <= INR (length counts) / 256 + IZR (zsum counts) / IZR n * (ln 256 - 1).
Proof.
  intros Hn; revert s; induction counts as [|c t IH]; intros s Hc E;
    cbn [plogp_sum] in E.
  - injection E as <-; cbn [length INR zsum fold_right]; unfold Rdiv; lra.
  - inversion Hc as [|? ? Hcn Ht]; subst.
    destruct (plogp_sum t n) as [rest|] eqn:Er; cbn [obind] in E; [|discriminate].
    destruct (IH rest Ht eq_refl) as [IH1 IH2].
    assert (HnR : 0 < IZR n) by (apply IZR_lt; lia).
    assert (Hsum : IZR (zsum (c :: t)) / IZR n
                   = IZR c / IZR n + IZR (zsum t) / IZR n).
    { cbn [zsum fold_right]; fold (zsum t); rewrite plus_IZR; field; lra. }
    assert (Hlen : INR (length (c :: t)) / 256 = 1 / 256 + INR (length t) / 256).
    { cbn [length]; rewrite S_INR; field. }
    rewrite Hsum, Hlen.
    assert (Hln : 0 <= ln 256 - 1).
    { replace 256 with (2 ^ 8) by (simpl; lra); rewrite ln_pow by lra.
      pose proof ln2_ge_half; simpl INR; lra. }
    destruct (Z.eqb_spec c 0) as [->|Hc0].
    + injection E as <-; split; [exact IH1|].
      replace (IZR 0 / IZR n) with 0 by (unfold Rdiv; ring); lra.
    + rewrite py_div_nz in E by lia; cbn [obind] in E.
      assert (Hp : 0 < IZR c / IZR n <= 1).
      { split; [apply Rdiv_lt_0_compat; [apply IZR_lt; lia|exact HnR]|].
        apply (Rmult_le_reg_r (IZR n)); [exact HnR|].
        unfold Rdiv; rewrite Rmult_assoc, Rinv_l, Rmult_1_r, Rmult_1_l by lra.
        apply IZR_le; lia. }
      rewrite py_log2_pos in E by lra; cbn [obind] in E.
      injection E as <-.
      destruct (plogp_term _ Hp) as [T1 T2].
      split; [lra|].
      set (p := IZR c / IZR n) in *.
      set (q := IZR (zsum t) / IZR n) in *.
      assert (- (p * (ln p / ln 2) + rest) * ln 2
              = - (p * (ln p / ln 2)) * ln 2 + - rest * ln 2) by ring.
      nra.
Qed.

Lemma zsum_nonneg (l : list Z) : Forall (Z.le 0) l -> (0 <= zsum l)%Z.
Proof.
  induction 1 as [|a t Ha Ht IH]; cbn [zsum fold_right]; [lia|].
  fold (zsum t); lia.
Qed.

Lemma zsum_ge_mem (l : list Z) (x : Z) :
  Forall (Z.le 0) l -> In x l -> (x <= zsum l)%Z.
Proof.
  induction l as [|a t IH]; intros H Hx; [destruct Hx|].
  inversion H as [|? ? Ha Ht]; subst.
  cbn [zsum fold_right]; fold (zsum t).
  pose proof (zsum_nonneg t Ht).
  destruct Hx as [<-|Hx]; [lia|specialize (IH Ht Hx); lia].
Qed.

Lemma raw_counts_bounded (data : list Byte.byte) :
  Forall (fun c => 0 <= c <= Z.of_nat (length data))%Z (raw_counts data).
Proof.
  destruct (raw_counts_inv data) as [_ Hn].
  apply Forall_forall; intros c Hc; split.
  - eapply Forall_forall in Hn; [exact Hn|exact Hc].
  - rewrite <- raw_counts_sum; apply zsum_ge_mem; auto.
Qed.

Lemma count_ratio_bounds (data : list Byte.byte) (k : nat) :
  data <> [] ->
  0 <= IZR (nth k (raw_counts data) 0%Z) / IZR (Z.of_nat (length data)) <= 1.
Proof.
  intros Hne.
  assert (Hn : (0 < Z.of_nat (length data))%Z) by (destruct data; [congruence|simpl; lia]).
  assert (Hc : (0 <= nth k (raw_counts data) 0%Z <= Z.of_nat (length data))%Z).
  { destruct (Nat.lt_ge_cases k (length (raw_counts data))) as [Hk|Hk].
    - apply (proj1 (Forall_forall _ _) (raw_counts_bounded data)).
      apply nth_In; exact Hk.
    - rewrite nth_overflow by exact Hk; lia. }
  assert (HnR : 0 < IZR (Z.of_nat (length data))) by (apply IZR_lt; exact Hn).
  destruct Hc as [Hc1 Hc2]; apply IZR_le in Hc1; apply IZR_le in Hc2.
  split.
  - unfold Rdiv; apply Rmult_le_pos; [exact Hc1|left; apply Rinv_0_lt_compat, HnR].
  - apply (Rmult_le_reg_r (IZR (Z.of_nat (length data)))); [exact HnR|].
    unfold Rdiv; rewrite Rmult_assoc, Rinv_l, Rmult_1_r, Rmult_1_l by lra; exact Hc2.
Qed.

Lemma entropy_sum_bounds (data : list Byte.byte) (s : R) :
  data <> [] ->
  plogp_sum (raw_counts data) (Z.of_nat (length data)) = Some s ->
  0 <= - s <= 8.
Proof.
  intros Hne Hs.
  assert (Hn : (0 < Z.of_nat (length data))%Z) by (destruct data; [congruence|simpl; lia]).
  destruct (plogp_bound _ _ _ Hn (raw_counts_bounded data) Hs) as [H1 H2].
  destruct (raw_counts_inv data) as [Hlen _].
  rewrite Hlen, raw_counts_sum in H2.
  assert (HnR : 0 < IZR (Z.of_nat (length data))) by (apply IZR_lt; exact Hn).
  replace (IZR (Z.of_nat (length data)) / IZR (Z.of_nat (length data))) with 1
    in H2 by (field; lra).
  replace (INR 256 / 256) with 1 in H2 by (simpl; field).
  replace 256 with (2 ^ 8) in H2 by (simpl; lra).
  rewrite ln_pow in H2 by lra.
  pose proof ln2_pos.
  split; [lra|].
  simpl INR in H2.
  assert (- s * ln 2 <= 8 * ln 2) by lra.
  nra.
Qed.

(* ------------------------------------------------------------------ *)
(** ** No block is labelled UNALLOCATED *)

Lemma plogp_term_gen (A q : R) :
  0 < A -> 0 < q ->
  - (q * (ln q / ln 2)) * ln 2 <= 1 / A + q * (ln A - 1).
Proof.
  intros HA Hq; pose proof ln2_pos as H2.
  assert (E : - (q * (ln q / ln 2)) * ln 2 = - (q * ln q)) by (field; lra).
  rewrite E.
  assert (Hx : 0 < / (A * q)) by (apply Rinv_0_lt_compat; nra).
  pose proof (ln_le_sub1 _ Hx) as Hl.
  rewrite ln_Rinv, ln_mult in Hl by nra.
  assert (Hm : q * / (A * q) = / A) by (field; lra).
  replace (1 / A) with (/ A) by (unfold Rdiv; ring).
  nra.
Qed.

Lemma plogp_bound_gen (A : R) (counts : list Z) (n : Z) (s : R) :
  0 < A -> (0 < n)%Z -> Forall (fun c => 0 <= c)%Z counts ->
  plogp_sum counts n = Some s ->
  - s * ln 2 <= INR (length counts) / A + IZR (zsum counts) / IZR n * (ln A - 1).
Proof.
  intros HA Hn; revert s; induction counts as [|c t IH]; intros s Hc E;
    cbn [plogp_sum] in E.
  - injection E as <-; cbn [length INR zsum fold_right]; unfold Rdiv; lra.
  - inversion Hc as [|? ? Hc0 Ht]; subst.
    destruct (plogp_sum t n) as [rest|] eqn:Er; cbn [obind] in E; [|discriminate].
    specialize (IH rest Ht eq_refl).
    assert (HnR : 0 < IZR n) by (apply IZR_lt; lia).
    assert (Hsum : IZR (zsum (c :: t)) / IZR n
                   = IZR c / IZR n + IZR (zsum t) / IZR n).
    { cbn [zsum fold_right]; fold (zsum t); rewrite plus_IZR; field; lra. }
    assert (Hlen : INR (length (c :: t)) / A = 1 / A + INR (length t) / A).
    { cbn [length]; rewrite S_INR; field; lra. }
    rewrite Hsum, Hlen.
    assert (HA1 : 0 < 1 / A) by (unfold Rdiv; rewrite Rmult_1_l; apply Rinv_0_lt_compat; lra).
    destruct (Z.eqb_spec c 0) as [->|Hcz].
    + injection E as <-.
      replace (IZR 0 / IZR n) with 0 by (unfold Rdiv; ring); lra.
    + rewrite py_div_nz in E by lia; cbn [obind] in E.
      assert (Hp : 0 < IZR c / IZR n) by (apply Rdiv_lt_0_compat; [apply IZR_lt; lia|exact HnR]).
      rewrite py_log2_pos in E by lra; cbn [obind] in E.
      injection E as <-.
      pose proof (plogp_term_gen A _ HA Hp) as T.
      set (p := IZR c / IZR n) in *.
      assert (- (p * (ln p / ln 2) + rest) * ln 2
              = - (p * (ln p / ln 2)) * ln 2 + - rest * ln 2) by ring.
      nra.
Qed.

Lemma plogp_lower_eighth (counts : list Z) (n : Z) (s : R) :
  (0 < n)%Z -> Forall (fun c => 0 <= c /\ 8 * c <= n)%Z counts ->
  plogp_sum counts n = Some s ->
  3 * (IZR (zsum counts) / IZR n) <= - s.
Proof.
  intros Hn; revert s; induction counts as [|c t IH]; intros s Hc E;
    cbn [plogp_sum] in E.
  - injection E as <-; cbn [zsum fold_right]; unfold Rdiv; lra.
  - inversion Hc as [|? ? [Hc0 Hc8] Ht]; subst.
    destruct (plogp_sum t n) as [rest|] eqn:Er; cbn [obind] in E; [|discriminate].
    specialize (IH rest Ht eq_refl).
    assert (HnR : 0 < IZR n) by (apply IZR_lt; lia).
    assert (Hsum : IZR (zsum (c :: t)) / IZR n
                   = IZR c / IZR n + IZR (zsum t) / IZR n).
    { cbn [zsum fold_right]; fold (zsum t); rewrite plus_IZR; field; lra. }
    rewrite Hsum.
    destruct (Z.eqb_spec c 0) as [->|Hcz].
    + injection E as <-.
      replace (IZR 0 / IZR n) with 0 by (unfold Rdiv; ring); lra.
    + rewrite py_div_nz in E by lia; cbn [obind] in E.
      assert (Hp : 0 < IZR c / IZR n) by (apply Rdiv_lt_0_compat; [apply IZR_lt; lia|exact HnR]).
      rewrite py_log2_pos in E by lra; cbn [obind] in E.
      injection E as <-.
      assert (Hp8 : IZR c / IZR n <= / 8).
      { apply IZR_le in Hc8; rewrite mult_IZR in Hc8.
        apply (Rmult_le_reg_r (IZR n)); [exact HnR|].
        unfold Rdiv; rewrite Rmult_assoc, Rinv_l by lra. lra. }
      set (p := IZR c / IZR n) in *.
      pose proof ln2_pos as H2.
      assert (Hl : ln p <= - (3 * ln 2)).
      { replace (- (3 * ln 2)) with (ln (/ 8)).
        - destruct (Rle_lt_or_eq_dec _ _ Hp8) as [Hlt|Heq];
            [left; apply ln_increasing; lra|right; rewrite Heq; reflexivity].
        - rewrite ln_Rinv by lra; replace 8 with (2 ^ 3) by (simpl; lra).
          rewrite ln_pow by lra; simpl INR; ring. }
      assert (Hq : ln p / ln 2 <= - 3).
      { apply (Rmult_le_reg_r (ln 2)); [exact H2|].
        unfold Rdiv; rewrite Rmult_assoc, Rinv_l by lra. lra. }
      nra.
Qed.

Lemma zsum_cons (c : Z) (t : list Z) : zsum (c :: t) = (c + zsum t)%Z.
Proof. reflexivity. Qed.

(** A block whose zero bytes make up a share in [[0.89995, 0.90)] has a
    Shannon entropy in [(0.21, 1.5]] once rounded to 6 places. *)
Lemma entropy_unalloc_band (data : list Byte.byte) (s : R) :
  data <> [] ->
  plogp_sum (raw_counts data) (Z.of_nat (length data)) = Some s ->
  0.89995 <= IZR (nth 0 (raw_counts data) 0%Z) / IZR (Z.of_nat (length data)) < 0.90 ->
  0.21 < py_round (- s) 6 <= 1.50.
Proof.
  intros Hne Hs Hp.
  assert (Hn : (0 < Z.of_nat (length data))%Z) by (destruct data; [congruence|simpl; lia]).
  pose proof (raw_counts_sum data) as Hsum.
  pose proof (raw_counts_bounded data) as Hb.
  destruct (raw_counts_inv data) as [Hlen _].
  set (n := Z.of_nat (length data)) in *.
  destruct (raw_counts data) as [|c0 t] eqn:Ec; [discriminate|].
  cbn [nth] in Hp; cbn [length] in Hlen; injection Hlen as Hlen.
  rewrite zsum_cons in Hsum.
  inversion Hb as [|? ? Hc0 Ht]; subst.
  assert (HnR : 0 < IZR n) by (apply IZR_lt; lia).
  assert (Hc0R : 0.89995 * IZR n <= IZR c0 < 0.90 * IZR n).
  { destruct Hp as [P1 P2]; split.
    - apply (Rmult_le_reg_r (/ IZR n)); [apply Rinv_0_lt_compat; lra|].
      rewrite Rmult_assoc, Rinv_r by lra; lra.
    - apply (Rmult_lt_reg_r (/ IZR n)); [apply Rinv_0_lt_compat; lra|].
      rewrite Rmult_assoc, Rinv_r by lra; lra. }
  assert (Hc0p : (0 < c0)%Z) by (apply lt_IZR; nra).
  cbn [plogp_sum] in Hs.
  destruct (plogp_sum t n) as [rest|] eqn:Er; cbn [obind] in Hs; [|discriminate].
  destruct (Z.eqb_spec c0 0) as [|_]; [lia|].
  rewrite py_div_nz in Hs by lia; cbn [obind] in Hs.
  set (p := IZR c0 / IZR n) in *.
  assert (Hp0 : 0 < p <= 1) by lra.
  rewrite py_log2_pos in Hs by lra; cbn [obind] in Hs.
  injection Hs as <-.
  assert (Htn : IZR (zsum t) = IZR n - IZR c0) by (rewrite <- minus_IZR; f_equal; lia).
  assert (Hm : IZR (zsum t) / IZR n = 1 - p) by (rewrite Htn; unfold p; field; lra).
  assert (Ht8 : Forall (fun c => 0 <= c /\ 8 * c <= n)%Z t).
  { apply Forall_forall; intros c Hc.
    pose proof (proj1 (Forall_forall _ _) Ht c Hc) as Hcb; cbv beta in Hcb.
    assert (Hcs : (c <= zsum t)%Z).
    { apply zsum_ge_mem; [|exact Hc].
      apply Forall_forall; intros x Hx; pose proof (proj1 (Forall_forall _ _) Ht x Hx) as Hxb; cbv beta in Hxb; lia. }
    assert (H8 : IZR (8 * zsum t) <= IZR n) by (rewrite mult_IZR, Htn; lra).
    apply le_IZR in H8; lia. }
  pose proof (plogp_lower_eighth t n rest Hn Ht8 Er) as Lo.
  assert (Ht0 : Forall (fun c => 0 <= c)%Z t)
    by (eapply Forall_impl; [|exact Ht]; intros x Hx; cbv beta in Hx |- *; lia).
  pose proof (plogp_bound_gen 4096 t n rest ltac:(lra) Hn Ht0 Er) as Up.
  rewrite Hlen, Hm in Up; rewrite Hm in Lo.
  destruct (plogp_term p Hp0) as [T0 _].
  pose proof ln2_pos as H2; pose proof ln2_ge_half as H2h.
  assert (Hl4096 : ln 4096 = 12 * ln 2).
  { replace 4096 with (2 ^ 12) by (simpl; lra); rewrite ln_pow by lra; simpl INR; ring. }
  rewrite Hl4096 in Up.
  (* the head term: - p ln p <= 1 - p *)
  assert (Hhead : - (p * (ln p / ln 2)) * ln 2 <= 1 - p).
  { assert (E : - (p * (ln p / ln 2)) * ln 2 = p * ln (/ p)) by (rewrite ln_Rinv by lra; field; lra).
    rewrite E.
    pose proof (ln_le_sub1 (/ p) ltac:(apply Rinv_0_lt_compat; lra)) as Hl.
    assert (p * / p = 1) by (field; lra).
    nra. }
  set (x := - (p * (ln p / ln 2) + rest)).
  assert (Hx8 : x * ln 2 <= 255 / 4096 + 12 * ln 2 * (1 - p)).
  { unfold x.
    replace (- (p * (ln p / ln 2) + rest) * ln 2)
      with (- (p * (ln p / ln 2)) * ln 2 + - rest * ln 2) by ring.
    simpl INR in Up. lra. }
  assert (Hxup : x <= 1.3252).
  { assert (HI : 255 / 4096 <= (1.3252 - 12 * (1 - p)) * ln 2) by nra.
    nra. }
  assert (Hxlo : 0.3 <= x) by (unfold x; lra).
  destruct (py_round_spec x 6) as (z & Hz & Hzb).
  rewrite Hz; replace (10 ^ 6) with 1000000 in * by (simpl; lra).
  split.
  - apply (Rmult_lt_reg_r 1000000); [lra|].
    unfold Rdiv; rewrite Rmult_assoc, Rinv_l by lra; lra.
  - apply (Rmult_le_reg_r 1000000); [lra|].
    unfold Rdiv; rewrite Rmult_assoc, Rinv_l by lra; lra.
Qed.

Ltac never_unalloc_leaf Hs :=
  eexists; split; [reflexivity|]; unfold _result;
  cbn [BlockResult.wipe_type];
  first [ intros C; discriminate C | intros _ ];
  match goal with
  | G : ((Z.of_nat (argmax ?c) =? 0)%Z && _ && _) = true,
    B : (Rleb ZERO_FF_PARTIAL_MIN ?zr && Rltb ?zr ZERO_FF_STRONG_MIN) = false |- _ =>
      apply andb_true_iff in G as [G G3]; apply andb_true_iff in G as [G1 G2];
      apply Z.eqb_eq in G1;
      let Ha := fresh "Ha" in
      assert (Ha : argmax c = 0%nat) by lia; rewrite Ha in G2, G3;
      apply Rleb_true in G2; apply Rltb_true in G3;
      apply andb_false_iff in B;
      assert (Bn : ~ (0.60 <= zr /\ zr < 0.90))
        by (unfold ZERO_FF_PARTIAL_MIN, ZERO_FF_STRONG_MIN in B;
            intros [P Q]; destruct B as [B|B]; rbool; lra);
      unfold ZERO_FF_STRONG_MIN in G3;
      first [ exfalso; apply Bn; split; lra
            | destruct (py_round4_band_escape _ (conj G2 G3) Bn) as [_ Hp];
              match goal with
              | L : (Rltb ENTROPY_LOW_MIN ?h && Rleb ?h ENTROPY_LOW_MAX) = false |- _ =>
                  let d := match type of Hs with
                           plogp_sum (raw_counts ?d) _ = _ => d end in
                  assert (Hd : d <> []) by discriminate;
                  destruct (entropy_unalloc_band _ _ Hd Hs (conj Hp G3)) as [Q1 Q2];
                  apply andb_false_iff in L;
                  unfold ENTROPY_LOW_MIN, ENTROPY_LOW_MAX in L;
                  destruct L as [L|L]; rbool; lra
              end ]
  end.

(** C10: [classify_block] never returns UNALLOCATED, with or without
    numpy.  With numpy [zero_ratio = dominant_pct], so a block meeting the
    UNALLOCATED guard lies in the partial-zero band [[0.60, 0.90)] and rule
    3 fires first.  Without numpy [zero_ratio] is rounded to 4 places and
    can escape that band, but only when [0.89995 <= dominant_pct < 0.90];
    such a block has a rounded entropy in [(0.21, 1.5]], so rule 6 (low
    entropy suspect) returns first. *)
Theorem classify_block_never_unallocated (numpy_available : bool)
  (block_id offset : Z) (data : list Byte.byte) :
  exists r,
    classify_block numpy_available block_id offset data = Some r /\
    BlockResult.wipe_type r <> UNALLOCATED.
Proof.
  destruct data as [|b t].
  - eexists; split; [reflexivity|]; discriminate.
  - unfold classify_block.
    destruct (stats_eq numpy_available (b :: t)) as [s [Hs Hst]];
      [discriminate|].
    rewrite Hst; clear Hst.
    destruct numpy_available; cbn [obind];
      repeat classify_step_eq; never_unalloc_leaf Hs.
Qed.

(** X1: [shannon_entropy] returns a value on every byte sequence, the
    empty one included, and that value lies in [[0, 8]]. *)
Theorem shannon_entropy_range (data : list Byte.byte) :
  exists h, shannon_entropy data = Some h /\ 0 <= h <= 8.
Proof.
  destruct data as [|b t] eqn:Ed.
  - exists 0; split; [reflexivity|lra].
  - rewrite <- Ed.
    assert (Hne : data <> []) by (rewrite Ed; discriminate).
    assert (Hn : (0 < Z.of_nat (length data))%Z) by (rewrite Ed; simpl; lia).
    destruct (raw_counts_inv data) as [_ Hnn].
    destruct (plogp_sum_some _ _ Hn Hnn) as [s Hs].
    assert (E : shannon_entropy data = Some (py_round (- s) 6)).
    { unfold shannon_entropy; rewrite Ed in *; rewrite Hs; reflexivity. }
    rewrite E; eexists; split; [reflexivity|].
    pose proof (entropy_sum_bounds data s Hne Hs).
    apply (py_round_int_between _ 0 8); simpl; lra.
Qed.

Lemma classify_block_ranges (numpy_available : bool) (block_id offset : Z)
  (data : list Byte.byte) :
  exists r,
    classify_block numpy_available block_id offset data = Some r /\
    0 <= BlockResult.entropy r <= 8 /\
    (0 <= BlockResult.dominant_byte r <= 255)%Z /\
    0 <= BlockResult.dominant_pct r <= 1 /\
    0 <= BlockResult.zero_ratio r <= 1 /\
    0 <= BlockResult.ff_ratio r <= 1.
Proof.
  destruct data as [|b t] eqn:Ed.
  - eexists; split; [reflexivity|]; cbn; repeat split; try lia; lra.
  - rewrite <- Ed.
    assert (Hne : data <> []) by (rewrite Ed; discriminate).
    destruct (stats_eq numpy_available data Hne) as [s [Hs Hst]].
    pose proof (entropy_sum_bounds data s Hne Hs) as He.
    pose proof (count_ratio_bounds data 0 Hne) as Hz.
    pose proof (count_ratio_bounds data 255 Hne) as Hf.
    pose proof (count_ratio_bounds data (argmax (raw_counts data)) Hne) as Hd.
    assert (Ha : (argmax (raw_counts data) < 256)%nat).
    { destruct (raw_counts_inv data) as [Hl _]; rewrite <- Hl.
      apply argmax_lt; intros C; rewrite C in Hl; discriminate. }
    destruct numpy_available;
      destruct (classify_block_fields _ block_id offset data _ _ _ _ _ _ Hne Hst)
        as (r & Hr & E1 & E2 & E3 & E4 & E5);
      exists r; split; try exact Hr; rewrite E1, E2, E3, E4, E5;
      repeat split; try lia; try lra;
      try (apply (py_round_int_between _ 0 8); lra);
      try (apply (py_round_int_between _ 0 1); simpl; lra).
Qed.

(** X2: on every byte sequence [classify_block] returns a result whose
    entropy lies in [[0, 8]], dominant byte in [[0, 255]], and dominant
    share, zero ratio and 0xFF ratio in [[0, 1]]. *)
Theorem classify_block_field_ranges (numpy_available : bool) (block_id offset : Z)
  (data : list Byte.byte) :
  exists r,
    classify_block numpy_available block_id offset data = Some r /\
    0 <= BlockResult.entropy r <= 8 /\
    (0 <= BlockResult.dominant_byte r <= 255)%Z /\
    0 <= BlockResult.dominant_pct r <= 1 /\
    0 <= BlockResult.zero_ratio r <= 1 /\
    0 <= BlockResult.ff_ratio r <= 1.
Proof. exact (classify_block_ranges numpy_available block_id offset data). Qed.


(* ================================================================== *)
(** * The printable-run check and the RANDOM_WIPE guard *)

Lemma skipn_app_ge {A} (i : nat) (l1 l2 : list A) :
  (length l1 <= i)%nat -> skipn i (l1 ++ l2) = skipn (i - length l1) l2.
Proof.
  intros H; rewrite skipn_app.
  rewrite (skipn_all2 l1) by exact H; reflexivity.
Qed.

Lemma window_in (l : list Byte.byte) (i j : nat) (d : Byte.byte) :
  (i <= j < i + 64)%nat -> (i + 64 <= length l)%nat ->
  Forall (fun b => printable_byte b = true) (firstn 64 (skipn i l)) ->
  printable_byte (nth j l d) = true.
Proof.
  intros Hj Hl HF.
  assert (E : nth j l d = nth (j - i) (firstn 64 (skipn i l)) d).
  { rewrite nth_firstn.
    replace (Nat.ltb (j - i) 64) with true by (symmetry; apply Nat.ltb_lt; lia).
    rewrite nth_skipn; f_equal; lia. }
  rewrite E; apply (proj1 (Forall_forall _ _) HF).
  apply nth_In; rewrite length_firstn, length_skipn; lia.
Qed.

Lemma printable_run_iff_gen (data : list Byte.byte) :
  forall q, (length q < 64)%nat -> Forall (fun b => printable_byte b = true) q ->
  printable_run data (length q) = true <-> has_printable_run (q ++ data).
Proof.
  induction data as [|b t IH]; intros q Hq Hpq; cbn [printable_run].
  - split; [discriminate|]; intros (i & Hi & _); rewrite app_nil_r in Hi; lia.
  - fold (printable_byte b).
    destruct (printable_byte b) eqn:Hb.
    + destruct (64 <=? S (length q))%nat eqn:E64.
      * apply Nat.leb_le in E64; split; [intros _|reflexivity].
        exists 0%nat; split; [rewrite length_app; cbn [length]; lia|].
        rewrite skipn_O.
        replace (q ++ b :: t) with ((q ++ [b]) ++ t) by (rewrite <- app_assoc; reflexivity).
        rewrite firstn_app, length_app; cbn [length].
        replace (64 - (length q + 1))%nat with 0%nat by lia.
        rewrite firstn_O, app_nil_r, firstn_all2 by (rewrite length_app; cbn; lia).
        apply Forall_app; split; auto.
      * apply Nat.leb_gt in E64.
        replace (S (length q)) with (length (q ++ [b]))
          by (rewrite length_app; cbn; lia).
        rewrite IH.
        -- rewrite <- app_assoc; reflexivity.
        -- rewrite length_app; cbn; lia.
        -- apply Forall_app; split; auto.
    + change 0%nat with (length (@nil Byte.byte)).
      rewrite (IH [] ltac:(cbn; lia) ltac:(constructor)); cbn [app].
      split.
      * intros (i & Hi & HF).
        exists (i + length q + 1)%nat; split; [rewrite length_app; cbn; lia|].
        rewrite skipn_app_ge by lia.
        replace (i + length q + 1 - length q)%nat with (S i) by lia.
        exact HF.
      * intros (i & Hi & HF).
        rewrite length_app in Hi; cbn [length] in Hi.
        destruct (Nat.le_gt_cases i (length q)) as [Hle|Hgt].
        -- exfalso.
           pose proof (window_in (q ++ b :: t) i (length q) b ltac:(lia)
                         ltac:(rewrite length_app; cbn; lia) HF) as Hp.
           rewrite app_nth2, Nat.sub_diag in Hp by lia; cbn in Hp; congruence.
        -- exists (i - length q - 1)%nat; split; [lia|].
           rewrite skipn_app_ge in HF by lia.
           replace (i - length q)%nat with (S (i - length q - 1)) in HF by lia.
           exact HF.
Qed.

(** X3: check 3 of [has_legitimate_structure] (the printable-run scan)
    succeeds exactly when the data hold 64 consecutive bytes in
    [[0x20, 0x7E]]. *)
Theorem printable_run_iff (data : list Byte.byte) :
  printable_run data 0 = true <-> has_printable_run data.
Proof.
  exact (printable_run_iff_gen data [] ltac:(cbn; lia) ltac:(constructor)).
Qed.

Lemma existsb_false_forall {A} (f : A -> bool) (l : list A) :
  existsb f l = false -> Forall (fun x => f x = false) l.
Proof.
  induction l as [|a t IH]; cbn [existsb]; intros H; [constructor|].
  apply orb_false_iff in H as [H1 H2]; constructor; auto.
Qed.

Lemma legit_false (data : list Byte.byte) (freq : list R) :
  has_legitimate_structure data freq = false ->
  Forall (fun b => existsb (Z.eqb (byte_val b)) COMPRESSED_MAGIC = false)
    (firstn 16 data) /\ ~ has_printable_run data.
Proof.
  unfold has_legitimate_structure.
  destruct (existsb _ (firstn 16 data)) eqn:E1; [discriminate|].
  destruct (existsb _ (seq 0 8)); [discriminate|].
  intros E3; split.
  - exact (existsb_false_forall _ _ E1).
  - intros C.
    apply (printable_run_iff_gen data [] ltac:(cbn; lia) ltac:(constructor)) in C.
    cbn [length] in C; congruence.
Qed.

(** X4: [classify_block] labels a block RANDOM_WIPE only if its entropy is
    at least 7.60, none of its first 16 bytes is a compressed-format magic
    byte, and it holds no run of 64 consecutive printable bytes. *)
Theorem classify_random_wipe_guard (numpy_available : bool) (block_id offset : Z)
  (data : list Byte.byte) :
  exists r,
    classify_block numpy_available block_id offset data = Some r /\
    (BlockResult.wipe_type r = RANDOM_WIPE ->
     ENTROPY_RANDOM_MIN <= BlockResult.entropy r /\
     Forall (fun b => existsb (Z.eqb (byte_val b)) COMPRESSED_MAGIC = false)
       (firstn 16 data) /\
     ~ has_printable_run data).
Proof.
  destruct data as [|b t] eqn:Ed.
  - eexists; split; [reflexivity|]; cbn; discriminate.
  - assert (Hne : data <> []) by (rewrite Ed; discriminate).
    destruct (stats_eq numpy_available data Hne) as [s [_ Hst]].
    rewrite Ed in Hst; unfold classify_block; rewrite Hst; cbn [obind].
    repeat classify_step_eq;
      eexists; split; try reflexivity; cbn [BlockResult.wipe_type _result];
      try discriminate; intros _;
      split_conds;
      match goal with
      | H : has_legitimate_structure _ _ = false |- _ =>
          destruct (legit_false _ _ H); repeat split; auto;
          unfold _result; cbn [BlockResult.entropy]; assumption
      end.
Qed.


(* ================================================================== *)
(** * Invariants kept by every stage of aggregate *)

Lemma WipeType_eqb_eq (a b : WipeType) : WipeType_eqb a b = true -> a = b.
Proof. destruct a, b; simpl; congruence. Qed.

Lemma take_run_same (wt : WipeType) (l : list BlockResult.t) :
  Forall (fun x => BlockResult.wipe_type x = wt) (fst (take_run wt l)).
Proof.
  induction l as [|b t IH]; simpl; auto.
  destruct (BlockResult.is_suspicious b && WipeType_eqb (BlockResult.wipe_type b) wt)
    eqn:E; simpl; auto.
  apply andb_true_iff in E as [_ E]; apply WipeType_eqb_eq in E.
  destruct (take_run wt t) as [run rest]; simpl in *; constructor; auto.
Qed.

Lemma gather_values {A} (Q : A -> Prop) (f : BlockResult.t -> A)
  (all_blocks : list BlockResult.t) (ids : list Z) (xs : list A) :
  Forall (fun b => Q (f b)) all_blocks ->
  gather f all_blocks ids = Some xs -> Forall Q xs.
Proof.
  intros HQ; revert xs; induction ids as [|bid t IH]; intros xs E; simpl in E.
  - injection E as <-; auto.
  - destruct (bid <? zlen all_blocks)%Z; [|auto].
    destruct (py_index all_blocks bid) as [b|] eqn:Eb; cbn [obind] in E; [|discriminate].
    destruct (gather f all_blocks t) as [ys|]; cbn [obind] in E; [|discriminate].
    injection E as <-; constructor; [|auto].
    unfold py_index in Eb.
    destruct (_ && _)%bool; [|destruct (_ && _)%bool; [|discriminate]];
      apply nth_error_In in Eb; eapply Forall_forall in HQ; eauto.
Qed.

Section AggregateInvariant.
Variable Q : BlockResult.t -> Prop.
Variable P : Region.t -> Prop.
Variable results : list BlockResult.t.
Hypothesis HQ : Forall Q results.
Hypothesis Hrun : forall rid b run r,
  Q b -> Forall Q run -> BlockResult.is_suspicious b = true ->
  Forall (fun x => BlockResult.wipe_type x = BlockResult.wipe_type b) run ->
  run_region rid (BlockResult.wipe_type b) b (b :: run) = Some r -> P r.
Hypothesis Hfuse : forall prev curr lo hi es m,
  P prev -> P curr -> Region.wipe_type prev = Region.wipe_type curr ->
  gather BlockResult.entropy results (Region.blocks prev ++ Region.blocks curr)
    = Some es ->
  mean_or_zero es = Some m ->
  P (Region.mk (Region.id prev) (Region.start_offset prev) (Region.end_offset curr)
       (Region.end_offset curr - Region.start_offset prev + 1)%Z
       (Region.wipe_type prev)
       (zlen (Region.blocks prev ++ zrange lo hi ++ Region.blocks curr)) m 0.0
       (Region.blocks prev ++ zrange lo hi ++ Region.blocks curr)).
Hypothesis Hband : forall first g r,
  P first -> Forall P g -> band_region results first (first :: g) = Some r -> P r.
Hypothesis Hconf : forall r c, P r -> P (with_confidence r c).
Hypothesis Hid : forall r i, P r -> P (with_id r i).

Lemma merge_loop_inv (fuel : nat) (l : list BlockResult.t) (rid : Z)
  (rs : list Region.t) :
  Forall Q l -> merge_loop fuel l rid = Some rs -> Forall P rs.
Proof.
  revert l rid rs; induction fuel as [|fuel IH]; intros l rid rs H E;
    cbn [merge_loop] in E; [injection E as <-; auto|].
  destruct l as [|b t]; [injection E as <-; auto|].
  apply Forall_cons_iff in H as [Hb Ht].
  destruct (BlockResult.is_suspicious b) eqn:Es; cbn [negb] in E;
    [|exact (IH t rid rs Ht E)].
  pose proof (take_run_app (BlockResult.wipe_type b) t) as Happ.
  pose proof (take_run_same (BlockResult.wipe_type b) t) as Hsame.
  destruct (take_run (BlockResult.wipe_type b) t) as [run rest]; simpl in Happ, Hsame.
  rewrite Happ in Ht; apply Forall_app in Ht as [Hrun' Hrest].
  destruct (run_region rid _ b (b :: run)) as [r|] eqn:Er; cbn [obind] in E;
    [|discriminate].
  destruct (merge_loop fuel rest (rid + 1)%Z) as [rs'|] eqn:Erest; cbn [obind] in E;
    [|discriminate].
  injection E as <-; constructor;
    [exact (Hrun rid b run r Hb Hrun' Es Hsame Er)|exact (IH rest _ rs' Hrest Erest)].
Qed.

Lemma absorb_step_inv (merged : list Region.t) (curr : Region.t)
  (m : list Region.t) :
  Forall P merged -> P curr -> absorb_step results merged curr = Some m ->
  Forall P m.
Proof.
  intros Hm Hc E; unfold absorb_step in E.
  destruct merged as [|prev older]; [injection E as <-; auto|].
  apply Forall_cons_iff in Hm as [Hp Ho].
  destruct (WipeType_eqb (Region.wipe_type prev) (Region.wipe_type curr)) eqn:Ew;
    cbn [negb] in E; [|injection E as <-; auto].
  apply WipeType_eqb_eq in Ew.
  destruct (_ <=? _)%Z; [|injection E as <-; auto].
  destruct (gather _ _ _) as [es|] eqn:Ees; cbn [obind] in E; [|discriminate].
  destruct (mean_or_zero es) as [mm|] eqn:Em; cbn [obind] in E; [|discriminate].
  injection E as <-; constructor; [eapply Hfuse; eauto|auto].
Qed.

Lemma absorb_loop_inv (merged regions rs : list Region.t) :
  Forall P merged -> Forall P regions ->
  absorb_loop results merged regions = Some rs -> Forall P rs.
Proof.
  revert merged; induction regions as [|c t IH]; intros merged Hm Hr E; simpl in E.
  - injection E as <-; apply Forall_rev; auto.
  - apply Forall_cons_iff in Hr as [Hc Ht].
    destruct (absorb_step results merged c) as [m|] eqn:Es; cbn [obind] in E;
      [|discriminate].
    exact (IH m (absorb_step_inv merged c m Hm Hc Es) Ht E).
Qed.

Lemma absorb_noise_inv (regions rs : list Region.t) :
  Forall P regions -> _absorb_noise regions results = Some rs -> Forall P rs.
Proof.
  intros H E; unfold _absorb_noise in E.
  destruct regions as [|r0 [|r1 t]]; try (injection E as <-; auto).
  apply Forall_cons_iff in H as [H0 Ht].
  exact (absorb_loop_inv [r0] (r1 :: t) rs (Forall_cons _ H0 (Forall_nil _)) Ht E).
Qed.

Lemma multi_pass_loop_inv (fuel : nat) (regions rs : list Region.t) :
  Forall P regions -> multi_pass_loop fuel results regions = Some rs -> Forall P rs.
Proof.
  revert regions rs; induction fuel as [|fuel IH]; intros regions rs H E;
    cbn [multi_pass_loop] in E; [injection E as <-; auto|].
  destruct regions as [|ri rest]; [injection E as <-; auto|].
  pose proof (take_bands_app ri rest) as Happ.
  destruct (take_bands ri rest) as [g rest']; simpl in Happ.
  pose proof H as H'; apply Forall_cons_iff in H' as [Hri Hrest].
  pose proof Hrest as Hrest'; rewrite Happ in Hrest'.
  apply Forall_app in Hrest' as [Hg Hr].
  destruct (_ <=? _)%nat.
  - destruct (band_region results ri (ri :: g)) as [r|] eqn:Eb; cbn [obind] in E;
      [|discriminate].
    destruct (multi_pass_loop fuel results rest') as [rs'|] eqn:Er;
      cbn [obind] in E; [|discriminate].
    injection E as <-; constructor;
      [exact (Hband ri g r Hri Hg Eb)|exact (IH rest' rs' Hr Er)].
  - destruct (multi_pass_loop fuel results rest) as [rs'|] eqn:Er;
      cbn [obind] in E; [|discriminate].
    injection E as <-; constructor; [exact Hri|exact (IH rest rs' Hrest Er)].
Qed.

Lemma aggregate_inv (rs : list Region.t) :
  aggregate results = Some rs -> Forall P rs.
Proof.
  unfold aggregate; intros E.
  case_eq results; [intros Hn; rewrite Hn in E; injection E as <-; auto|].
  intros b t Hn; rewrite Hn in E; rewrite <- Hn in E.
  destruct (_merge_consecutive results) as [raw|] eqn:Eraw; cbn [obind] in E;
    [|discriminate].
  destruct (_absorb_noise raw results) as [ab|] eqn:Eab; cbn [obind] in E;
    [|discriminate].
  destruct (_detect_multi_pass (_filter_by_size ab) results) as [wm|] eqn:Ewm;
    cbn [obind] in E; [|discriminate].
  destruct (_compute_confidence _ _) as [sc|] eqn:Esc; cbn [obind] in E;
    [|discriminate].
  injection E as <-.
  apply number_from_keep; [exact Hid|].
  eapply compute_confidence_keep; [exact Hconf| |exact Esc].
  apply suppress_sub.
  unfold _detect_multi_pass in Ewm.
  assert (Hsz : Forall P (_filter_by_size ab)).
  { apply Forall_filter_sub. eapply absorb_noise_inv; [|exact Eab].
    eapply merge_loop_inv; [exact HQ|exact Eraw]. }
  destruct (_ <? _)%nat; [injection Ewm as <-; exact Hsz|].
  eapply multi_pass_loop_inv; eauto.
Qed.

End AggregateInvariant.


Lemma zlen_app {A} (l1 l2 : list A) : zlen (l1 ++ l2) = (zlen l1 + zlen l2)%Z.
Proof. unfold zlen; rewrite length_app; lia. Qed.

Lemma band_count_sum (g : list Region.t) :
  Forall region_counts_ok g ->
  fold_right Z.add 0%Z (map Region.block_count g) = zlen (flat_map Region.blocks g).
Proof.
  induction g as [|r t IH]; intros H; simpl; [reflexivity|].
  apply Forall_cons_iff in H as [[_ Hr] Ht].
  rewrite zlen_app, IH by exact Ht; lia.
Qed.

(** X5: every region [aggregate] returns has [size = end_offset -
    start_offset + 1] and [block_count] equal to the length of its member
    id list. *)
Theorem aggregate_region_counts (results : list BlockResult.t) (rs : list Region.t) :
  aggregate results = Some rs -> Forall region_counts_ok rs.
Proof.
  apply (aggregate_inv (fun _ => True)).
  - apply Forall_forall; auto.
  - intros rid b run r _ _ _ _ E; unfold run_region in E.
    destruct (py_div _ _) as [a|]; cbn [obind] in E; [|discriminate].
    injection E as <-; split; cbn [Region.size Region.end_offset Region.start_offset
      Region.block_count Region.blocks]; [reflexivity|].
    unfold zlen; cbn [map length]; rewrite length_map; reflexivity.
  - intros; split; reflexivity.
  - intros first g r Hf Hg E; unfold band_region in E.
    destruct (gather _ _ _) as [es|]; cbn [obind] in E; [|discriminate].
    destruct (mean_or_zero es) as [m|]; cbn [obind] in E; [|discriminate].
    injection E as <-; split; [reflexivity|].
    exact (band_count_sum (first :: g) (Forall_cons _ Hf Hg)).
  - intros r c H; exact H.
  - intros r i H; exact H.
Qed.


(* ================================================================== *)
(** * Labels, entropy, confidence and ids of the aggregated regions *)

Lemma classify_all_results (np : bool) (blocks : list (Z * Z * list Byte.byte))
  (results : list BlockResult.t) :
  classify_all np blocks = Some results ->
  Forall (fun r => exists i off data, classify_block np i off data = Some r) results.
Proof.
  revert results; induction blocks as [|[[i off] data] t IH]; intros results E;
    simpl in E; [injection E as <-; constructor|].
  destruct (classify_block np i off data) as [r|] eqn:Er; cbn [obind] in E;
    [|discriminate].
  destruct (classify_all np t) as [rs|]; cbn [obind] in E; [|discriminate].
  injection E as <-; constructor; eauto.
Qed.

Lemma classify_block_label_flag (np : bool) (i off : Z) (data : list Byte.byte)
  (r : BlockResult.t) :
  classify_block np i off data = Some r ->
  BlockResult.is_suspicious r = spec_suspicious_label (BlockResult.wipe_type r).
Proof.
  intros E; destruct (classify_block_shape np i off data)
    as (wt & e & conf & db & dp & zr & fr & E'); rewrite E in E'.
  injection E' as ->; reflexivity.
Qed.

Lemma classify_block_entropy (np : bool) (i off : Z) (data : list Byte.byte)
  (r : BlockResult.t) :
  classify_block np i off data = Some r -> 0 <= BlockResult.entropy r <= 8.
Proof.
  intros E; destruct (classify_block_ranges np i off data) as (r' & E' & H & _).
  rewrite E in E'; injection E' as ->; exact H.
Qed.

(** Mean of a non-empty list of values in [[lo, hi]]. *)
Lemma Rsum_bounds (lo hi : R) (xs : list R) :
  Forall (fun x => lo <= x <= hi) xs ->
  lo * INR (length xs) <= Rsum xs <= hi * INR (length xs).
Proof.
  induction xs as [|x t IH]; intros H; cbn [Rsum length]; [simpl; lra|].
  apply Forall_cons_iff in H as [Hx Ht]; specialize (IH Ht).
  rewrite S_INR; lra.
Qed.

Lemma mean_bounds (lo hi : R) (xs : list R) :
  Forall (fun x => lo <= x <= hi) xs -> xs <> [] ->
  lo <= Rsum xs / IZR (zlen xs) <= hi.
Proof.
  intros H Hne; pose proof (Rsum_bounds lo hi xs H) as [H1 H2].
  unfold zlen; rewrite <- INR_IZR_INZ.
  assert (Hp : 0 < INR (length xs)).
  { apply lt_0_INR; destruct xs; [congruence|simpl; lia]. }
  split; [apply Rmult_le_reg_r with (INR (length xs)); [exact Hp|]|
          apply Rmult_le_reg_r with (INR (length xs)); [exact Hp|]];
    unfold Rdiv; rewrite Rmult_assoc, Rinv_l by lra; lra.
Qed.

Lemma mean_or_zero_bounds (hi : R) (xs : list R) (m : R) :
  0 <= hi -> Forall (fun x => 0 <= x <= hi) xs -> mean_or_zero xs = Some m ->
  0 <= m <= hi.
Proof.
  intros Hh H E; unfold mean_or_zero in E; destruct xs as [|x t].
  - injection E as <-; lra.
  - rewrite py_div_nz in E by (unfold zlen; simpl; lia).
    injection E as <-; exact (mean_bounds 0 hi (x :: t) H ltac:(discriminate)).
Qed.

(** ** Labels of the aggregated regions *)
(** X6: on classified blocks, [aggregate] never returns a region labelled
    NORMAL or UNALLOCATED. *)
Theorem aggregate_labels_suspicious (numpy_available : bool)
  (blocks : list (Z * Z * list Byte.byte)) (results : list BlockResult.t)
  (rs : list Region.t) :
  classify_all numpy_available blocks = Some results ->
  aggregate results = Some rs ->
  Forall (fun r => Region.wipe_type r <> NORMAL /\ Region.wipe_type r <> UNALLOCATED) rs.
Proof.
  intros Hc E.
  assert (H : Forall (fun r => spec_suspicious_label (Region.wipe_type r) = true) rs).
  { apply (aggregate_inv (fun b => BlockResult.is_suspicious b = true ->
                            spec_suspicious_label (BlockResult.wipe_type b) = true)
             _ results); [| | | | | |exact E].
    - eapply Forall_impl; [|exact (classify_all_results _ _ _ Hc)].
      intros b (i & off & data & Eb) Hs.
      rewrite <- (classify_block_label_flag _ _ _ _ _ Eb); exact Hs.
    - intros rid b run r Hb _ Hs _ Er; unfold run_region in Er.
      destruct (py_div _ _); cbn [obind] in Er; [|discriminate].
      injection Er as <-; exact (Hb Hs).
    - intros; exact H.
    - intros first g r _ _ Eb; unfold band_region in Eb.
      destruct (gather _ _ _); cbn [obind] in Eb; [|discriminate].
      destruct (mean_or_zero _); cbn [obind] in Eb; [|discriminate].
      injection Eb as <-; reflexivity.
    - intros r c Hr; exact Hr.
    - intros r i Hr; exact Hr. }
  eapply Forall_impl; [|exact H]; intros r Hr.
  cbv beta in Hr; split; intros C; rewrite C in Hr; discriminate.
Qed.

(** ** Average entropy of the aggregated regions *)
(** X7: on classified blocks, every region [aggregate] returns has an
    average entropy in [[0, 8]]. *)
Theorem aggregate_avg_entropy_range (numpy_available : bool)
  (blocks : list (Z * Z * list Byte.byte)) (results : list BlockResult.t)
  (rs : list Region.t) :
  classify_all numpy_available blocks = Some results ->
  aggregate results = Some rs ->
  Forall (fun r => 0 <= Region.avg_entropy r <= 8) rs.
Proof.
  intros Hc E.
  assert (HQ : Forall (fun b => 0 <= BlockResult.entropy b <= 8) results).
  { eapply Forall_impl; [|exact (classify_all_results _ _ _ Hc)].
    intros b (i & off & data & Eb); exact (classify_block_entropy _ _ _ _ _ Eb). }
  apply (aggregate_inv (fun b => 0 <= BlockResult.entropy b <= 8) _ results HQ);
    [| | | | |exact E].
  - intros rid b run r Hb Hrun _ _ Er; unfold run_region in Er.
    rewrite py_div_nz in Er by (unfold zlen; simpl; lia); cbn [obind] in Er.
    injection Er as <-; cbn [Region.avg_entropy].
    replace (zlen (b :: run)) with (zlen (map BlockResult.entropy (b :: run)))
      by (unfold zlen; rewrite length_map; reflexivity).
    refine (mean_bounds 0 8 (map BlockResult.entropy (b :: run)) _ ltac:(discriminate)).
    apply Forall_map; constructor; auto.
  - intros prev curr lo hi es m _ _ _ Ees Em; cbn [Region.avg_entropy].
    apply (mean_or_zero_bounds 8 es); [lra| |exact Em].
    exact (gather_values (fun x => 0 <= x <= 8) _ _ _ _ HQ Ees).
  - intros first g r _ _ Eb; unfold band_region in Eb.
    destruct (gather _ _ _) as [es|] eqn:Ees; cbn [obind] in Eb; [|discriminate].
    destruct (mean_or_zero es) as [m|] eqn:Em; cbn [obind] in Eb; [|discriminate].
    injection Eb as <-; cbn [Region.avg_entropy].
    apply (mean_or_zero_bounds 8 es); [lra| |exact Em].
    exact (gather_values (fun x => 0 <= x <= 8) _ _ _ _ HQ Ees).
  - intros r c Hr; exact Hr.
  - intros r i Hr; exact Hr.
Qed.

(** ** Region confidence *)
Lemma region_confidence_range (all_blocks : list BlockResult.t) (r : Region.t)
  (c : R) :
  region_confidence all_blocks r = Some c -> 0 <= c <= 1 /\ rounded3 c.
Proof.
  unfold region_confidence; intros E.
  destruct (filter _ _) as [|v vs]; [injection E as <-; split; [lra|]|].
  - exists 500%Z; lra.
  - destruct (gather _ _ _); cbn [obind] in E; [|discriminate].
    destruct (py_div _ _); cbn [obind] in E; [|discriminate].
    destruct (gather _ _ _); cbn [obind] in E; [|discriminate].
    destruct (py_div _ _); cbn [obind] in E; [|discriminate].
    injection E as <-; split.
    + apply (py_round_int_between _ 0 1).
      unfold Rmin, Rmax; repeat destruct Rle_dec; simpl; lra.
    + unfold py_round; eexists; simpl; f_equal; ring.
Qed.

Lemma compute_confidence_range (regions rs : list Region.t)
  (all_blocks : list BlockResult.t) :
  _compute_confidence regions all_blocks = Some rs ->
  Forall (fun r => 0 <= Region.confidence r <= 1 /\ rounded3 (Region.confidence r)) rs.
Proof.
  revert rs; induction regions as [|r t IH]; intros rs E; simpl in E.
  - injection E as <-; constructor.
  - destruct (region_confidence all_blocks r) as [c|] eqn:Ec; cbn [obind] in E;
      [|discriminate].
    destruct (_compute_confidence t all_blocks) as [rs'|]; cbn [obind] in E;
      [|discriminate].
    injection E as <-; constructor; [|auto].
    exact (region_confidence_range _ _ _ Ec).
Qed.

(** X8: every region [aggregate] returns has a confidence in [[0, 1]] that
    is a multiple of 0.001. *)
Theorem aggregate_confidence_range (results : list BlockResult.t) (rs : list Region.t) :
  aggregate results = Some rs ->
  Forall (fun r => 0 <= Region.confidence r <= 1 /\ rounded3 (Region.confidence r)) rs.
Proof.
  unfold aggregate; intros E.
  destruct results as [|b t]; [injection E as <-; auto|].
  destruct (_merge_consecutive _) as [raw|]; cbn [obind] in E; [|discriminate].
  destruct (_absorb_noise raw _) as [ab|]; cbn [obind] in E; [|discriminate].
  destruct (_detect_multi_pass _ _) as [wm|]; cbn [obind] in E; [|discriminate].
  destruct (_compute_confidence _ _) as [sc|] eqn:Esc; cbn [obind] in E;
    [|discriminate].
  injection E as <-.
  apply number_from_keep; [intros r j H; exact H|].
  exact (compute_confidence_range _ _ _ Esc).
Qed.

(** ** Consecutive ranges *)
Lemma zrange_cons (i : Z) (n : nat) :
  zrange i (i + Z.of_nat (S n)) = i :: zrange (i + 1) (i + 1 + Z.of_nat n).
Proof.
  unfold zrange.
  replace (Z.to_nat (i + Z.of_nat (S n) - i)) with (S n) by lia.
  replace (Z.to_nat (i + 1 + Z.of_nat n - (i + 1))) with n by lia.
  cbn [seq map]; f_equal; [lia|].
  rewrite <- seq_shift, map_map; apply map_ext; intros; lia.
Qed.

(* ================================================================== *)
(** * compute_score *)

(** ** compute_score fields *)
Lemma compute_score_fields (blocks : list BlockResult.t) (regions : list Region.t) :
  blocks <> [] ->
  exists st,
    compute_score blocks regions = Some st /\
    ScanStats.total_blocks st = zlen blocks /\
    ScanStats.suspicious_blocks st = zlen (filter BlockResult.is_suspicious blocks) /\
    ScanStats.wipe_density st
      = IZR (zlen (filter BlockResult.is_suspicious blocks)) / IZR (zlen blocks) /\
    ScanStats.suspicious_pct st = ScanStats.wipe_density st * 100 /\
    (0 <= ScanStats.intent_score st <= 100)%Z /\
    ScanStats.avg_entropy_flagged st
      = (if (zlen (filter BlockResult.is_suspicious blocks) >? 0)%Z
         then Rsum (map BlockResult.entropy (filter BlockResult.is_suspicious blocks))
              / IZR (zlen (filter BlockResult.is_suspicious blocks))
         else 0) /\
    ScanStats.wipe_type_counts st
      = fold_left (fun d b => dict_incr d (BlockResult.wipe_type b))
          (filter BlockResult.is_suspicious blocks) initial_type_counts.
Proof.
  intros Hne.
  pose proof (zlen_pos blocks Hne) as Hpos.
  unfold compute_score.
  destruct (Z.eqb_spec (zlen blocks) 0) as [E|_]; [lia|].
  rewrite !py_div_nz by lia; cbn [obind].
  set (n_susp := zlen (filter BlockResult.is_suspicious blocks)).
  destruct (Z.gtb_spec n_susp 0) as [Hs|Hs].
  - rewrite py_div_nz by lia; cbn [obind].
    destruct regions as [|r rs].
    + cbn [obind]; rewrite !py_list_index_verdict; cbn [obind].
      rewrite py_index_verdict_max; cbn [obind].
      eexists; split; [reflexivity|]; cbn [ScanStats.total_blocks ScanStats.suspicious_blocks ScanStats.wipe_density ScanStats.suspicious_pct ScanStats.intent_score ScanStats.avg_entropy_flagged ScanStats.wipe_type_counts]; repeat split; try reflexivity; try lia; lra.
    + rewrite py_div_nz
        by (assert (0 < zlen (r :: rs))%Z by (apply zlen_pos; discriminate); lia).
      cbn [obind]; rewrite !py_list_index_verdict; cbn [obind].
      rewrite py_index_verdict_max; cbn [obind].
      eexists; split; [reflexivity|]; cbn [ScanStats.total_blocks ScanStats.suspicious_blocks ScanStats.wipe_density ScanStats.suspicious_pct ScanStats.intent_score ScanStats.avg_entropy_flagged ScanStats.wipe_type_counts]; repeat split; try reflexivity; try lia; lra.
  - cbn [obind].
    destruct regions as [|r rs].
    + cbn [obind]; rewrite !py_list_index_verdict; cbn [obind].
      rewrite py_index_verdict_max; cbn [obind].
      eexists; split; [reflexivity|]; cbn [ScanStats.total_blocks ScanStats.suspicious_blocks ScanStats.wipe_density ScanStats.suspicious_pct ScanStats.intent_score ScanStats.avg_entropy_flagged ScanStats.wipe_type_counts]; repeat split; try reflexivity; try lia; lra.
    + rewrite py_div_nz
        by (assert (0 < zlen (r :: rs))%Z by (apply zlen_pos; discriminate); lia).
      cbn [obind]; rewrite !py_list_index_verdict; cbn [obind].
      rewrite py_index_verdict_max; cbn [obind].
      eexists; split; [reflexivity|]; cbn [ScanStats.total_blocks ScanStats.suspicious_blocks ScanStats.wipe_density ScanStats.suspicious_pct ScanStats.intent_score ScanStats.avg_entropy_flagged ScanStats.wipe_type_counts]; repeat split; try reflexivity; try lia; lra.
Qed.

(** X10: [compute_score] returns on every block and region list, with
    [0 <= suspicious_blocks <= total_blocks], a density in [[0, 1]],
    [suspicious_pct = 100 * density] and an intent score in [[0, 100]]. *)
Theorem compute_score_ranges (blocks : list BlockResult.t) (regions : list Region.t) :
  exists st,
    compute_score blocks regions = Some st /\
    (0 <= ScanStats.suspicious_blocks st <= ScanStats.total_blocks st)%Z /\
    0 <= ScanStats.wipe_density st <= 1 /\
    ScanStats.suspicious_pct st = ScanStats.wipe_density st * 100 /\
    (0 <= ScanStats.intent_score st <= 100)%Z.
Proof.
  destruct blocks as [|b t].
  - exists _empty_stats; split; [reflexivity|]; cbn; repeat split; try lia; lra.
  - destruct (compute_score_fields (b :: t) regions)
      as (st & E & Ht & Hs & Hd & Hp & Hi & _); [discriminate|].
    exists st; split; [exact E|].
    assert (Hle : (0 <= zlen (filter BlockResult.is_suspicious (b :: t))
                    <= zlen (b :: t))%Z).
    { split; [apply zlen_nonneg|]; unfold zlen; apply Nat2Z.inj_le, filter_length_le. }
    assert (Hpos : (0 < zlen (b :: t))%Z) by (apply zlen_pos; discriminate).
    rewrite Ht, Hs; repeat split; try lia; try exact Hp; rewrite Hd.
    + unfold Rdiv; apply Rmult_le_pos; [apply IZR_le; lia|].
      left; apply Rinv_0_lt_compat, IZR_lt; lia.
    + assert (HR : IZR (zlen (filter BlockResult.is_suspicious (b :: t)))
                   <= IZR (zlen (b :: t))) by (apply IZR_le; lia).
      apply (Rmult_le_reg_r (IZR (zlen (b :: t)))); [apply IZR_lt; lia|].
      unfold Rdiv; rewrite Rmult_assoc, Rinv_l by (apply not_0_IZR; lia); lra.
Qed.

Lemma dict_incr_keys (d : list (WipeType * Z)) (k : WipeType) :
  map fst (dict_incr d k) = map fst d.
Proof.
  induction d as [|[k' v] t IH]; simpl; [reflexivity|].
  destruct (WipeType_eqb k k'); simpl; f_equal; exact IH.
Qed.

Lemma dict_incr_sum (d : list (WipeType * Z)) (k : WipeType) :
  map fst d = map fst initial_type_counts ->
  zsum (map snd (dict_incr d k))
  = (zsum (map snd d) + if spec_suspicious_label k then 1 else 0)%Z.
Proof.
  intros H.
  destruct d as [|[k1 v1] [|[k2 v2] [|[k3 v3] [|[k4 v4] [|[k5 v5] [|[k6 v6]
    [|[k7 v7] [|x t]]]]]]]]; cbn in H; try discriminate.
  injection H as -> -> -> -> -> -> ->.
  destruct k; cbn; lia.
Qed.

Lemma type_counts_fold (l : list BlockResult.t) (d : list (WipeType * Z)) :
  Forall (fun b => spec_suspicious_label (BlockResult.wipe_type b) = true) l ->
  map fst d = map fst initial_type_counts ->
  let d' := fold_left (fun d b => dict_incr d (BlockResult.wipe_type b)) l d in
  map fst d' = map fst initial_type_counts /\
  zsum (map snd d') = (zsum (map snd d) + zlen l)%Z.
Proof.
  revert d; induction l as [|b t IH]; intros d Hl Hd; cbn [fold_left].
  - split; [exact Hd|unfold zlen; simpl; lia].
  - apply Forall_cons_iff in Hl as [Hb Ht].
    destruct (IH (dict_incr d (BlockResult.wipe_type b)) Ht)
      as [H1 H2]; [rewrite dict_incr_keys; exact Hd|].
    split; [exact H1|]; rewrite H2, dict_incr_sum by exact Hd; rewrite Hb.
    unfold zlen; cbn [length]; lia.
Qed.

Lemma classify_all_flagged (np : bool) (blocks : list (Z * Z * list Byte.byte))
  (results : list BlockResult.t) :
  classify_all np blocks = Some results ->
  Forall (fun b => spec_suspicious_label (BlockResult.wipe_type b) = true)
    (filter BlockResult.is_suspicious results).
Proof.
  intros Hc; apply Forall_forall; intros b Hb; apply filter_In in Hb as [Hin Hs].
  pose proof (proj1 (Forall_forall _ _) (classify_all_results _ _ _ Hc) b Hin)
    as (i & off & data & Eb).
  rewrite <- (classify_block_label_flag _ _ _ _ _ Eb); exact Hs.
Qed.

(** X11: on classified blocks, the [wipe_type_counts] of [compute_score] has
    exactly the seven suspicious labels as keys, in their fixed order, and
    its counts add up to [suspicious_blocks]. *)
Theorem compute_score_type_counts (numpy_available : bool)
  (blocks : list (Z * Z * list Byte.byte)) (results : list BlockResult.t)
  (regions : list Region.t) :
  classify_all numpy_available blocks = Some results ->
  exists st,
    compute_score results regions = Some st /\
    map fst (ScanStats.wipe_type_counts st) = map fst initial_type_counts /\
    zsum (map snd (ScanStats.wipe_type_counts st)) = ScanStats.suspicious_blocks st.
Proof.
  intros Hc.
  destruct results as [|b t] eqn:Er.
  - exists _empty_stats; split; [reflexivity|]; split; reflexivity.
  - rewrite <- Er in *.
    destruct (compute_score_fields results regions)
      as (st & E & _ & Hs & _ & _ & _ & _ & Hd); [rewrite Er; discriminate|].
    exists st; split; [exact E|]; rewrite Hd, Hs.
    destruct (type_counts_fold (filter BlockResult.is_suspicious results)
                initial_type_counts (classify_all_flagged _ _ _ Hc) eq_refl)
      as [H1 H2].
    split; [exact H1|]; rewrite H2; reflexivity.
Qed.

(** X12: on classified blocks, [avg_entropy_flagged] of [compute_score]
    lies in [[0, 8]]. *)
Theorem compute_score_flagged_entropy (numpy_available : bool)
  (blocks : list (Z * Z * list Byte.byte)) (results : list BlockResult.t)
  (regions : list Region.t) :
  classify_all numpy_available blocks = Some results ->
  exists st,
    compute_score results regions = Some st /\
    0 <= ScanStats.avg_entropy_flagged st <= 8.
Proof.
  intros Hc.
  destruct results as [|b t] eqn:Er.
  - exists _empty_stats; split; [reflexivity|]; cbn; lra.
  - rewrite <- Er in *.
    destruct (compute_score_fields results regions)
      as (st & E & _ & _ & _ & _ & _ & Ha & _); [rewrite Er; discriminate|].
    exists st; split; [exact E|]; rewrite Ha.
    set (susp := filter BlockResult.is_suspicious results).
    destruct (Z.gtb_spec (zlen susp) 0) as [Hp|Hp]; [|lra].
    replace (zlen susp) with (zlen (map BlockResult.entropy susp))
      by (unfold zlen; rewrite length_map; reflexivity).
    apply mean_bounds; [|intros C; apply map_eq_nil in C; subst susp;
                          rewrite C in Hp; unfold zlen in Hp; simpl in Hp; lia].
    apply Forall_map, Forall_forall; intros x Hx; subst susp.
    apply filter_In in Hx as [Hx _].
    pose proof (proj1 (Forall_forall _ _) (classify_all_results _ _ _ Hc) x Hx)
      as (i & off & data & Ex).
    exact (classify_block_entropy _ _ _ _ _ Ex).
Qed.


(* ================================================================== *)
(** * The fallback aggregation of run_scan *)

Lemma zsum_app (l1 l2 : list Z) : zsum (l1 ++ l2) = (zsum l1 + zsum l2)%Z.
Proof. induction l1 as [|x t IH]; unfold zsum in *; cbn [app fold_right] in *; lia. Qed.

Lemma dict_add_keys (d : list (WipeType * Z)) (k k' : WipeType) :
  In k (map fst (dict_add d k')) -> In k (map fst d) \/ k = k'.
Proof.
  induction d as [|[k0 v] t IH]; cbn [dict_add map fst].
  - intros [H|[]]; right; congruence.
  - destruct (WipeType_eqb k' k0); cbn [map fst In]; [tauto|].
    intros [H|H]; [tauto|destruct (IH H); tauto].
Qed.

Lemma fold_dict_add_keys (run : list BlockResult.t) (d : list (WipeType * Z))
  (k : WipeType) :
  In k (map fst (fold_left (fun d b => dict_add d (BlockResult.wipe_type b)) run d)) ->
  In k (map fst d) \/ exists b, In b run /\ BlockResult.wipe_type b = k.
Proof.
  revert d; induction run as [|b t IH]; intros d H; cbn [fold_left] in H; [tauto|].
  destruct (IH _ H) as [H1|(b' & Hb' & E)].
  - destruct (dict_add_keys _ _ _ H1) as [H2|H2]; [tauto|].
    right; exists b; split; [left; reflexivity|congruence].
  - right; exists b'; split; [right; exact Hb'|exact E].
Qed.

Lemma max_fold_in (l : list (WipeType * Z)) (S : list WipeType)
  (acc : WipeType * Z) :
  In (fst acc) S -> (forall p, In p l -> In (fst p) S) ->
  In (fst (fold_left (fun '(bk, bv) '(k, v) =>
                        if (bv <? v)%Z then (k, v) else (bk, bv)) l acc)) S.
Proof.
  revert acc; induction l as [|[k v] t IH]; intros [bk bv] Hacc Hall; [exact Hacc|].
  cbn [fold_left]; apply IH; [|intros p Hp; apply Hall; right; exact Hp].
  destruct (bv <? v)%Z; [apply (Hall (k, v)); left; reflexivity|exact Hacc].
Qed.

(** [max(d, key=...)] returns a key of [d]. *)
Lemma py_max_key_in (d : list (WipeType * Z)) (k : WipeType) :
  py_max_key d = Some k -> In k (map fst d).
Proof.
  destruct d as [|[k0 v0] t]; cbn [py_max_key]; [discriminate|].
  intros E; injection E as <-.
  apply max_fold_in; [left; reflexivity|].
  intros p Hp; right; apply in_map; exact Hp.
Qed.

Lemma flush_spec (bs : Z) (run : list BlockResult.t) (rid : Z)
  (rs : list Region.t) :
  _flush bs run rid = Some rs ->
  (run = [] /\ rs = []) \/
  (exists r, rs = [r] /\ Region.block_count r = zlen run /\ Region.id r = rid /\
     exists b, In b run /\ BlockResult.wipe_type b = Region.wipe_type r).
Proof.
  destruct run as [|b0 t]; cbn [_flush]; intros E; [injection E as <-; tauto|].
  right.
  destruct (py_max_key _) as [dom|] eqn:Ed; cbn [obind] in E; [|discriminate].
  destruct (py_div _ _); cbn [obind] in E; [|discriminate].
  destruct (py_div _ _); cbn [obind] in E; [|discriminate].
  injection E as <-; eexists; split; [reflexivity|].
  cbn [Region.block_count Region.id Region.wipe_type]; split; [reflexivity|].
  split; [reflexivity|].
  apply py_max_key_in, fold_dict_add_keys in Ed as [[]|H]; exact H.
Qed.

Lemma fallback_loop_spec (bs : Z) (l run : list BlockResult.t) (rid : Z)
  (rs : list Region.t) :
  fallback_loop bs l run rid = Some rs ->
  zsum (map Region.block_count rs)
    = (zlen run + zlen (filter BlockResult.is_suspicious l))%Z /\
  map Region.id rs = zrange rid (rid + zlen rs) /\
  Forall (fun r => exists b, In b (run ++ filter BlockResult.is_suspicious l) /\
                     BlockResult.wipe_type b = Region.wipe_type r) rs.
Proof.
  revert run rid rs; induction l as [|blk t IH]; intros run rid rs E;
    cbn [fallback_loop] in E.
  - destruct (flush_spec _ _ _ _ E) as [[-> ->]|(r & -> & Hc & Hi & Hb)].
    + split; [reflexivity|split; [|constructor]].
      unfold zrange, zlen; simpl; replace (rid + 0 - rid)%Z with 0%Z by lia; reflexivity.
    + cbn [map zsum fold_right filter]; rewrite app_nil_r; split; [|split].
      * rewrite Hc; unfold zlen; cbn [length Z.of_nat]; lia.
      * unfold zlen; cbn [length]; rewrite Hi.
        replace (rid + Z.of_nat 1)%Z with (rid + Z.of_nat (S 0))%Z by reflexivity.
        rewrite zrange_cons; unfold zrange; replace (rid + 1 + Z.of_nat 0 - (rid + 1))%Z
          with 0%Z by lia; reflexivity.
      * constructor; [exact Hb|constructor].
  - cbn [filter]; destruct (BlockResult.is_suspicious blk) eqn:Es.
    + destruct (IH _ _ _ E) as (H1 & H2 & H3); split; [|split; [exact H2|]].
      * rewrite H1, zlen_app; unfold zlen; cbn [length]; lia.
      * rewrite <- app_assoc in H3; exact H3.
    + destruct (_flush bs run rid) as [rs1|] eqn:E1; cbn [obind] in E; [|discriminate].
      destruct (fallback_loop bs t [] (rid + zlen rs1)%Z) as [rs2|] eqn:E2;
        cbn [obind] in E; [|discriminate].
      injection E as <-.
      destruct (IH _ _ _ E2) as (H1 & H2 & H3).
      destruct (flush_spec _ _ _ _ E1) as [[-> ->]|(r & -> & Hc & Hi & Hb)].
      * cbn [app] in *; split; [rewrite H1; unfold zlen at 1; simpl; lia|split; [|exact H3]].
        rewrite H2; f_equal; unfold zlen; simpl; lia.
      * cbn [app map]; split; [|split].
        -- change (zsum (Region.block_count r :: map Region.block_count rs2))
             with (Region.block_count r + zsum (map Region.block_count rs2))%Z.
           rewrite H1, Hc; unfold zlen; cbn [length]; lia.
        -- rewrite Hi, H2; unfold zlen; cbn [length].
           rewrite (zrange_cons rid (length rs2)); f_equal; f_equal; lia.
        -- constructor; [destruct Hb as (b & Hb & Eb); exists b; split; [apply in_or_app; left; exact Hb|exact Eb]|].
           eapply Forall_impl; [|exact H3]; intros r' (b & Hb' & Eb); exists b; split; [|exact Eb].
           apply in_or_app; right; exact Hb'.
Qed.

Lemma flush_some (bs : Z) (run : list BlockResult.t) (rid : Z) :
  exists rs, _flush bs run rid = Some rs.
Proof.
  destruct run as [|b t]; [exists []; reflexivity|].
  destruct (flush_one bs (b :: t) rid) as [r E]; [discriminate|eauto].
Qed.

Lemma fallback_loop_some (bs : Z) (l run : list BlockResult.t) (rid : Z) :
  exists rs, fallback_loop bs l run rid = Some rs.
Proof.
  revert run rid; induction l as [|blk t IH]; intros run rid; cbn [fallback_loop].
  - apply flush_some.
  - destruct (BlockResult.is_suspicious blk); [apply IH|].
    destruct (flush_some bs run rid) as [rs1 E1]; rewrite E1; cbn [obind].
    destruct (IH [] (rid + zlen rs1)%Z) as [rs2 E2]; rewrite E2; cbn [obind]; eauto.
Qed.

(** X13: [_fallback_aggregate] returns on every block list; its regions'
    block counts add up to the number of suspicious blocks, its regions
    are numbered 0, 1, ..., n-1, and each region's label is the label of
    some suspicious input block. *)
Theorem fallback_aggregate_counts (block_results : list BlockResult.t) :
  exists rs,
    _fallback_aggregate block_results = Some rs /\
    zsum (map Region.block_count rs)
      = zlen (filter BlockResult.is_suspicious block_results) /\
    map Region.id rs = zrange 0 (zlen rs) /\
    Forall (fun r => exists b, In b block_results /\ BlockResult.is_suspicious b = true /\
                       BlockResult.wipe_type b = Region.wipe_type r) rs.
Proof.
  unfold _fallback_aggregate.
  set (bs := match block_results with
             | b0 :: b1 :: _ =>
                 let bs := (BlockResult.offset b1 - BlockResult.offset b0)%Z in
                 if (bs <=? 0)%Z then 512%Z else bs
             | _ => 512%Z end).
  destruct (fallback_loop_some bs block_results [] 0) as [rs E].
  exists rs; split; [exact E|].
  destruct (fallback_loop_spec _ _ _ _ _ E) as (H1 & H2 & H3).
  split; [rewrite H1; reflexivity|split; [exact H2|]].
  eapply Forall_impl; [|exact H3]; intros r (b & Hb & Eb).
  cbn [app] in Hb; apply filter_In in Hb as [Hin Hs]; eauto.
Qed.


(* ================================================================== *)
(** * The block reader *)


Lemma firstn_min_length {A} (a : nat) (l : list A) :
  firstn (Nat.min a (length l)) l = firstn a l.
Proof.
  destruct (Nat.le_ge_cases a (length l)) as [H|H].
  - rewrite Nat.min_l by exact H; reflexivity.
  - rewrite Nat.min_r by exact H; rewrite firstn_all, firstn_all2 by exact H; reflexivity.
Qed.

Lemma py_slice_block {A} (l : list A) (i bs : Z) :
  (0 <= i < zlen l)%Z -> (0 < bs)%Z ->
  py_slice l i (i + bs) = firstn (Z.to_nat bs) (skipn (Z.to_nat i) l) /\
  py_slice l i (i + bs) <> [].
Proof.
  intros Hi Hb; unfold py_slice.
  replace (i <? 0)%Z with false by (symmetry; apply Z.ltb_ge; lia).
  replace (i + bs <? 0)%Z with false by (symmetry; apply Z.ltb_ge; lia).
  replace (Z.min i (zlen l)) with i by lia.
  assert (E : Z.to_nat (Z.min (i + bs) (zlen l) - i)
              = Nat.min (Z.to_nat bs) (length (skipn (Z.to_nat i) l))).
  { rewrite length_skipn; unfold zlen in *; lia. }
  rewrite E, firstn_min_length; split; [reflexivity|].
  intros C; apply (f_equal (@length A)) in C.
  rewrite length_firstn, length_skipn in C; unfold zlen in Hi; cbn in C; lia.
Qed.

Lemma div_ceil_lt (k L n : nat) : (0 < n)%nat ->
  (k < (L + n - 1) / n)%nat -> (k * n < L)%nat.
Proof.
  intros Hn Hk.
  assert (H1 : (S k <= (L + n - 1) / n)%nat) by lia.
  apply (Nat.mul_le_mono_r _ _ n) in H1.
  pose proof (Nat.Div0.mul_div_le (L + n - 1) n) as H2.
  rewrite Nat.mul_comm in H2; cbn in H1; lia.
Qed.

Lemma count_eq (L : nat) (bs : Z) : (0 < bs)%Z ->
  Z.to_nat ((Z.of_nat L + bs - 1) / bs) = ((L + Z.to_nat bs - 1) / Z.to_nat bs)%nat.
Proof.
  intros Hb.
  replace (Z.of_nat L + bs - 1)%Z with (Z.of_nat (L + Z.to_nat bs - 1)) by lia.
  replace bs with (Z.of_nat (Z.to_nat bs)) at 2 by lia.
  rewrite <- Nat2Z.inj_div, Nat2Z.id; reflexivity.
Qed.

Lemma seq_shift_add (m q : nat) : seq m q = map (Nat.add m) (seq 0 q).
Proof.
  revert m; induction q as [|q IH]; intros m; [reflexivity|].
  cbn [seq map]; rewrite Nat.add_0_r; f_equal.
  rewrite IH, <- seq_shift, map_map; apply map_ext; intros; lia.
Qed.

Lemma expected_nil (bs start : Z) : (0 < bs)%Z -> expected_blocks bs start [] = [].
Proof.
  intros Hb; unfold expected_blocks; cbn [length].
  rewrite Nat.div_small by lia; reflexivity.
Qed.

Lemma expected_split (bs start : Z) (rest : list Byte.byte) (m : nat) :
  (0 < bs)%Z -> (m * Z.to_nat bs <= length rest)%nat ->
  expected_blocks bs start rest
  = expected_blocks bs start (firstn (m * Z.to_nat bs) rest)
    ++ expected_blocks bs (start + Z.of_nat m) (skipn (m * Z.to_nat bs) rest).
Proof.
  intros Hb Hm; unfold expected_blocks.
  set (n := Z.to_nat bs) in *.
  assert (Hn : (0 < n)%nat) by (subst n; lia).
  rewrite length_firstn, length_skipn, Nat.min_l by exact Hm.
  replace (length rest + n - 1)%nat with ((length rest - m * n + n - 1) + m * n)%nat by lia.
  rewrite Nat.div_add by lia.
  replace (m * n + n - 1)%nat with ((n - 1) + m * n)%nat by lia.
  rewrite Nat.div_add, (Nat.div_small (n - 1)) by lia; cbn [Nat.add].
  rewrite Nat.add_comm, seq_app, map_app; cbn [Nat.add]; f_equal.
  - apply map_ext_in; intros k Hk; apply in_seq in Hk.
    f_equal; rewrite skipn_firstn_comm, firstn_firstn; f_equal; nia.
  - rewrite (seq_shift_add m), map_map; apply map_ext; intros j.
    rewrite skipn_skipn.
    replace (m + j)%nat with (j + m)%nat by lia.
    rewrite Nat.mul_add_distr_r.
    f_equal; lia.
Qed.

Lemma past_end_mono (eb : option Z) (j k : Z) :
  past_end eb j = true -> (j <= k)%Z -> past_end eb k = true.
Proof.
  destruct eb as [e|]; cbn [past_end]; [|discriminate].
  intros H Hjk; apply Z.ltb_lt in H; apply Z.ltb_lt; lia.
Qed.

Lemma filter_past_nil (eb : option Z) (f : nat -> Block.t) (base : Z) (s m : nat) :
  (forall k, Block.id (f k) = (base + Z.of_nat k)%Z) ->
  past_end eb (base + Z.of_nat s) = true ->
  filter (keep_block eb) (map f (seq s m)) = [].
Proof.
  intros Hf; revert s; induction m as [|m IH]; intros s Hp; [reflexivity|].
  cbn [seq map filter]; unfold keep_block at 1; rewrite Hf, Hp; cbn [negb].
  apply IH; eapply past_end_mono; [exact Hp|lia].
Qed.

Lemma iter_chunk_spec (bs : Z) (eb : option Z) (chunk : list Byte.byte)
  (base : Z) (m s : nat) (bid : Z) (ys : list Block.t) :
  (0 < bs)%Z ->
  (forall k, (s <= k < s + m)%nat -> (k * Z.to_nat bs < length chunk)%nat) ->
  iter_chunk bs eb chunk (map (fun k => 0 + Z.of_nat k * bs)%Z (seq s m))
    (base + Z.of_nat s) = (bid, ys) ->
  ys = filter (keep_block eb)
         (map (fun k => Block.mk (base + Z.of_nat k) ((base + Z.of_nat k) * bs)
                          (firstn (Z.to_nat bs) (skipn (k * Z.to_nat bs) chunk)))
            (seq s m)) /\
  (bid = (base + Z.of_nat (s + m))%Z \/
   (past_end eb bid = true /\ (bid <= base + Z.of_nat (s + m))%Z)).
Proof.
  intros Hb; revert s bid ys; induction m as [|m IH]; intros s bid ys Hk E.
  - cbn in E; injection E as <- <-; split; [reflexivity|left; f_equal; lia].
  - cbn [seq map iter_chunk] in E.
    destruct (past_end eb (base + Z.of_nat s)) eqn:Hp.
    + injection E as <- <-; split.
      * symmetry; apply (filter_past_nil eb _ base s (S m)); [reflexivity|exact Hp].
      * right; split; [exact Hp|lia].
    + assert (Hlt : (s * Z.to_nat bs < length chunk)%nat) by (apply Hk; lia).
      destruct (py_slice_block chunk (0 + Z.of_nat s * bs) bs) as [Hs Hne];
        [unfold zlen; nia|exact Hb|].
      replace (Z.to_nat (0 + Z.of_nat s * bs)) with (s * Z.to_nat bs)%nat in Hs by nia.
      rewrite Hs in E, Hne.
      destruct (firstn (Z.to_nat bs) (skipn (s * Z.to_nat bs) chunk)) as [|x xs] eqn:Ed;
        [contradiction|].
      replace (base + Z.of_nat s + 1)%Z with (base + Z.of_nat (S s))%Z in E by lia.
      destruct (iter_chunk bs eb chunk (map (fun k => 0 + Z.of_nat k * bs)%Z (seq (S s) m))
                  (base + Z.of_nat (S s))) as [bid' ys'] eqn:Er.
      injection E as <- <-.
      destruct (IH (S s) bid' ys') as [H1 H2]; [intros k Hk'; apply Hk; lia|exact Er|].
      cbn [seq map filter]; rewrite Ed.
      assert (Hk0 : forall d o, keep_block eb (Block.mk (base + Z.of_nat s) o d) = true)
        by (intros; unfold keep_block; cbn [Block.id]; rewrite Hp; reflexivity).
      rewrite Hk0; split; [f_equal; exact H1|].
      replace (s + S m)%nat with (S s + m)%nat by lia; exact H2.
Qed.

Lemma py_range_pos (a b step : Z) : (0 < step)%Z -> (a < b)%Z ->
  py_range a b step
  = Some (map (fun k => a + Z.of_nat k * step)%Z
            (seq 0 (Z.to_nat ((b - a + step - 1) / step)))).
Proof.
  intros Hs Hab; unfold py_range.
  destruct (Z.eqb_spec step 0); [lia|].
  destruct (Z.ltb_spec 0 step); [|lia].
  destruct (Z.leb_spec b a); [lia|reflexivity].
Qed.

Lemma div_ceil_mul (L n : nat) : (0 < n)%nat -> (L <= (L + n - 1) / n * n)%nat.
Proof.
  intros Hn.
  pose proof (Nat.div_mod (L + n - 1) n ltac:(lia)) as H1.
  pose proof (Nat.mod_upper_bound (L + n - 1) n ltac:(lia)) as H2.
  nia.
Qed.

Lemma expected_chunk_split (bs start : Z) (rest : list Byte.byte) (m : nat) :
  (0 < bs)%Z ->
  let chunk := firstn (m * Z.to_nat bs) rest in
  expected_blocks bs start rest
  = expected_blocks bs start chunk
    ++ expected_blocks bs
         (start + Z.of_nat ((length chunk + Z.to_nat bs - 1) / Z.to_nat bs))
         (skipn (length chunk) rest).
Proof.
  intros Hb chunk; subst chunk.
  destruct (Nat.le_gt_cases (m * Z.to_nat bs) (length rest)) as [H|H].
  - rewrite length_firstn, Nat.min_l by exact H.
    replace (m * Z.to_nat bs + Z.to_nat bs - 1)%nat
      with ((Z.to_nat bs - 1) + m * Z.to_nat bs)%nat by lia.
    rewrite Nat.div_add, Nat.div_small by lia; cbn [Nat.add].
    exact (expected_split bs start rest m Hb H).
  - rewrite firstn_all2 by lia; rewrite skipn_all, expected_nil, app_nil_r by exact Hb.
    reflexivity.
Qed.

Lemma iter_loop_spec (fuel : nat) (r : BlockReader.t) (pos : nat) (bid : Z) :
  (0 < BlockReader.block_size r)%Z ->
  (length (skipn pos (BlockReader.image r)) < fuel)%nat ->
  iter_loop fuel r pos bid
  = Some (filter (keep_block (BlockReader.end_block r))
            (expected_blocks (BlockReader.block_size r) bid
               (skipn pos (BlockReader.image r)))).
Proof.
  destruct r as [image bs start eb size total]; cbn [BlockReader.block_size
    BlockReader.image BlockReader.end_block].
  intros Hb; revert pos bid; induction fuel as [|fuel IH]; intros pos bid Hf; [lia|].
  cbn [iter_loop BlockReader.end_block BlockReader.block_size BlockReader.image].
  destruct (past_end eb bid) eqn:Hp.
  - f_equal; symmetry; unfold expected_blocks.
    apply (filter_past_nil eb _ bid); [reflexivity|rewrite Z.add_0_r; exact Hp].
  - unfold f_read.
    replace (READ_CHUNK_BLOCKS * bs <? -1)%Z with false
      by (symmetry; apply Z.ltb_ge; unfold READ_CHUNK_BLOCKS; lia).
    replace (READ_CHUNK_BLOCKS * bs =? -1)%Z with false
      by (symmetry; apply Z.eqb_neq; unfold READ_CHUNK_BLOCKS; lia).
    cbn [obind].
    replace (Z.to_nat (READ_CHUNK_BLOCKS * bs)) with (1024 * Z.to_nat bs)%nat
      by (unfold READ_CHUNK_BLOCKS; lia).
    pose proof (expected_chunk_split bs bid (skipn pos image) 1024 Hb) as Hsplit.
    cbv zeta in Hsplit.
    set (rest := skipn pos image) in *.
    set (chunk := firstn (1024 * Z.to_nat bs) rest) in *.
    destruct chunk as [|c cs] eqn:Ec.
    + assert (Hr : rest = []).
      { destruct rest as [|y ys]; [reflexivity|].
        subst chunk; replace (1024 * Z.to_nat bs)%nat with (S (1024 * Z.to_nat bs - 1))
          in Ec by lia; discriminate. }
      rewrite Hr, expected_nil by exact Hb; reflexivity.
    + rewrite <- Ec in *.
      assert (Hlc : (0 < length chunk)%nat) by (rewrite Ec; cbn; lia).
      rewrite py_range_pos by (unfold zlen; lia).
      rewrite Z.sub_0_r; unfold zlen; rewrite count_eq by exact Hb; cbn [obind].
      set (cnt := ((length chunk + Z.to_nat bs - 1) / Z.to_nat bs)%nat) in *.
      destruct (iter_chunk bs eb chunk (map (fun k => 0 + Z.of_nat k * bs)%Z (seq 0 cnt))
                  bid) as [bid' ys] eqn:Ei.
      rewrite <- (Z.add_0_r bid) in Ei.
      destruct (iter_chunk_spec bs eb chunk bid cnt 0 bid' ys Hb) as [Hys Hbid];
        [intros k Hk; apply div_ceil_lt; lia|exact Ei|].
      assert (Hlen : (length (skipn (pos + length chunk) image) < fuel)%nat).
      { assert (Hr : length rest = (length image - pos)%nat) by apply length_skipn.
        assert (Hc : (length chunk <= length rest)%nat)
          by (subst chunk; rewrite length_firstn; lia).
        rewrite length_skipn; lia. }
      rewrite (IH _ bid' Hlen); cbn [obind].
      rewrite (Nat.add_comm pos), <- skipn_skipn; fold rest.
      rewrite Hsplit, filter_app, Hys; f_equal; f_equal.
      destruct Hbid as [->|[Hp' Hle]]; [f_equal; f_equal; lia|].
      unfold expected_blocks.
      rewrite (filter_past_nil eb _ bid'), (filter_past_nil eb _ (bid + Z.of_nat cnt));
        try reflexivity; rewrite Z.add_0_r; [|exact Hp'].
      eapply past_end_mono; [exact Hp'|lia].
Qed.

Lemma div_ceil_lt_iff (k L n : nat) : (0 < n)%nat ->
  (k < (L + n - 1) / n)%nat <-> (k * n < L)%nat.
Proof.
  intros Hn; split; [apply div_ceil_lt; exact Hn|intros H].
  assert (H1 : (S k * n <= L + n - 1)%nat) by (cbn; lia).
  apply (Nat.Div0.div_le_mono _ _ n) in H1.
  rewrite Nat.div_mul in H1 by lia; lia.
Qed.

Lemma BlockReader_iter_spec (image : list Byte.byte) (bs start : Z)
  (eb : option Z) (r : BlockReader.t) :
  BlockReader_init image bs start eb = Some r -> (0 < bs)%Z ->
  BlockReader_iter r
  = Some (filter (keep_block eb)
            (expected_blocks bs start (skipn (Z.to_nat (start * bs)) image))).
Proof.
  unfold BlockReader_init, py_floordiv; intros E Hb.
  destruct (Z.eqb_spec bs 0); [lia|]; cbn [obind] in E; injection E as <-.
  unfold BlockReader_iter; cbn [BlockReader.start_block BlockReader.block_size
    BlockReader.image BlockReader.end_block].
  replace (if (0 <? start * bs)%Z then Z.to_nat (start * bs) else 0%nat)
    with (Z.to_nat (start * bs)) by (destruct (Z.ltb_spec 0 (start * bs)); lia).
  apply (iter_loop_spec _ (BlockReader.mk image bs start eb _ _)); [exact Hb|].
  rewrite length_skipn; cbn [BlockReader.image]; lia.
Qed.

Lemma filter_keep_none (l : list Block.t) : filter (keep_block None) l = l.
Proof. induction l as [|b t IH]; cbn; [reflexivity|rewrite IH; reflexivity]. Qed.

Lemma filter_keep_some (e : Z) (l : list Block.t) :
  filter (keep_block (Some e)) l = filter (fun b => (Block.id b <=? e)%Z) l.
Proof.
  apply filter_ext; intros b; unfold keep_block; cbn [past_end].
  rewrite Z.leb_antisym; reflexivity.
Qed.

Lemma concat_blocks (n : nat) (l : list Byte.byte) (j c : nat) :
  (0 < n)%nat -> (length l <= (j + c) * n)%nat ->
  concat (map (fun k => firstn n (skipn (k * n) l)) (seq j c)) = skipn (j * n) l.
Proof.
  intros Hn; revert j; induction c as [|c IH]; intros j Hl.
  - cbn; symmetry; apply skipn_all2; lia.
  - cbn [seq map concat]; rewrite IH by lia.
    replace (S j * n)%nat with (n + j * n)%nat by lia.
    rewrite <- skipn_skipn, firstn_skipn; reflexivity.
Qed.

Lemma length_expected (bs start : Z) (rest : list Byte.byte) :
  length (expected_blocks bs start rest)
  = ((length rest + Z.to_nat bs - 1) / Z.to_nat bs)%nat.
Proof. unfold expected_blocks; rewrite length_map, length_seq; reflexivity. Qed.

Lemma nth_error_seq_lt (a c j : nat) : (j < c)%nat -> nth_error (seq a c) j = Some (a + j)%nat.
Proof.
  revert a j; induction c as [|c IH]; intros a j Hj; [lia|].
  destruct j as [|j]; cbn; [f_equal; lia|rewrite IH by lia; f_equal; lia].
Qed.

Lemma nth_error_seq_ge (a c j : nat) : (c <= j)%nat -> nth_error (seq a c) j = None.
Proof. intros H; apply nth_error_None; rewrite length_seq; exact H. Qed.

(** X14: for a positive block size and no [end_block], the blocks
    [BlockReader.__iter__] yields concatenate back to the image from byte
    [start_block * block_size] on; their ids run consecutively from
    [start_block], each offset is [id * block_size], and each block holds
    between 1 and [block_size] bytes. *)
Theorem BlockReader_iter_round_trip (image : list Byte.byte) (block_size start_block : Z)
  (r : BlockReader.t) :
  BlockReader_init image block_size start_block None = Some r ->
  (0 < block_size)%Z ->
  exists blocks,
    BlockReader_iter r = Some blocks /\
    concat (map Block.data blocks)
      = skipn (Z.to_nat (start_block * block_size)) image /\
    map Block.id blocks = zrange start_block (start_block + zlen blocks) /\
    Forall (fun b => Block.offset b = (Block.id b * block_size)%Z /\
                     (1 <= length (Block.data b) <= Z.to_nat block_size)%nat) blocks.
Proof.
  intros E Hb; rewrite (BlockReader_iter_spec _ _ _ _ _ E Hb), filter_keep_none.
  eexists; split; [reflexivity|].
  set (rest := skipn (Z.to_nat (start_block * block_size)) image).
  set (n := Z.to_nat block_size).
  assert (Hn : (0 < n)%nat) by (subst n; lia).
  split; [|split].
  - unfold expected_blocks; rewrite map_map; cbn [Block.data]; fold n.
    apply (concat_blocks n rest 0); [exact Hn|cbn [Nat.add]; apply div_ceil_mul; exact Hn].
  - unfold zlen; rewrite length_expected; unfold expected_blocks, zrange.
    rewrite map_map; cbn [Block.id]; fold n.
    f_equal; f_equal; lia.
  - unfold expected_blocks; apply Forall_map, Forall_forall; intros k Hk.
    apply in_seq in Hk; cbn [Block.offset Block.id Block.data]; split; [reflexivity|].
    fold n in Hk |- *; rewrite length_firstn, length_skipn.
    pose proof (div_ceil_lt k (length rest) n Hn ltac:(lia)); lia.
Qed.

(** X15: for a positive block size, a non-negative [start_block] and no
    [end_block], [BlockReader.__iter__] yields [max 0 (total_blocks -
    start_block)] blocks. *)
Theorem BlockReader_iter_count (image : list Byte.byte) (block_size start_block : Z)
  (r : BlockReader.t) :
  BlockReader_init image block_size start_block None = Some r ->
  (0 < block_size)%Z -> (0 <= start_block)%Z ->
  exists blocks,
    BlockReader_iter r = Some blocks /\
    zlen blocks = Z.max 0 (BlockReader.total_blocks r - start_block).
Proof.
  intros E Hb Hs; pose proof E as E'.
  rewrite (BlockReader_iter_spec _ _ _ _ _ E Hb), filter_keep_none.
  eexists; split; [reflexivity|].
  unfold BlockReader_init, py_floordiv in E'.
  destruct (Z.eqb_spec block_size 0) as [|Hnz]; [lia|]; cbn [obind] in E'.
  injection E' as <-.
  cbn [BlockReader.total_blocks]; unfold zlen; rewrite length_expected, length_skipn.
  set (n := Z.to_nat block_size).
  assert (Hn : (0 < n)%nat) by (subst n; lia).
  replace (Z.to_nat (start_block * block_size)) with (Z.to_nat start_block * n)%nat
    by (subst n; lia).
  rewrite Nat2Z.inj_div.
  replace (Z.of_nat n) with block_size by (subst n; lia).
  destruct (Nat.le_gt_cases (Z.to_nat start_block * n) (length image)) as [H|H].
  - replace (Z.of_nat (length image - Z.to_nat start_block * n + n - 1))
      with (Z.of_nat (length image) + block_size - 1 + (- start_block) * block_size)%Z
      by (subst n; lia).
    rewrite Z.div_add by lia.
    assert (0 <= (Z.of_nat (length image) + block_size - 1 + - start_block * block_size)
                 / block_size)%Z by (apply Z.div_pos; subst n; lia).
    rewrite Z.div_add in H0 by lia; lia.
  - replace (length image - Z.to_nat start_block * n + n - 1)%nat with (n - 1)%nat by lia.
    rewrite Z.div_small by (subst n; lia).
    assert (H' : (Z.of_nat (length image) < start_block * block_size)%Z).
    { apply Nat2Z.inj_lt in H; rewrite Nat2Z.inj_mul in H; subst n;
        rewrite !Z2Nat.id in H by lia; exact H. }
    assert ((Z.of_nat (length image) + block_size - 1) / block_size < start_block + 1)%Z.
    { apply Z.div_lt_upper_bound; lia. }
    lia.
Qed.

(** X16: for a positive block size, the blocks yielded with [end_block = e]
    are exactly the blocks yielded without an end block whose id is at
    most [e]. *)
Theorem BlockReader_iter_end_block (image : list Byte.byte) (block_size start_block e : Z)
  (r1 r2 : BlockReader.t) :
  BlockReader_init image block_size start_block (Some e) = Some r1 ->
  BlockReader_init image block_size start_block None = Some r2 ->
  (0 < block_size)%Z ->
  exists bounded all,
    BlockReader_iter r1 = Some bounded /\ BlockReader_iter r2 = Some all /\
    bounded = filter (fun b => (Block.id b <=? e)%Z) all.
Proof.
  intros E1 E2 Hb.
  rewrite (BlockReader_iter_spec _ _ _ _ _ E1 Hb), (BlockReader_iter_spec _ _ _ _ _ E2 Hb).
  rewrite filter_keep_none, filter_keep_some; eauto.
Qed.

(** X17: for a positive block size, a non-negative [start_block] and no
    [end_block], [read_block b] for [b >= start_block] returns the block
    the iterator yields at position [b - start_block], and raises exactly
    when there is none; [read_block] raises for every negative id. *)
Theorem BlockReader_read_block_agrees (image : list Byte.byte) (block_size start_block : Z)
  (r : BlockReader.t) :
  BlockReader_init image block_size start_block None = Some r ->
  (0 < block_size)%Z -> (0 <= start_block)%Z ->
  exists blocks,
    BlockReader_iter r = Some blocks /\
    (forall b, (start_block <= b)%Z ->
       BlockReader_read_block r b = nth_error blocks (Z.to_nat (b - start_block))) /\
    (forall b, (b < 0)%Z -> BlockReader_read_block r b = None).
Proof.
  intros E Hb Hs; pose proof E as E'.
  rewrite (BlockReader_iter_spec _ _ _ _ _ E Hb), filter_keep_none.
  eexists; split; [reflexivity|].
  unfold BlockReader_init, py_floordiv in E'.
  destruct (Z.eqb_spec block_size 0) as [|Hnz]; [lia|]; cbn [obind] in E'.
  injection E' as <-.
  unfold BlockReader_read_block, f_read; cbn [BlockReader.image_size BlockReader.block_size
    BlockReader.image].
  replace (block_size <? -1)%Z with false by (symmetry; apply Z.ltb_ge; lia).
  replace (block_size =? -1)%Z with false by (symmetry; apply Z.eqb_neq; lia).
  cbn [obind].
  split; [intros b Hsb|intros b Hneg].
  - set (n := Z.to_nat block_size).
    assert (Hn : (0 < n)%nat) by (subst n; lia).
    set (j := Z.to_nat (b - start_block)).
    set (rest := skipn (Z.to_nat (start_block * block_size)) image).
    unfold expected_blocks; rewrite nth_error_map; fold n.
    assert (Hrest : length rest = (length image - Z.to_nat start_block * n)%nat)
      by (subst rest n; rewrite length_skipn; f_equal; lia).
    replace (Z.to_nat (b * block_size)) with (j * n + Z.to_nat start_block * n)%nat
      by (subst j n; nia).
    destruct (Nat.lt_ge_cases j ((length rest + n - 1) / n)) as [Hj|Hj].
    + rewrite nth_error_seq_lt by exact Hj; cbn [option_map Nat.add].
      apply (div_ceil_lt_iff j (length rest) n Hn) in Hj.
      destruct (Z.leb_spec (zlen image) (b * block_size)) as [Hc|_].
      { unfold zlen in Hc; nia. }
      destruct (Z.ltb_spec (b * block_size) 0); [nia|].
      rewrite <- skipn_skipn.
      replace (Z.to_nat start_block * n)%nat with (Z.to_nat (start_block * block_size))
        by (subst n; lia).
      fold rest; f_equal; f_equal; [lia|subst j; f_equal; lia].
    + rewrite nth_error_seq_ge by exact Hj; cbn [option_map].
      assert (Hj' : ~ (j * n < length rest)%nat)
        by (rewrite <- (div_ceil_lt_iff j (length rest) n Hn); lia).
      destruct (Z.leb_spec (zlen image) (b * block_size)) as [_|Hc]; [reflexivity|].
      exfalso; apply Hj'; unfold zlen in Hc; nia.
  - destruct (Z.leb_spec (zlen image) (b * block_size)) as [Hc|_].
    + pose proof (zlen_nonneg image); nia.
    + destruct (Z.ltb_spec (b * block_size) 0); [reflexivity|nia].
Qed.

(* ================================================================== *)
(** * The scan of an image *)

Lemma classify_all_some (np : bool) (blocks : list (Z * Z * list Byte.byte)) :
  exists results,
    classify_all np blocks = Some results /\
    map BlockResult.block_id results = map (fun '(i, _, _) => i) blocks.
Proof.
  induction blocks as [|[[i off] data] t IH]; [exists []; split; reflexivity|].
  destruct IH as (rs & Ers & Hids).
  destruct (classify_block_shape np i off data)
    as (wt & e & conf & db & dp & zr & fr & E).
  cbn [classify_all]; rewrite E, Ers; cbn [obind].
  eexists; split; [reflexivity|]; cbn [map]; f_equal; exact Hids.
Qed.

Lemma compute_score_total (blocks : list BlockResult.t) (regions : list Region.t)
  (st : ScanStats.t) :
  compute_score blocks regions = Some st -> ScanStats.total_blocks st = zlen blocks.
Proof.
  destruct blocks as [|b t].
  - cbn; intros E; injection E as <-; reflexivity.
  - destruct (compute_score_fields (b :: t) regions) as (st' & E' & Ht & _);
      [discriminate|].
    intros E; rewrite E in E'; injection E' as ->; exact Ht.
Qed.

(** X19: the scan of any image (default reader, classification, aggregation
    with its fallback, scoring) returns without raising, and its
    [total_blocks] statistic equals the reader's [total_blocks],
    [ceil(image_size / 512)]. *)
Theorem scan_image_total_blocks (numpy_available : bool) (image : list Byte.byte) :
  exists regions stats,
    scan_image numpy_available image = Some (regions, stats) /\
    ScanStats.total_blocks stats = ((zlen image + BLOCK_SIZE - 1) / BLOCK_SIZE)%Z.
Proof.
  unfold scan_image.
  destruct (BlockReader_init image BLOCK_SIZE 0 None) as [r|] eqn:Er;
    [|unfold BlockReader_init, py_floordiv in Er; discriminate].
  cbn [obind]; rewrite (BlockReader_iter_spec _ _ _ _ _ Er ltac:(unfold BLOCK_SIZE; lia)),
    filter_keep_none; cbn [obind].
  set (blocks := expected_blocks BLOCK_SIZE 0 (skipn (Z.to_nat (0 * BLOCK_SIZE)) image)).
  set (inputs := map (fun b => (Block.id b, Block.offset b, Block.data b)) blocks).
  destruct (classify_all_some numpy_available inputs) as (results & Ec & Hids).
  unfold run_scan; rewrite Ec; cbn [obind].
  assert (Hnn : Forall (fun b => 0 <= BlockResult.block_id b)%Z results).
  { apply Forall_forall; intros x Hx.
    apply (in_map BlockResult.block_id) in Hx; rewrite Hids in Hx.
    subst inputs blocks; unfold expected_blocks in Hx; rewrite !map_map in Hx.
    apply in_map_iff in Hx as (k & <- & _); cbn [Block.id]; lia. }
  destruct (aggregate_some results Hnn) as [rs Eagg].
  unfold run_scan_core; rewrite Eagg; cbn [obind].
  destruct (fallback_loop_some
              match results with
              | b0 :: b1 :: _ =>
                  let bs := (BlockResult.offset b1 - BlockResult.offset b0)%Z in
                  if (bs <=? 0)%Z then 512%Z else bs
              | _ => 512%Z end results [] 0) as [fb Efb].
  assert (Hreg : exists regions,
             (if (zlen rs =? 0)%Z && (zlen (filter BlockResult.is_suspicious results) >? 0)%Z
              then _fallback_aggregate results else Some rs) = Some regions).
  { destruct (_ && _); [exists fb; exact Efb|eauto]. }
  destruct Hreg as [regions Ereg]; rewrite Ereg; cbn [obind].
  destruct (compute_score_some results regions) as [st Est]; rewrite Est; cbn [obind].
  exists regions, st; split; [reflexivity|].
  rewrite (compute_score_total _ _ _ Est).
  apply (f_equal (@length Z)) in Hids; rewrite !length_map in Hids.
  unfold zlen; rewrite Hids; subst inputs blocks.
  rewrite length_map, length_expected; cbn [Z.mul Z.to_nat skipn].
  unfold BLOCK_SIZE; rewrite Nat2Z.inj_div.
  f_equal; lia.
Qed.


(* ================================================================== *)
(** * Instances of the further properties *)

Lemma sample_classified (np : bool) :
  exists results,
    classify_all np sample_blocks = Some results /\
    Forall (fun b => 0 <= BlockResult.block_id b)%Z results.
Proof.
  destruct (classify_all_some np sample_blocks) as (results & E & Hids).
  exists results; split; [exact E|].
  apply Forall_forall; intros x Hx.
  apply (in_map BlockResult.block_id) in Hx; rewrite Hids in Hx.
  cbn in Hx; lia.
Qed.

Lemma split_scan_ids : Forall (fun b => 0 <= BlockResult.block_id b)%Z split_scan.
Proof.
  apply Forall_forall; intros b Hb.
  assert (H : forallb (fun b => 0 <=? BlockResult.block_id b)%Z split_scan = true)
    by (vm_compute; reflexivity).
  eapply forallb_forall in H; [|exact Hb]; apply Z.leb_le in H; exact H.
Qed.

Lemma aggregate_region_counts_witness :
  exists rs, aggregate split_scan = Some rs /\ Forall region_counts_ok rs.
Proof.
  destruct (aggregate_some split_scan split_scan_ids) as [rs E].
  exists rs; split; [exact E|exact (aggregate_region_counts _ _ E)].
Defined.

Lemma aggregate_labels_suspicious_witness :
  exists results rs,
    classify_all true sample_blocks = Some results /\ aggregate results = Some rs /\
    Forall (fun r => Region.wipe_type r <> NORMAL /\ Region.wipe_type r <> UNALLOCATED) rs.
Proof.
  destruct (sample_classified true) as (results & Ec & Hn).
  destruct (aggregate_some results Hn) as [rs Ea].
  exists results, rs; split; [exact Ec|split; [exact Ea|]].
  exact (aggregate_labels_suspicious true sample_blocks results rs Ec Ea).
Defined.

Lemma aggregate_avg_entropy_range_witness :
  exists results rs,
    classify_all true sample_blocks = Some results /\ aggregate results = Some rs /\
    Forall (fun r => 0 <= Region.avg_entropy r <= 8) rs.
Proof.
  destruct (sample_classified true) as (results & Ec & Hn).
  destruct (aggregate_some results Hn) as [rs Ea].
  exists results, rs; split; [exact Ec|split; [exact Ea|]].
  exact (aggregate_avg_entropy_range true sample_blocks results rs Ec Ea).
Defined.

Lemma aggregate_confidence_range_witness :
  exists rs, aggregate split_scan = Some rs /\
    Forall (fun r => 0 <= Region.confidence r <= 1 /\ rounded3 (Region.confidence r)) rs.
Proof.
  destruct (aggregate_some split_scan split_scan_ids) as [rs E].
  exists rs; split; [exact E|exact (aggregate_confidence_range _ _ E)].
Defined.

Lemma compute_score_type_counts_witness :
  exists results st,
    classify_all false sample_blocks = Some results /\
    compute_score results [] = Some st /\
    map fst (ScanStats.wipe_type_counts st) = map fst initial_type_counts /\
    zsum (map snd (ScanStats.wipe_type_counts st)) = ScanStats.suspicious_blocks st.
Proof.
  destruct (sample_classified false) as (results & Ec & _).
  destruct (compute_score_type_counts false sample_blocks results [] Ec) as (st & H).
  exists results, st; split; [exact Ec|exact H].
Defined.

Lemma compute_score_flagged_entropy_witness :
  exists results st,
    classify_all false sample_blocks = Some results /\
    compute_score results [] = Some st /\
    0 <= ScanStats.avg_entropy_flagged st <= 8.
Proof.
  destruct (sample_classified false) as (results & Ec & _).
  destruct (compute_score_flagged_entropy false sample_blocks results [] Ec) as (st & H).
  exists results, st; split; [exact Ec|exact H].
Defined.

Lemma BlockReader_iter_round_trip_witness :
  BlockReader_init sample_image 2 1 None
    = Some (BlockReader.mk sample_image 2 1 None 5 3) /\
  exists blocks,
    BlockReader_iter (BlockReader.mk sample_image 2 1 None 5 3) = Some blocks /\
    concat (map Block.data blocks) = skipn (Z.to_nat (1 * 2)) sample_image /\
    map Block.id blocks = zrange 1 (1 + zlen blocks) /\
    Forall (fun b => Block.offset b = (Block.id b * 2)%Z /\
                     (1 <= length (Block.data b) <= Z.to_nat 2)%nat) blocks.
Proof.
  split; [reflexivity|].
  apply (BlockReader_iter_round_trip sample_image 2 1
           (BlockReader.mk sample_image 2 1 None 5 3)); [reflexivity|lia].
Defined.

Lemma BlockReader_iter_count_witness :
  BlockReader_init sample_image 2 1 None
    = Some (BlockReader.mk sample_image 2 1 None 5 3) /\
  exists blocks,
    BlockReader_iter (BlockReader.mk sample_image 2 1 None 5 3) = Some blocks /\
    zlen blocks = Z.max 0 (3 - 1).
Proof.
  split; [reflexivity|].
  apply (BlockReader_iter_count sample_image 2 1
           (BlockReader.mk sample_image 2 1 None 5 3)); [reflexivity|lia|lia].
Defined.

Lemma BlockReader_iter_end_block_witness :
  exists bounded all,
    BlockReader_iter (BlockReader.mk sample_image 2 0 (Some 1%Z) 5 3) = Some bounded /\
    BlockReader_iter (BlockReader.mk sample_image 2 0 None 5 3) = Some all /\
    bounded = filter (fun b => (Block.id b <=? 1)%Z) all.
Proof.
  apply (BlockReader_iter_end_block sample_image 2 0 1
           (BlockReader.mk sample_image 2 0 (Some 1%Z) 5 3)
           (BlockReader.mk sample_image 2 0 None 5 3)); [reflexivity|reflexivity|lia].
Defined.

Lemma BlockReader_read_block_agrees_witness :
  exists blocks,
    BlockReader_iter (BlockReader.mk sample_image 2 1 None 5 3) = Some blocks /\
    (forall b, (1 <= b)%Z ->
       BlockReader_read_block (BlockReader.mk sample_image 2 1 None 5 3) b
       = nth_error blocks (Z.to_nat (b - 1))) /\
    (forall b, (b < 0)%Z ->
       BlockReader_read_block (BlockReader.mk sample_image 2 1 None 5 3) b = None).
Proof.
  apply (BlockReader_read_block_agrees sample_image 2 1
           (BlockReader.mk sample_image 2 1 None 5 3)); [reflexivity|lia|lia].
Defined.

